(** * sports-trend-ranker: the scoring and ranking core of [main1.py]

    A shallow embedding of the pure part of [src/src/src/main1.py]
    ([normalize], [extract_entities], [get_trend_slopes], [score_items],
    [suggest_hook]) together with the properties of its specification.

    Modelling conventions.
    - Python floats are modelled by exact rationals ([Q], compared with
      [==], [<] and [<=]); integers by [Z].
    - Python strings are modelled by [string]; [str.lower] and the regular
      expressions act on the ASCII range.
    - An item dictionary with the fixed keys built by the fetchers and by
      [main] is a record; the keys written by [score_items] are a second
      record wrapped around it.
    - What [score_items] does to the dictionaries themselves is stated on
      a second reading of the same lines, where an item is a reference into
      a store of dictionaries that the loop writes in place.
    - The dictionary [seen] is an association list in insertion order, the
      [Counter] and the slope table are [gmap]s.
    - The clock, the trend service and the entity recogniser are outside
      the program: they are fields of an environment, and the effects on
      them (clock reads, network calls, exceptions) are threaded through a
      small state-and-exception monad. *)

From Stdlib Require Import ZArith QArith Qminmax Qround Lqa Lia List Bool Ascii String Sorted Permutation.
From stdpp Require Import gmap strings list fin_maps.

Local Open Scope Z_scope.
Local Open Scope Q_scope.

(** ** Strings *)

Definition is_upper (c : ascii) : bool :=
  let n := nat_of_ascii c in (Nat.leb 65 n && Nat.leb n 90)%bool.

Definition is_lower (c : ascii) : bool :=
  let n := nat_of_ascii c in (Nat.leb 97 n && Nat.leb n 122)%bool.

Definition is_digit (c : ascii) : bool :=
  let n := nat_of_ascii c in (Nat.leb 48 n && Nat.leb n 57)%bool.

Definition lower_ascii (c : ascii) : ascii :=
  if is_upper c then ascii_of_nat (nat_of_ascii c + 32) else c.

(** [s.lower()] *)
Fixpoint lower (s : string) : string :=
  match s with
  | EmptyString => EmptyString
  | String c s' => String (lower_ascii c) (lower s')
  end.

(** [sep.join(l)] *)
Fixpoint join (sep : string) (l : list string) : string :=
  match l with
  | [] => EmptyString
  | [x] => x
  | x :: l' => String.append x (String.append sep (join sep l'))
  end.

Fixpoint starts_with (p s : string) : bool :=
  match p, s with
  | EmptyString, _ => true
  | String a p', String b s' => (Ascii.eqb a b && starts_with p' s')%bool
  | String _ _, EmptyString => false
  end.

(** [p in s] on strings *)
Fixpoint contains (p s : string) : bool :=
  (starts_with p s ||
   match s with
   | EmptyString => false
   | String _ s' => contains p s'
   end)%bool.

(** The maximal runs of characters satisfying [p], from left to right:
    [re.findall] of a character class followed by [+]. *)
Fixpoint runs_from (p : ascii -> bool) (cur : string) (s : string) : list string :=
  match s with
  | EmptyString => if String.eqb cur "" then [] else [cur]
  | String c s' =>
      if p c then runs_from p (String.append cur (String c "")) s'
      else (if String.eqb cur "" then [] else [cur]) ++ runs_from p "" s'
  end.

Definition runs (p : ascii -> bool) (s : string) : list string := runs_from p "" s.

Fixpoint all_chars (p : ascii -> bool) (s : string) : bool :=
  match s with
  | EmptyString => true
  | String c s' => (p c && all_chars p s')%bool
  end.

(** [\w] *)
Definition is_word (c : ascii) : bool :=
  (is_upper c || is_lower c || is_digit c || Ascii.eqb c "_")%bool.

(** [re.findall(r"\b([A-Z]{2,})\b", text)]: between two word boundaries
    with only capitals in between lies a whole run of word characters. *)
Definition findall_caps (text : string) : list string :=
  List.filter (fun w => (all_chars is_upper w && Nat.leb 2 (String.length w))%bool)
              (runs is_word text).

(** [re.findall(r"[A-Za-z0-9']+", title)] *)
Definition findall_words (title : string) : list string :=
  runs (fun c => (is_upper c || is_lower c || is_digit c || Ascii.eqb c "'")%bool) title.

Definition is_space (c : ascii) : bool :=
  let n := nat_of_ascii c in
  ((Nat.leb 9 n && Nat.leb n 13) || (Nat.leb 28 n && Nat.leb n 32))%bool.

Fixpoint lstrip (s : string) : string :=
  match s with
  | EmptyString => EmptyString
  | String c s' => if is_space c then lstrip s' else s
  end.

Fixpoint rstrip (s : string) : string :=
  match s with
  | EmptyString => EmptyString
  | String c s' =>
      match rstrip s' with
      | EmptyString => if is_space c then EmptyString else String c EmptyString
      | r => String c r
      end
  end.

(** [s.strip()] *)
Definition strip (s : string) : string := rstrip (lstrip s).

(** ** Numbers *)

(** [normalize(val, lo, hi)] *)
Definition normalize (val lo hi : Q) : Q :=
  if Qeq_bool hi lo then 0
  else let x := (val - lo) / (hi - lo) in Qmax 0 (Qmin 1 x).

(** [round(x, 4)] on the exact value of [x]: the nearest multiple of
    1/10000, a tie going to the even one.  (The program rounds the double
    nearest to [x], which can fall on the other side of a tie.) *)
Definition round_half_even (x : Q) : Z :=
  let f := Qfloor x in
  let d := x - inject_Z f in
  match Qcompare d (1 # 2) with
  | Lt => f
  | Gt => (f + 1)%Z
  | Eq => if Z.even f then f else (f + 1)%Z
  end.

Definition round4 (x : Q) : Q := inject_Z (round_half_even (x * 10000)) / 10000.

(** [min(l, default=d)] and [max(l, default=d)] on integers *)
Definition min_default (d : Z) (l : list Z) : Z :=
  match l with
  | [] => d
  | x :: l' => fold_left Z.min l' x
  end.

Definition max_default (d : Z) (l : list Z) : Z :=
  match l with
  | [] => d
  | x :: l' => fold_left Z.max l' x
  end.

(** ** Items *)

(** The dictionary built by [fetch_reddit_top_day] and [fetch_news], with the
    key [entities] that [main] adds ([it.get("entities", [])] reads an absent
    key as the empty list). *)
Record Item := {
  source : string;
  title : string;
  url : string;
  ts : Z;
  ups : Z;
  comments : Z;
  entities : list string
}.

(** An item after lines 169-170 of [score_items] have written the seven score
    keys into it; [base] is every other key of the dictionary. *)
Record Scored := {
  base : Item;
  R_up : Q;
  R_com : Q;
  Fresh : Q;
  NewsVel : Q;
  Cross : Z;
  TrendSlope : Q;
  ViralityScore : Q
}.

Definition SPORT_TERMS : list string := ["NFL"; "NBA"; "UFC"; "Boxing"; "Soccer"]%string.

(** ** The outside world *)

(** What [pytrends] answers for one term: an exception anywhere between
    [build_payload] and the list of values, or the column of values (empty
    for an empty frame). *)
Inductive Fetch :=
| FetchRaises
| FetchSeries (y : list Q).

(** One span reported by the recogniser: [ent.label_] and [ent.text]. *)
Record Span := { label_ : string; text : string }.

Record Env := {
  clock : nat -> Z;                   (* the n-th value returned by [time.time()*1000] *)
  USE_TRENDS : bool;                  (* the environment variable [USE_TRENDS] is ["1"] *)
  trend_client : bool;                (* importing and building [TrendReq] succeeds *)
  trend_series : string -> Fetch;     (* the answer of the trend service for a term *)
  nlp : string -> list Span;          (* [nlp(text).ents] *)
  str_hash : string -> Z              (* the builtin [hash] on strings in this process *)
}.

Inductive Event :=
| EvClient
| EvFetch (term : string).

(** The state the program changes outside itself: how often the clock was
    read and which calls went to the trend service. *)
Record World := { ticks : nat; calls : list Event }.

Inductive Result (A : Type) :=
| Ok (a : A)
| Raised.
Arguments Ok {A} a.
Arguments Raised {A}.

Definition M (A : Type) : Type := World -> Result A * World.

Definition ret {A} (a : A) : M A := fun w => (Ok a, w).

Definition bind {A B} (m : M A) (k : A -> M B) : M B :=
  fun w => match m w with
           | (Ok a, w') => k a w'
           | (Raised, w') => (Raised, w')
           end.

Declare Scope m_scope.
Delimit Scope m_scope with M.
Notation "x <- c ;; k" := (bind c (fun x => k))
  (at level 100, c at next level, right associativity) : m_scope.

(** [try: m except Exception: h] *)
Definition try_except {A} (m : M A) (h : M A) : M A :=
  fun w => match m w with
           | (Ok a, w') => (Ok a, w')
           | (Raised, w') => h w'
           end.

Fixpoint mapM {A B} (f : A -> M B) (l : list A) : M (list B) :=
  match l with
  | [] => ret []
  | x :: l' => (y <- f x ;; ys <- mapM f l' ;; ret (y :: ys))%M
  end.

Section Effects.
Variable env : Env.

Definition now_ms : M Z :=
  fun w => (Ok (clock env (ticks w)), {| ticks := S (ticks w); calls := calls w |}).

Definition hours_ago (ts_ms : Z) : M Q :=
  (now <- now_ms ;; ret (inject_Z (now - ts_ms) / 3600000))%M.

(** ** Trends *)

Definition new_client : M unit :=
  fun w => (if trend_client env then Ok tt else Raised,
            {| ticks := ticks w; calls := calls w ++ [EvClient] |}).

(** [build_payload([term], ...)], [interest_over_time()] and
    [df[term].values.tolist()] *)
Definition fetch_series (term : string) : M (list Q) :=
  fun w => (match trend_series env term with
            | FetchRaises => Raised
            | FetchSeries y => Ok y
            end,
            {| ticks := ticks w; calls := calls w ++ [EvFetch term] |}).

(** The value stored in [slopes[term]] when the series is [y]. *)
Definition slope_of (y : list Q) : Q :=
  match y with
  | [] => 0
  | y0 :: _ =>
      if (length y <? 3)%nat then 0
      else (List.last y 0 - y0) / 100
  end.

Fixpoint trend_loop (terms : list string) (slopes : gmap string Q) : M (gmap string Q) :=
  match terms with
  | [] => ret slopes
  | term :: rest =>
      (slopes' <- try_except
                    (y <- fetch_series term ;; ret (<[term := slope_of y]> slopes))
                    (ret (<[term := 0]> slopes)) ;;
       trend_loop rest slopes')%M
  end.

Definition get_trend_slopes (terms : list string) : M (gmap string Q) :=
  if negb (USE_TRENDS env) then ret ∅
  else (_ <- new_client ;; trend_loop terms ∅)%M.

End Effects.

(** ** Entities *)

Definition allowed_labels : list string :=
  ["PERSON"; "ORG"; "GPE"; "NORP"; "EVENT"; "WORK_OF_ART"]%string.

(** The loop of lines 79-84: [seen] holds the folded entities met so far,
    [uniq] the entities kept so far. *)
Fixpoint uniq_loop (ents : list string) (seen : gset string) (uniq : list string)
  : list string :=
  match ents with
  | [] => uniq
  | e :: rest =>
      let k := lower e in
      if decide (k ∈ seen) then uniq_loop rest seen uniq
      else uniq_loop rest ({[k]} ∪ seen) (uniq ++ [e])
  end.

(** The list [ents] after the loop of lines 72-74: the stripped text of the
    spans with an allowed label. *)
Definition recognised (env : Env) (txt : string) : list string :=
  List.map (fun sp => strip (text sp))
      (List.filter (fun sp => bool_decide (label_ sp ∈ allowed_labels)) (nlp env txt)).

(** The list [ents] of line 77, before the duplicates are removed. *)
Definition candidates (env : Env) (txt : string) : list string :=
  recognised env txt ++ findall_caps txt.

Definition extract_entities (env : Env) (txt : string) : list string :=
  uniq_loop (candidates env txt) ∅ [].

(** ** Scoring *)

Definition Qlt_bool (a b : Q) : bool := negb (Qle_bool b a).

Definition is_reddit (it : Item) : bool := String.eqb (source it) "reddit".
Definition is_news (it : Item) : bool := String.eqb (source it) "news".

(** [freq[e.lower()] += 1]; a [Counter] reads an absent key as [0]. *)
Definition frequency (freq : gmap string nat) (k : string) : nat :=
  default 0%nat (freq !! k).

Definition count_entity (freq : gmap string nat) (e : string) : gmap string nat :=
  <[lower e := S (frequency freq (lower e))]> freq.

Definition count_item (twelve_ms : Z) (freq : gmap string nat) (it : Item)
  : gmap string nat :=
  if (ts it >=? twelve_ms)%Z then fold_left count_entity (entities it) freq else freq.

Definition build_freq (twelve_ms : Z) (items : list Item) : gmap string nat :=
  fold_left (count_item twelve_ms) items ∅.

(** [max(freq.values(), default=1)] *)
Definition max_frequency (freq : gmap string nat) : nat :=
  match (map_to_list freq).*2 with
  | [] => 1%nat
  | vs => max_list vs
  end.

Definition entity_velocity (freq : gmap string nat) (ents : list string) : Q :=
  match ents with
  | [] => 0
  | _ =>
      let v := fold_left (fun v e => (v + frequency freq (lower e))%nat) ents 0%nat in
      inject_Z (Z.of_nat v) / inject_Z (Z.of_nat (max_frequency freq))
  end.

Definition folded (ents : list string) : gset string := list_to_set (lower <$> ents).

Definition cross_source (items : list Item) (ents : list string) : Z :=
  match ents with
  | [] => 0%Z
  | _ =>
      let s := folded ents in
      let shares (i : Item) := bool_decide (s ∩ folded (entities i) ≠ ∅) in
      let has_r := existsb (fun i => (is_reddit i && shares i)%bool) items in
      let has_n := existsb (fun i => (is_news i && shares i)%bool) items in
      if (has_r && has_n)%bool then 1%Z else 0%Z
  end.

Definition trend_signal (trend_slopes : gmap string Q) (ents : list string) : Q :=
  let joined := lower (join " " ents) in
  let val :=
    fold_left (fun val core =>
                 if contains (lower core) joined
                 then Qmax val (default 0 (trend_slopes !! core))
                 else val)
              SPORT_TERMS 0 in
  Qmax 0 (Qmin 1 ((val + 1) / 2)).

(** Line 168. *)
Definition composite (r_up r_com fresh vel : Q) (cross : Z) (trend : Q) : Q :=
  (30 # 100) * r_up + (20 # 100) * r_com + (15 # 100) * fresh
  + (20 # 100) * vel + (10 # 100) * inject_Z cross + (5 # 100) * trend.

(** The identity key of line 175. *)
Definition key (it : Scored) : string :=
  if String.eqb (url (base it)) "" then lower (title (base it)) else url (base it).

Fixpoint seen_get (k : string) (seen : list (string * Scored)) : option Scored :=
  match seen with
  | [] => None
  | (k', v) :: rest => if String.eqb k' k then Some v else seen_get k rest
  end.

(** [seen[k] = it]: a key already present keeps its place. *)
Fixpoint seen_set (k : string) (it : Scored) (seen : list (string * Scored))
  : list (string * Scored) :=
  match seen with
  | [] => [(k, it)]
  | (k', v) :: rest =>
      if String.eqb k' k then (k', it) :: rest else (k', v) :: seen_set k it rest
  end.

Definition dedupe_step (seen : list (string * Scored)) (it : Scored)
  : list (string * Scored) :=
  match seen_get (key it) seen with
  | None => seen_set (key it) it seen
  | Some v =>
      if Qlt_bool (ViralityScore v) (ViralityScore it)
      then seen_set (key it) it seen
      else seen
  end.

(** Lines 173-177, then [seen.values()]. *)
Definition dedupe (out : list Scored) : list Scored :=
  (fold_left dedupe_step out []).*2.

(** [sorted(l, key=ViralityScore, reverse=True)]: a stable sort, items of
    equal score keep their order. *)
Fixpoint insert_desc (x : Scored) (l : list Scored) : list Scored :=
  match l with
  | [] => [x]
  | y :: l' =>
      if Qlt_bool (ViralityScore x) (ViralityScore y) then y :: insert_desc x l'
      else x :: l
  end.

Definition sorted_desc (l : list Scored) : list Scored := fold_right insert_desc [] l.

(** Lines 172-178. *)
Definition rank (out : list Scored) : list Scored := sorted_desc (dedupe out).

Section Scoring.
Variable env : Env.

(** The body of the loop of lines 160-171. *)
Definition score_one (items : list Item) (min_up max_up min_com max_com : Z)
    (freq : gmap string nat) (trend_slopes : gmap string Q) (it : Item) : M Scored :=
  let r_up := if is_reddit it
              then normalize (inject_Z (ups it)) (inject_Z min_up) (inject_Z max_up)
              else 0 in
  let r_com := if is_reddit it
               then normalize (inject_Z (comments it)) (inject_Z min_com) (inject_Z max_com)
               else 0 in
  (h <- hours_ago env (ts it) ;;
   let fresh := Qmax 0 (1 - h / 24) in
   let vel := entity_velocity freq (entities it) in
   let cross := cross_source items (entities it) in
   let trend := if USE_TRENDS env then trend_signal trend_slopes (entities it) else 0 in
   let score := composite r_up r_com fresh vel cross trend in
   ret {| base := it; R_up := r_up; R_com := r_com; Fresh := fresh; NewsVel := vel;
          Cross := cross; TrendSlope := trend; ViralityScore := round4 score |})%M.

Definition score_items (items : list Item) : M (list Scored) :=
  let r := List.filter is_reddit items in
  let min_up := min_default 0 (List.map ups r) in
  let max_up := max_default 1 (List.map ups r) in
  let min_com := min_default 0 (List.map comments r) in
  let max_com := max_default 1 (List.map comments r) in
  (now <- now_ms env ;;
   let twelve_ms := (now - 12 * 3600 * 1000)%Z in
   let freq := build_freq twelve_ms items in
   trend_slopes <- get_trend_slopes env SPORT_TERMS ;;
   out <- mapM (score_one items min_up max_up min_com max_com freq trend_slopes) items ;;
   ret (rank out))%M.

(** ** The promotional phrase *)

Definition verbs : list string :=
  ["exposed"; "changes"; "breaks"; "proves"; "ends"; "reveals"; "stuns"; "shocks";
   "explodes"; "erases"]%string.

Definition suggest_hook (title : string) : string :=
  let words := findall_words title in
  let subject := match words with
                 | [] => "This"%string
                 | _ => join " " (firstn 5 words)
                 end in
  let verb := nth (Z.to_nat (str_hash env title mod Z.of_nat (length verbs))) verbs ""%string in
  String.append subject
    (String.append " " (String.append verb " everything you thought.")).

End Scoring.

(** ** Sample batches *)

Definition now0 : Z := 1700000000000.

Definition env_off : Env :=
  {| clock := fun _ => now0; USE_TRENDS := false; trend_client := false;
     trend_series := fun _ => FetchRaises; nlp := fun _ => [];
     str_hash := fun _ => 0%Z |}.

Definition env_on : Env :=
  {| clock := fun n => (now0 + Z.of_nat n)%Z; USE_TRENDS := true; trend_client := true;
     trend_series := fun t =>
       if String.eqb t "NFL" then FetchRaises
       else if String.eqb t "NBA" then FetchSeries [10; 20; 60]
       else if String.eqb t "UFC" then FetchSeries [5; 6]
       else FetchSeries [];
     nlp := fun _ => [{| label_ := "ORG"; text := " Patriots" |};
                      {| label_ := "CARDINAL"; text := "12" |}];
     str_hash := fun _ => 7%Z |}.

Definition w0 : World := {| ticks := 0; calls := [] |}.

Definition post_ufc : Item :=
  {| source := "reddit"; title := "UFC 300 card announced";
     url := "https://reddit.com/r/MMA/1"; ts := (now0 - 3600000)%Z;
     ups := 100; comments := 50; entities := ["UFC"]%string |}.

Definition news_ufc : Item :=
  {| source := "news"; title := "Ufc schedule"; url := "https://example.org/ufc";
     ts := (now0 - 86400000)%Z; ups := 0; comments := 0; entities := ["Ufc"]%string |}.

Definition scored (it : Item) (v : Q) : Scored :=
  {| base := it; R_up := 0; R_com := 0; Fresh := 0; NewsVel := 0; Cross := 0;
     TrendSlope := 0; ViralityScore := v |}.

Definition wide_item : Item :=
  {| source := "news"; title := "NFL NBA UFC MLB NHL WWE roundup"; url := "https://example.org/roundup";
     ts := now0; ups := 0; comments := 0;
     entities := ["NFL"; "NBA"; "UFC"; "MLB"; "NHL"; "WWE"]%string |}.

(** An item without url, as a post whose permalink and site prefix are gone. *)
Definition linkless (t : string) : Item :=
  {| source := "news"; title := t; url := ""; ts := now0; ups := 0; comments := 0;
     entities := [] |}.

(** ** Notions used by the statements *)

(** [o] is, among the items of [out] with its key, the first one of highest
    score: those before it score strictly less, those after it at most as
    much. *)
Definition first_best (out : list Scored) (o : Scored) : Prop :=
  exists l1 l2, out = l1 ++ o :: l2 /\
    (forall y, y ∈ l1 -> key y = key o -> ViralityScore y < ViralityScore o) /\
    (forall y, y ∈ l2 -> key y = key o -> ViralityScore y <= ViralityScore o).

Definition score_ge (a b : Scored) : Prop := ViralityScore b <= ViralityScore a.

(** What the loop of lines 174-177 maintains after the items [out]. *)
Definition seen_inv (out : list Scored) (seen : list (string * Scored)) : Prop :=
  NoDup seen.*1 /\
  (forall k v, (k, v) ∈ seen -> key v = k /\ first_best out v) /\
  (forall x, x ∈ out -> key x ∈ seen.*1).

(** [e] folds to [k]. *)
Definition has_key (k : string) (e : string) : bool := String.eqb (lower e) k.

Definition occurrences (k : string) (ents : list string) : nat :=
  length (List.filter (has_key k) ents).

(** How often entities folding to [k] occur in the items stamped
    [twelve_ms] or later. *)
Definition window_frequency (twelve_ms : Z) (items : list Item) (k : string) : nat :=
  sum_list ((fun it => if (ts it >=? twelve_ms)%Z then occurrences k (entities it) else 0%nat)
              <$> items).

(** The item [i] has an entity that folds to the same string as one of
    [ents]. *)
Definition shares (ents : list string) (i : Item) : Prop :=
  exists e e', e ∈ ents /\ e' ∈ entities i /\ lower e = lower e'.

(** Every count stored in the [Counter] is positive. *)
Definition counted (freq : gmap string nat) : Prop :=
  forall k v, freq !! k = Some v -> (1 <= v)%nat.

(** The two parts of the phrase built by [suggest_hook]. *)
Definition subject_of (title : string) : string :=
  match findall_words title with
  | [] => "This"%string
  | ws => join " " (firstn 5 ws)
  end.

Definition phrase (subject verb : string) : string :=
  String.append subject (String.append " " (String.append verb " everything you thought.")).

(** The slope stored for [term] by one pass of the loop of lines 94-107. *)
Definition term_slope (env : Env) (term : string) : Q :=
  match trend_series env term with
  | FetchRaises => 0
  | FetchSeries y => slope_of y
  end.

(** The table after the loop has gone through [terms]. *)
Definition slopes_of (env : Env) (terms : list string) (slopes : gmap string Q) : gmap string Q :=
  fold_left (fun m t => <[t := term_slope env t]> m) terms slopes.

(** The ranges of the components written by lines 161-170. *)
Definition in_range (s : Scored) : Prop :=
  0 <= R_up s <= 1 /\ 0 <= R_com s <= 1 /\ 0 <= Fresh s /\ 0 <= NewsVel s /\
  (Cross s = 0%Z \/ Cross s = 1%Z) /\ 0 <= TrendSlope s <= 1 /\
  ViralityScore s =
    round4 (composite (R_up s) (R_com s) (Fresh s) (NewsVel s) (Cross s) (TrendSlope s)).

(** ** Fetching and the pipeline of [main] *)

(** One element of [data["data"]["children"]]: the dictionary [c["data"]]
    with the keys read by [fetch_reddit_top_day], each possibly absent. *)
Record RedditChild := {
  c_title : option string;
  c_permalink : option string;
  c_created_utc : option Q;
  c_ups : option Z;
  c_num_comments : option Z
}.

(** The dictionary appended by [fetch_reddit_top_day]: the keys of [Item] and
    the key [subreddit], which nothing in the scoring reads. *)
Record RedditItem := { subreddit : string; post : Item }.

(** One element of [feed.entries]: [e.title], [e.link] (absent attributes
    raise) and the value of [int(time.mktime(...))] for [published_parsed]
    and [updated_parsed] when the attribute is there and not empty. *)
Record Entry := {
  e_title : option string;
  e_link : option string;
  e_published : option Z;
  e_updated : option Z
}.

(** What the network answers: for a subreddit, an exception of
    [requests.get], [raise_for_status] or [r.json()], or the list of
    children, a child without the key [data] being [None]; for a feed, the
    entries parsed by [feedparser]. *)
Record Feeds := {
  reddit_top : string -> option (list (option RedditChild));
  feed_entries : string -> list Entry
}.

Definition SUBS : list string := ["nfl"; "nba"; "soccer"; "boxing"; "MMA"]%string.

Definition NEWS_FEEDS : list string :=
  ["https://news.google.com/rss/search?q=site:espn.com+OR+site:espn.go.com&hl=en-US&gl=US&ceid=US:en";
   "https://news.google.com/rss/search?q=site:bleacherreport.com&hl=en-US&gl=US&ceid=US:en"]%string.

(** [int(x)] on a float: truncation towards zero. *)
Definition int_of (x : Q) : Z := Z.quot (Qnum x) (Zpos (Qden x)).

Definition raise {A} : M A := fun w => (Raised, w).

(** Reading a key or an attribute that may be absent. *)
Definition attr {A} (o : option A) : M A :=
  match o with
  | Some a => ret a
  | None => raise
  end.

(** [[x for x in l if f(x)]] with an effectful test. *)
Fixpoint filterM {A} (f : A -> M bool) (l : list A) : M (list A) :=
  match l with
  | [] => ret []
  | x :: l' =>
      (b <- f x ;; ys <- filterM f l' ;; ret (if b then x :: ys else ys))%M
  end.

(** [acc = []; for x in l: acc += f(x)] *)
Fixpoint concatM {A B} (f : A -> M (list B)) (l : list A) : M (list B) :=
  match l with
  | [] => ret []
  | x :: l' => (ys <- f x ;; zs <- concatM f l' ;; ret (ys ++ zs))%M
  end.

Section Fetching.
Variable env : Env.
Variable feeds : Feeds.

(** [int(time.time())]: the clock counts milliseconds. *)
Definition time_s : M Z :=
  fun w => (Ok (Z.quot (clock env (ticks w)) 1000),
            {| ticks := S (ticks w); calls := calls w |}).

(** The dictionary of lines 33-41; the default of [created_utc] is
    evaluated whether the key is there or not. *)
Definition reddit_post (sub : string) (c : option RedditChild) : M RedditItem :=
  (d <- attr c ;;
   now <- time_s ;;
   ret {| subreddit := sub;
          post := {| source := "reddit";
                     title := strip (default ""%string (c_title d));
                     url := String.append "https://reddit.com"
                              (default ""%string (c_permalink d));
                     ts := (match c_created_utc d with
                            | Some t => int_of t
                            | None => now
                            end * 1000)%Z;
                     ups := default 0%Z (c_ups d);
                     comments := default 0%Z (c_num_comments d);
                     entities := [] |} |})%M.

Definition fetch_reddit_top_day (sub : string) : M (list RedditItem) :=
  (children <- attr (reddit_top feeds sub) ;; mapM (reddit_post sub) children)%M.

(** Lines 48-52: the first of the two dates that is there. *)
Definition entry_ts (e : Entry) : option Z :=
  match e_published e with
  | Some t => Some t
  | None => e_updated e
  end.

(** Lines 48-61: [ts or int(time.time())] reads the clock only when [ts] is
    [None] or [0]. *)
Definition news_item (e : Entry) : M Item :=
  (t <- match entry_ts e with
        | Some t => if (t =? 0)%Z then time_s else ret t
        | None => time_s
        end ;;
   ttl <- attr (e_title e) ;;
   link <- attr (e_link e) ;;
   ret {| source := "news"; title := strip ttl; url := link; ts := (t * 1000)%Z;
          ups := 0; comments := 0; entities := [] |})%M.

(** The test of line 63. *)
Definition recent (i : Item) : M bool :=
  (h <- hours_ago env (ts i) ;; ret (Qle_bool h 24))%M.

Definition fetch_news (feed_url : string) : M (list Item) :=
  (items <- mapM news_item (feed_entries feeds feed_url) ;; filterM recent items)%M.

(** Line 198. *)
Definition attach_entities (it : Item) : Item :=
  {| source := source it; title := title it; url := url it; ts := ts it;
     ups := ups it; comments := comments it;
     entities := extract_entities env (title it) |}.

(** The items of one subreddit as [main] keeps them. *)
Definition reddit_items (sub : string) : M (list Item) :=
  (xs <- fetch_reddit_top_day sub ;; ret (List.map post xs))%M.

(** Lines 189-195. *)
Definition gather : M (list Item) :=
  (posts <- concatM reddit_items SUBS ;;
   news <- concatM fetch_news NEWS_FEEDS ;;
   ret (posts ++ news))%M.

(** Lines 189-199 of [main]: the value of [ranked]. *)
Definition main_ranked : M (list Scored) :=
  (all_items <- gather ;; score_items env (List.map attach_entities all_items))%M.

End Fetching.

(** The characters of a word of [suggest_hook]. *)
Definition word_char (c : ascii) : bool :=
  (is_upper c || is_lower c || is_digit c || Ascii.eqb c "'")%bool.

(** ** Items as dictionaries in a store *)

(** [score_items] works on references to dictionaries and writes into them.
    Here an item is a location of a store of dictionaries; a key that is
    present holds a value of the type the fetchers give it (a read at
    another type raises). *)
Inductive value :=
| VStr (s : string)
| VInt (n : Z)
| VNum (q : Q)
| VList (l : list string).

Abbreviation dict := (gmap string value).
Abbreviation heap := (gmap nat dict).

(** Computations that read and write the store besides the world; after an
    exception the writes made so far remain. *)
Definition HM (A : Type) : Type := heap -> World -> Result A * heap * World.

Definition retH {A} (a : A) : HM A := fun h w => (Ok a, h, w).

Definition raiseH {A} : HM A := fun h w => (Raised, h, w).

Definition bindH {A B} (m : HM A) (k : A -> HM B) : HM B :=
  fun h w => match m h w with
             | (Ok a, h', w') => k a h' w'
             | (Raised, h', w') => (Raised, h', w')
             end.

Definition liftH {A} (m : M A) : HM A :=
  fun h w => match m w with (r, w') => (r, h, w') end.

Declare Scope h_scope.
Delimit Scope h_scope with H.
Notation "x <- c ;; k" := (bindH c (fun x => k))
  (at level 100, c at next level, right associativity) : h_scope.

(** [[f(x) for x in l]] and [for x in l: ...] *)
Fixpoint forH {A B} (f : A -> HM B) (l : list A) : HM (list B) :=
  match l with
  | [] => retH []
  | x :: l' => (y <- f x ;; ys <- forH f l' ;; retH (y :: ys))%H
  end.

(** [[x for x in l if f(x)]] *)
Fixpoint filterH {A} (f : A -> HM bool) (l : list A) : HM (list A) :=
  match l with
  | [] => retH []
  | x :: l' => (b <- f x ;; ys <- filterH f l' ;; retH (if b then x :: ys else ys))%H
  end.

(** A loop that updates a local variable. *)
Fixpoint foldH {A S} (f : S -> A -> HM S) (l : list A) (s : S) : HM S :=
  match l with
  | [] => retH s
  | x :: l' => (s' <- f s x ;; foldH f l' s')%H
  end.

(** [any(x for x in l if f(x))]: stops at the first hit. *)
Fixpoint anyH {A} (f : A -> HM bool) (l : list A) : HM bool :=
  match l with
  | [] => retH false
  | x :: l' => (b <- f x ;; if b then retH true else anyH f l')%H
  end.

Definition deref (l : nat) : HM dict :=
  fun h w => (match h !! l with Some d => Ok d | None => Raised end, h, w).

(** [it[k]] for a string, an integer and a float. *)
Definition item_str (l : nat) (k : string) : HM string :=
  (d <- deref l ;; match d !! k with Some (VStr s) => retH s | _ => raiseH end)%H.

Definition item_int (l : nat) (k : string) : HM Z :=
  (d <- deref l ;; match d !! k with Some (VInt n) => retH n | _ => raiseH end)%H.

Definition item_num (l : nat) (k : string) : HM Q :=
  (d <- deref l ;; match d !! k with Some (VNum q) => retH q | _ => raiseH end)%H.

(** [it.get("entities", [])] *)
Definition item_entities (l : nat) : HM (list string) :=
  (d <- deref l ;;
   match d !! "entities"%string with
   | None => retH []
   | Some (VList es) => retH es
   | Some _ => raiseH
   end)%H.

(** [it[k] = v] *)
Definition item_set (l : nat) (k : string) (v : value) : HM unit :=
  fun h w => match h !! l with
             | Some d => (Ok tt, <[l := <[k := v]> d]> h, w)
             | None => (Raised, h, w)
             end.

(** [it["source"] == tag] *)
Definition is_source (tag : string) (l : nat) : HM bool :=
  (s <- item_str l "source" ;; retH (String.eqb s tag))%H.

(** Lines 128-130 for one item. *)
Definition count_loc (twelve_ms : Z) (freq : gmap string nat) (l : nat)
  : HM (gmap string nat) :=
  (t <- item_int l "ts" ;;
   if (t >=? twelve_ms)%Z
   then (es <- item_entities l ;; retH (fold_left count_entity es freq))
   else retH freq)%H.

(** The condition of the generators of lines 144 and 145. *)
Definition shares_h (tag : string) (s : gset string) (l : nat) : HM bool :=
  (b <- is_source tag l ;;
   if b then (es <- item_entities l ;; retH (bool_decide (s ∩ folded es ≠ ∅)))
   else retH false)%H.

Definition cross_source_h (items : list nat) (ents : list string) : HM Z :=
  match ents with
  | [] => retH 0%Z
  | _ =>
      let s := folded ents in
      (has_r <- anyH (shares_h "reddit" s) items ;;
       has_n <- anyH (shares_h "news" s) items ;;
       retH (if (has_r && has_n)%bool then 1%Z else 0%Z))%H
  end.

Definition score_keys : list string :=
  ["R_up"; "R_com"; "Fresh"; "NewsVel"; "Cross"; "TrendSlope"; "ViralityScore"]%string.

Definition seen_get_h (k : string) (seen : list (string * nat)) : option nat :=
  snd <$> List.find (fun p => String.eqb (fst p) k) seen.

Fixpoint seen_set_h (k : string) (l : nat) (seen : list (string * nat))
  : list (string * nat) :=
  match seen with
  | [] => [(k, l)]
  | (k', v) :: rest =>
      if String.eqb k' k then (k', l) :: rest else (k', v) :: seen_set_h k l rest
  end.

(** Line 175. *)
Definition key_h (l : nat) : HM string :=
  (u <- item_str l "url" ;;
   if String.eqb u "" then (t <- item_str l "title" ;; retH (lower t)) else retH u)%H.

(** Lines 175-177 for one item. *)
Definition dedupe_step_h (seen : list (string * nat)) (l : nat)
  : HM (list (string * nat)) :=
  (k <- key_h l ;;
   match seen_get_h k seen with
   | None => retH (seen_set_h k l seen)
   | Some v =>
       s <- item_num l "ViralityScore" ;;
       sv <- item_num v "ViralityScore" ;;
       if Qlt_bool sv s then retH (seen_set_h k l seen) else retH seen
   end)%H.

Fixpoint insert_desc_h (x : Q * nat) (l : list (Q * nat)) : list (Q * nat) :=
  match l with
  | [] => [x]
  | y :: l' => if Qlt_bool (fst x) (fst y) then y :: insert_desc_h x l' else x :: l
  end.

(** Line 178: the scores are read once per item, then the items are sorted
    by them, those of equal score keeping their order. *)
Definition sorted_h (ls : list nat) : HM (list nat) :=
  (keyed <- forH (fun l => s <- item_num l "ViralityScore" ;; retH (s, l)) ls ;;
   retH (fold_right insert_desc_h [] keyed).*2)%H.

Section StoreScoring.
Variable env : Env.

(** The body of the loop of lines 160-171 on the item at [l]. *)
Definition score_loc (items : list nat) (min_up max_up min_com max_com : Z)
    (freq : gmap string nat) (trend_slopes : gmap string Q) (l : nat) : HM nat :=
  (b_up <- is_source "reddit" l ;;
   r_up <- (if b_up : bool
            then (u <- item_int l "ups" ;;
                  retH (normalize (inject_Z u) (inject_Z min_up) (inject_Z max_up)))
            else retH 0) ;;
   b_com <- is_source "reddit" l ;;
   r_com <- (if b_com : bool
             then (c <- item_int l "comments" ;;
                   retH (normalize (inject_Z c) (inject_Z min_com) (inject_Z max_com)))
             else retH 0) ;;
   t <- item_int l "ts" ;;
   h <- liftH (hours_ago env t) ;;
   let fresh := Qmax 0 (1 - h / 24) in
   es_vel <- item_entities l ;;
   let vel := entity_velocity freq es_vel in
   es_cross <- item_entities l ;;
   cross <- cross_source_h items es_cross ;;
   trend <- (if USE_TRENDS env
             then (es_trend <- item_entities l ;; retH (trend_signal trend_slopes es_trend))
             else retH 0) ;;
   let score := composite r_up r_com fresh vel cross trend in
   _ <- item_set l "R_up" (VNum r_up) ;;
   _ <- item_set l "R_com" (VNum r_com) ;;
   _ <- item_set l "Fresh" (VNum fresh) ;;
   _ <- item_set l "NewsVel" (VNum vel) ;;
   _ <- item_set l "Cross" (VInt cross) ;;
   _ <- item_set l "TrendSlope" (VNum trend) ;;
   _ <- item_set l "ViralityScore" (VNum (round4 score)) ;;
   retH l)%H.

(** [score_items] on the list [items] of references. *)
Definition score_items_h (items : list nat) : HM (list nat) :=
  (r <- filterH (is_source "reddit") items ;;
   ups_min <- forH (fun x => item_int x "ups") r ;;
   ups_max <- forH (fun x => item_int x "ups") r ;;
   coms_min <- forH (fun x => item_int x "comments") r ;;
   coms_max <- forH (fun x => item_int x "comments") r ;;
   let min_up := min_default 0 ups_min in
   let max_up := max_default 1 ups_max in
   let min_com := min_default 0 coms_min in
   let max_com := max_default 1 coms_max in
   now <- liftH (now_ms env) ;;
   let twelve_ms := (now - 12 * 3600 * 1000)%Z in
   freq <- foldH (count_loc twelve_ms) items ∅ ;;
   trend_slopes <- liftH (get_trend_slopes env SPORT_TERMS) ;;
   out <- forH (score_loc items min_up max_up min_com max_com freq trend_slopes) items ;;
   seen <- foldH dedupe_step_h out [] ;;
   sorted_h seen.*2)%H.

End StoreScoring.

(** The value of the key [k] of the dictionary at [l], if both are there. *)
Definition field (h : heap) (l : nat) (k : string) : option value :=
  match h !! l with
  | Some d => d !! k
  | None => None
  end.

(** What a run may do to the store when [items] is the batch: no dictionary
    appears or disappears, dictionaries outside the batch are untouched, keys
    other than the score keys keep their value or absence, and no key
    disappears. *)
Definition frames (items : list nat) (h h' : heap) : Prop :=
  dom h' = dom h /\
  (forall l, l ∉ items -> h' !! l = h !! l) /\
  (forall l k, k ∉ score_keys -> field h' l k = field h l k) /\
  (forall l k, is_Some (field h l k) -> is_Some (field h' l k)).

Definition framed {A} (items : list nat) (m : HM A) : Prop :=
  forall h w r h' w', m h w = (r, h', w') -> frames items h h'.

(** A dictionary as the fetchers and [main] leave it: the six keys of both
    fetchers at their types, and entities absent or a list. *)
Definition well_formed (h : heap) (l : nat) : Prop :=
  (exists s, field h l "source" = Some (VStr s)) /\
  (exists s, field h l "title" = Some (VStr s)) /\
  (exists s, field h l "url" = Some (VStr s)) /\
  (exists n, field h l "ts" = Some (VInt n)) /\
  (exists n, field h l "ups" = Some (VInt n)) /\
  (exists n, field h l "comments" = Some (VInt n)) /\
  (field h l "entities" = None \/ exists es, field h l "entities" = Some (VList es)).

(** The dictionary at [l] holds a number as its composite score. *)
Definition scored_at (h : heap) (l : nat) : Prop :=
  exists q, field h l "ViralityScore" = Some (VNum q).

(** [m] returns from [h] and [w], with a result, store and world in [Q]. *)
Definition yields {A} (m : HM A) (h : heap) (w : World)
    (Q : A -> heap -> World -> Prop) : Prop :=
  exists a h' w', m h w = (Ok a, h', w') /\ Q a h' w'.

(** [m] returns from [h] whatever the world, with a result in [Q], and
    leaves [h] as it is. *)
Definition reads {A} (m : HM A) (h : heap) (Q : A -> Prop) : Prop :=
  forall w, yields m h w (fun a h' _ => h' = h /\ Q a).

(** The store between two writes of the loop body on [l], [h0] being the
    store the body started from. *)
Definition during (items : list nat) (h0 : heap) (l : nat) (h : heap) : Prop :=
  is_Some (h !! l) /\
  (forall x, x ∈ items -> well_formed h x) /\
  (forall x, scored_at h0 x -> scored_at h x).

(** ** Sample feeds *)

Local Open Scope string_scope.

Definition child_ufc : RedditChild :=
  {| c_title := Some "  UFC 300 card announced "; c_permalink := Some "/r/MMA/1";
     c_created_utc := Some (1699996400 # 1); c_ups := Some 100%Z; c_num_comments := None |}.

Definition child_nba : RedditChild :=
  {| c_title := Some "NBA trade rumours"; c_permalink := Some "/r/nba/2";
     c_created_utc := None; c_ups := Some 40%Z; c_num_comments := Some 7%Z |}.

Definition entry_ufc : Entry :=
  {| e_title := Some "UFC schedule announced "; e_link := Some "https://example.org/ufc";
     e_published := Some 1699999000%Z; e_updated := None |}.

Definition entry_old : Entry :=
  {| e_title := Some "Old story"; e_link := Some "https://example.org/old";
     e_published := None; e_updated := Some 1699000000%Z |}.

Definition entry_broken : Entry :=
  {| e_title := None; e_link := Some "https://example.org/x";
     e_published := None; e_updated := None |}.

Definition feeds_ok : Feeds :=
  {| reddit_top := fun sub =>
       if String.eqb sub "MMA" then Some [Some child_ufc]
       else if String.eqb sub "nba" then Some [Some child_nba]
       else Some [];
     feed_entries := fun u =>
       if String.eqb u "https://news.google.com/rss/search?q=site:bleacherreport.com&hl=en-US&gl=US&ceid=US:en"
       then [entry_ufc; entry_old] else [] |}.

Definition feeds_down : Feeds :=
  {| reddit_top := fun sub => if String.eqb sub "soccer" then None else Some [];
     feed_entries := fun _ => [entry_broken] |}.

Definition env_broken : Env :=
  {| clock := fun _ => now0; USE_TRENDS := true; trend_client := false;
     trend_series := fun _ => FetchSeries []; nlp := fun _ => [];
     str_hash := fun _ => (-3)%Z |}.

Definition post_nba : Item :=
  {| source := "reddit"; title := "NBA trade rumours";
     url := "https://reddit.com/r/nba/2"; ts := (now0 - 7200000)%Z;
     ups := 40; comments := 70; entities := ["NBA"] |}.

Local Close Scope string_scope.

(** ** A sample store *)

Local Open Scope string_scope.

(** The dictionary the fetchers and [main] build for an item. *)
Definition dict_of (it : Item) : dict :=
  {[ "source" := VStr (source it); "title" := VStr (title it); "url" := VStr (url it);
     "ts" := VInt (ts it); "ups" := VInt (ups it); "comments" := VInt (comments it);
     "entities" := VList (entities it) ]}.

(** A store of four dictionaries: a post with one more key, an article, a
    second dictionary for the same post, and one that no batch below names. *)
Definition heap0 : heap :=
  {[ 0%nat := <["subreddit" := VStr "MMA"]> (dict_of post_ufc);
     1%nat := dict_of news_ufc;
     2%nat := dict_of post_ufc;
     5%nat := dict_of wide_item ]}.

Local Close Scope string_scope.

(** * Properties *)

Lemma clamp01 (x : Q) : 0 <= Qmax 0 (Qmin 1 x) <= 1.
Proof.
  split; [apply Q.le_max_l|].
  apply Q.max_lub; [lra|apply Q.le_min_l].
Qed.

Lemma normalize_range (v lo hi : Q) : 0 <= normalize v lo hi <= 1.
Proof.
  unfold normalize. destruct (Qeq_bool hi lo); [lra|apply clamp01].
Qed.

(** C5. [normalize v lo hi] is [0] whenever [lo == hi], whatever [v] is;
    otherwise it is the min-max scaling [(v - lo) / (hi - lo)] clamped into
    [[0,1]]; in both cases the result lies in [[0,1]]. *)
Theorem normalize_spec (v lo hi : Q) :
  (lo == hi -> normalize v lo hi == 0) /\
  (~ lo == hi -> normalize v lo hi == Qmax 0 (Qmin 1 ((v - lo) / (hi - lo)))) /\
  0 <= normalize v lo hi <= 1.
Proof.
  split; [|split].
  - intros E. unfold normalize.
    assert (Qeq_bool hi lo = true) as -> by (apply Qeq_bool_iff; lra). reflexivity.
  - intros NE. unfold normalize.
    destruct (Qeq_bool hi lo) eqn:B; [|reflexivity].
    apply Qeq_bool_iff in B. exfalso; apply NE; lra.
  - apply normalize_range.
Qed.

(** ** Deduplication and ranking *)

Lemma Qlt_bool_iff (a b : Q) : Qlt_bool a b = true <-> a < b.
Proof.
  unfold Qlt_bool. rewrite negb_true_iff. split.
  - intros H. apply Qnot_le_lt. intros L. apply Qle_bool_iff in L. congruence.
  - intros H. destruct (Qle_bool b a) eqn:E; [|reflexivity].
    apply Qle_bool_iff in E. lra.
Qed.

Lemma Qlt_bool_false (a b : Q) : Qlt_bool a b = false <-> b <= a.
Proof.
  unfold Qlt_bool. rewrite negb_false_iff. apply Qle_bool_iff.
Qed.

Lemma seen_get_None k seen : seen_get k seen = None <-> k ∉ seen.*1.
Proof.
  induction seen as [|[k' v] rest IH]; simpl.
  - split; [intros _; apply not_elem_of_nil|done].
  - destruct (String.eqb_spec k' k) as [->|NE].
    + split; [done|]. intros H. exfalso. apply H. left.
    + rewrite IH, not_elem_of_cons. split; [by intros ?; split|by intros [_ ?]].
Qed.

Lemma seen_get_Some k v seen : seen_get k seen = Some v -> (k, v) ∈ seen.
Proof.
  induction seen as [|[k' v'] rest IH]; simpl; [done|].
  destruct (String.eqb_spec k' k) as [->|NE].
  - intros [= ->]. left.
  - intros H. right. auto.
Qed.

Lemma seen_set_fresh k it seen : k ∉ seen.*1 -> seen_set k it seen = seen ++ [(k, it)].
Proof.
  induction seen as [|[k' v'] rest IH]; simpl; [done|].
  rewrite not_elem_of_cons. intros [NE H].
  destruct (String.eqb_spec k' k) as [->|_]; [done|]. by rewrite IH.
Qed.

Lemma seen_set_keys k it seen : k ∈ seen.*1 -> (seen_set k it seen).*1 = seen.*1.
Proof.
  induction seen as [|[k' v'] rest IH]; simpl.
  - intros H. by apply elem_of_nil in H.
  - destruct (String.eqb_spec k' k) as [->|NE]; [done|].
    rewrite elem_of_cons. intros [->|H]; [done|]. rewrite !fmap_cons. f_equal. by apply IH.
Qed.

Lemma seen_set_elem k it seen k' v' :
  NoDup seen.*1 ->
  (k', v') ∈ seen_set k it seen -> (k' = k ∧ v' = it) ∨ (k' ≠ k ∧ (k', v') ∈ seen).
Proof.
  induction seen as [|[k0 v0] rest IH]; simpl.
  - intros _ H. apply list_elem_of_singleton in H. naive_solver.
  - rewrite NoDup_cons. intros [Hk0 ND].
    destruct (String.eqb_spec k0 k) as [->|NE].
    + rewrite elem_of_cons. intros [[= -> ->]|H]; [by left|].
      right. split; [|by right].
      intros ->. apply Hk0. apply list_elem_of_fmap. by exists (k, v').
    + rewrite elem_of_cons. intros [[= -> ->]|H].
      * right. split; [done|left].
      * destruct (IH ND H) as [?|[? ?]]; [by left|]. right. split; [done|by right].
Qed.

Lemma seen_get_elem k v seen : NoDup seen.*1 -> (k, v) ∈ seen -> seen_get k seen = Some v.
Proof.
  induction seen as [|[k0 v0] rest IH]; simpl.
  - intros _ H. by apply elem_of_nil in H.
  - rewrite NoDup_cons, elem_of_cons. intros [Hk0 ND] [[= <- <-]|H].
    + by rewrite String.eqb_refl.
    + destruct (String.eqb_spec k0 k) as [->|_]; [|auto].
      exfalso. apply Hk0. apply list_elem_of_fmap. by exists (k, v).
Qed.

Lemma first_best_snoc out o x :
  first_best out o -> (key x = key o -> ViralityScore x <= ViralityScore o) ->
  first_best (out ++ [x]) o.
Proof.
  intros (l1 & l2 & -> & H1 & H2) Hx.
  exists l1, (l2 ++ [x]). split; [by rewrite <- app_assoc|]. split; [done|].
  intros y Hy. apply elem_of_app in Hy as [Hy|Hy]; [by apply H2|].
  apply list_elem_of_singleton in Hy as ->. done.
Qed.

Lemma first_best_last out x :
  (forall y, y ∈ out -> key y = key x -> ViralityScore y < ViralityScore x) ->
  first_best (out ++ [x]) x.
Proof.
  intros H. exists out, []. split; [done|]. split; [done|].
  intros y Hy. by apply elem_of_nil in Hy.
Qed.

Lemma first_best_below out v y :
  first_best out v -> y ∈ out -> key y = key v -> ViralityScore y <= ViralityScore v.
Proof.
  intros (l1 & l2 & -> & H1 & H2) Hy Hk.
  apply elem_of_app in Hy as [Hy|Hy].
  - apply Qlt_le_weak. by apply H1.
  - apply elem_of_cons in Hy as [->|Hy]; [lra|by apply H2].
Qed.

Lemma dedupe_step_inv out seen x :
  seen_inv out seen -> seen_inv (out ++ [x]) (dedupe_step seen x).
Proof.
  intros (ND & Hb & Hc). unfold dedupe_step.
  destruct (seen_get (key x) seen) as [v|] eqn:G.
  - pose proof (seen_get_Some _ _ _ G) as Hv.
    assert (key x ∈ seen.*1) as Hin.
    { apply list_elem_of_fmap. by exists (key x, v). }
    destruct (Hb _ _ Hv) as [Kv Bv].
    destruct (Qlt_bool (ViralityScore v) (ViralityScore x)) eqn:L.
    + apply Qlt_bool_iff in L. split; [|split].
      * by rewrite seen_set_keys.
      * intros k' v' H. apply (seen_set_elem _ _ _ _ _ ND) in H as [[-> ->]|[NE H]].
        -- split; [done|]. apply first_best_last. intros y Hy Ky.
           eapply Qle_lt_trans; [|exact L].
           apply (first_best_below out); [done|done|congruence].
        -- destruct (Hb _ _ H) as [K B]. split; [done|].
           apply first_best_snoc; [done|]. congruence.
      * intros y Hy. rewrite seen_set_keys by done.
        apply elem_of_app in Hy as [Hy|Hy]; [by apply Hc|].
        by apply list_elem_of_singleton in Hy as ->.
    + apply Qlt_bool_false in L. split; [done|split].
      * intros k' v' H. destruct (Hb _ _ H) as [K B]. split; [done|].
        apply first_best_snoc; [done|]. intros E.
        assert (v' = v) as ->; [|done].
        rewrite <- K, <- E in H. apply (seen_get_elem _ _ _ ND) in H. congruence.
      * intros y Hy. apply elem_of_app in Hy as [Hy|Hy]; [by apply Hc|].
        by apply list_elem_of_singleton in Hy as ->.
  - apply seen_get_None in G. rewrite seen_set_fresh by done. split; [|split].
    + rewrite fmap_app. apply NoDup_app. split; [done|]. split.
      * intros k Hk Hk'. apply list_elem_of_singleton in Hk'. simpl in Hk'. congruence.
      * apply NoDup_singleton.
    + intros k' v' H. apply elem_of_app in H as [H|H].
      * destruct (Hb _ _ H) as [K B]. split; [done|].
        apply first_best_snoc; [done|]. intros E. exfalso. apply G.
        rewrite E, K. apply list_elem_of_fmap. by exists (k', v').
      * apply list_elem_of_singleton in H as [= -> ->]. split; [done|].
        apply first_best_last. intros y Hy Ky. exfalso. apply G.
        rewrite <- Ky. by apply Hc.
    + intros y Hy. rewrite fmap_app. apply elem_of_app.
      apply elem_of_app in Hy as [Hy|Hy]; [left; by apply Hc|right].
      apply list_elem_of_singleton in Hy as ->. left.
Qed.

Lemma dedupe_loop_inv out : seen_inv out (fold_left dedupe_step out []).
Proof.
  induction out as [|x out IH] using rev_ind.
  - split; [constructor|]. split.
    + intros k v H. by apply elem_of_nil in H.
    + intros x H. by apply elem_of_nil in H.
  - rewrite fold_left_app. simpl. by apply dedupe_step_inv.
Qed.

Lemma insert_desc_perm x l : Permutation (insert_desc x l) (x :: l).
Proof.
  induction l as [|y l IH]; simpl; [done|].
  destruct (Qlt_bool (ViralityScore x) (ViralityScore y)); [|done].
  rewrite IH. apply perm_swap.
Qed.

Lemma sorted_desc_perm l : Permutation (sorted_desc l) l.
Proof.
  induction l as [|x l IH]; simpl; [done|].
  by rewrite insert_desc_perm, IH.
Qed.

Lemma insert_desc_sorted x l :
  StronglySorted score_ge l -> StronglySorted score_ge (insert_desc x l).
Proof.
  induction 1 as [|y l S IH F]; simpl.
  - repeat constructor.
  - destruct (Qlt_bool (ViralityScore x) (ViralityScore y)) eqn:L.
    + apply Qlt_bool_iff in L. constructor; [done|].
      rewrite insert_desc_perm. constructor; [|done].
      unfold score_ge. lra.
    + apply Qlt_bool_false in L. constructor; [by constructor|].
      constructor; [done|].
      eapply Forall_impl; [exact F|]. unfold score_ge. intros z Hz. lra.
Qed.

Lemma sorted_desc_sorted l : StronglySorted score_ge (sorted_desc l).
Proof.
  induction l as [|x l IH]; simpl; [constructor|by apply insert_desc_sorted].
Qed.

Lemma dedupe_spec out :
  NoDup (key <$> dedupe out) /\
  (forall x, x ∈ out -> exists o, o ∈ dedupe out /\ key o = key x) /\
  (forall o, o ∈ dedupe out -> first_best out o).
Proof.
  destruct (dedupe_loop_inv out) as (ND & Hb & Hc). unfold dedupe.
  set (seen := fold_left dedupe_step out []) in *.
  assert (key <$> seen.*2 = seen.*1) as E.
  { rewrite <- list_fmap_compose. apply list_fmap_ext.
    intros i [k v] H. simpl. apply Hb. by apply list_elem_of_lookup_2 in H. }
  split; [by rewrite E|]. split.
  - intros x Hx. apply Hc, list_elem_of_fmap in Hx as ([k v] & Ek & Hkv).
    exists v. split; [apply list_elem_of_fmap; by exists (k, v)|].
    simpl in Ek. rewrite Ek. by apply Hb.
  - intros o Ho. apply list_elem_of_fmap in Ho as ([k v] & -> & Hkv).
    by apply (Hb k).
Qed.

Lemma key_of_url (a : Scored) : url (base a) <> ""%string -> key a = url (base a).
Proof.
  intros NE. unfold key. by destruct (String.eqb_spec (url (base a)) "").
Qed.

(** C2. The identity key of an item is its url when that is not empty and
    its lower-cased title otherwise.  In the ranked list every identity key
    occurs once; every key of the scored items has a survivor; the survivor
    of a key is the first item of highest score among the items with that
    key (earlier ones score strictly less, later ones at most as much); the
    list is in descending order of score.  Two items with the same
    non-empty url and the scores 0.4 and 0.7 leave exactly the item of score
    0.7, in either order of arrival; so do two items without url whose
    titles agree up to case; two items with different keys are both kept. *)
Theorem rank_dedupes_and_sorts (out : list Scored) :
  (forall o : Scored,
      (url (base o) <> ""%string -> key o = url (base o)) /\
      (url (base o) = ""%string -> key o = lower (title (base o)))) /\
  NoDup (key <$> rank out) /\
  (forall x, x ∈ out -> exists o, o ∈ rank out /\ key o = key x) /\
  (forall o, o ∈ rank out -> first_best out o) /\
  StronglySorted score_ge (rank out) /\
  (forall a b : Scored,
      url (base a) = url (base b) -> url (base a) <> ""%string ->
      ViralityScore a == 4 # 10 -> ViralityScore b == 7 # 10 ->
      rank [a; b] = [b] /\ rank [b; a] = [b]) /\
  (forall a b : Scored,
      url (base a) = ""%string -> url (base b) = ""%string ->
      lower (title (base a)) = lower (title (base b)) ->
      ViralityScore a == 4 # 10 -> ViralityScore b == 7 # 10 ->
      rank [a; b] = [b] /\ rank [b; a] = [b]) /\
  (forall a b : Scored, key a <> key b -> rank [a; b] ≡ₚ [a; b]).
Proof.
  destruct (dedupe_spec out) as (ND & Hall & Hbest).
  pose proof (sorted_desc_perm (dedupe out)) as P. fold (rank out) in P.
  assert (forall a b : Scored,
             key a = key b -> ViralityScore a == 4 # 10 -> ViralityScore b == 7 # 10 ->
             rank [a; b] = [b] /\ rank [b; a] = [b]) as Hpair.
  { intros a b K Sa Sb.
    assert (Qlt_bool (ViralityScore a) (ViralityScore b) = true) as Lab.
    { apply Qlt_bool_iff. lra. }
    assert (Qlt_bool (ViralityScore b) (ViralityScore a) = false) as Lba.
    { apply Qlt_bool_false. lra. }
    unfold rank, dedupe, dedupe_step. simpl.
    by rewrite <- K, String.eqb_refl, Lab, Lba. }
  split; [|split; [|split; [|split; [|split; [|split; [|split]]]]]].
  - intros o. unfold key. split.
    + intros NE. by destruct (String.eqb_spec (url (base o)) "").
    + intros E. by rewrite E.
  - by rewrite P.
  - intros x Hx. destruct (Hall x Hx) as (o & Ho & K). exists o. by rewrite P.
  - intros o Ho. apply Hbest. by rewrite <- P.
  - apply sorted_desc_sorted.
  - intros a b U NE Sa Sb. apply Hpair; [|done|done].
    rewrite !key_of_url; congruence.
  - intros a b Ua Ub T Sa Sb. apply Hpair; [|done|done].
    unfold key. by rewrite Ua, Ub.
  - intros a b NE. unfold rank. rewrite sorted_desc_perm.
    unfold dedupe, dedupe_step. simpl.
    destruct (String.eqb_spec (key a) (key b)) as [E|_]; [done|].
    simpl. by destruct (String.eqb_spec (key a) (key b)).
Qed.

Lemma round_half_even_lower (x : Q) : (Qfloor x <= round_half_even x)%Z.
Proof.
  unfold round_half_even. destruct (Qcompare _ _); [destruct (Z.even _)|..]; lia.
Qed.

Lemma round_half_even_upper (x : Q) (n : Z) :
  x <= inject_Z n -> (round_half_even x <= n)%Z.
Proof.
  intros H. pose proof (Qfloor_le x) as Hf.
  assert (Qfloor x <= n)%Z as Hn.
  { rewrite <- (Qfloor_Z n). by apply Qfloor_resp_le. }
  destruct (Z.eq_dec (Qfloor x) n) as [E|NE].
  - unfold round_half_even.
    assert (x - inject_Z (Qfloor x) < 1 # 2) as L by (rewrite E in *; lra).
    destruct (Qcompare_spec (x - inject_Z (Qfloor x)) (1 # 2)); [lra|lia|lra].
  - assert (Qfloor x + 1 <= n)%Z by lia.
    unfold round_half_even. destruct (Qcompare _ _); [destruct (Z.even _)|..]; lia.
Qed.

Lemma round4_nonneg (x : Q) : 0 <= x -> 0 <= round4 x.
Proof.
  intros H. unfold round4.
  assert (0 <= round_half_even (x * 10000))%Z as R.
  { etransitivity; [|apply round_half_even_lower].
    change 0%Z with (Qfloor 0). apply Qfloor_resp_le. lra. }
  apply Qle_shift_div_l; [reflexivity|].
  rewrite Qmult_0_l. change 0 with (inject_Z 0). by rewrite <- Zle_Qle.
Qed.

Lemma round4_le_1 (x : Q) : x <= 1 -> round4 x <= 1.
Proof.
  intros H. unfold round4.
  assert (round_half_even (x * 10000) <= 10000)%Z as R.
  { apply round_half_even_upper. change (inject_Z 10000) with 10000. lra. }
  apply Qle_shift_div_r; [reflexivity|].
  change (1 * 10000) with (inject_Z 10000). by rewrite <- Zle_Qle.
Qed.

Lemma bind_Ok {A B} (m : M A) (k : A -> M B) w b w' :
  bind m k w = (Ok b, w') -> exists a w1, m w = (Ok a, w1) /\ k a w1 = (Ok b, w').
Proof.
  unfold bind. destruct (m w) as [[a|] w1]; [|discriminate]. intros H. by exists a, w1.
Qed.

Lemma mapM_elem {A B} (f : A -> M B) l w out w' :
  mapM f l w = (Ok out, w') ->
  forall y, y ∈ out -> exists x w1 w2, x ∈ l /\ f x w1 = (Ok y, w2).
Proof.
  revert w out. induction l as [|x l IH]; simpl; intros w out H y Hy.
  - injection H as <- _. by apply elem_of_nil in Hy.
  - apply bind_Ok in H as (y0 & w1 & Hf & H).
    apply bind_Ok in H as (ys & w2 & Hm & H).
    injection H as <- <-. apply elem_of_cons in Hy as [->|Hy].
    + exists x, w, w1. split; [left|done].
    + destruct (IH _ _ Hm y Hy) as (x' & wa & wb & Hx' & Hfx').
      exists x', wa, wb. split; [by right|done].
Qed.

Lemma mapM_total {A B} (f : A -> M B) :
  (forall x w, exists y w', f x w = (Ok y, w')) ->
  forall l w, exists out w', mapM f l w = (Ok out, w').
Proof.
  intros Hf l. induction l as [|x l IH]; simpl; intros w.
  - by exists [], w.
  - destruct (Hf x w) as (y & w1 & E). destruct (IH w1) as (ys & w2 & E').
    exists (y :: ys), w2. unfold bind. by rewrite E, E'.
Qed.

Lemma trend_loop_run env terms slopes w :
  trend_loop env terms slopes w =
  (Ok (slopes_of env terms slopes),
   {| ticks := ticks w; calls := calls w ++ (EvFetch <$> terms) |}).
Proof.
  revert slopes w. induction terms as [|t terms IH]; intros slopes w; simpl.
  - unfold ret. rewrite app_nil_r. by destruct w.
  - unfold bind at 1, try_except, bind, fetch_series, ret, term_slope.
    destruct (trend_series env t); rewrite IH; simpl; by rewrite <- app_assoc.
Qed.

Lemma get_trend_slopes_off env terms w :
  USE_TRENDS env = false -> get_trend_slopes env terms w = (Ok ∅, w).
Proof. intros E. unfold get_trend_slopes. by rewrite E. Qed.

Lemma get_trend_slopes_on env terms w :
  USE_TRENDS env = true -> trend_client env = true ->
  get_trend_slopes env terms w =
  (Ok (slopes_of env terms ∅),
   {| ticks := ticks w; calls := calls w ++ EvClient :: (EvFetch <$> terms) |}).
Proof.
  intros E C. unfold get_trend_slopes, bind, new_client. rewrite E, C. simpl.
  rewrite trend_loop_run. simpl. by rewrite <- app_assoc.
Qed.

Lemma get_trend_slopes_abort env terms w :
  USE_TRENDS env = true -> trend_client env = false ->
  get_trend_slopes env terms w =
  (Raised, {| ticks := ticks w; calls := calls w ++ [EvClient] |}).
Proof.
  intros E C. unfold get_trend_slopes, bind, new_client. by rewrite E, C.
Qed.

Lemma slopes_of_lookup env terms slopes t :
  t ∈ terms -> slopes_of env terms slopes !! t = Some (term_slope env t).
Proof.
  unfold slopes_of. revert slopes.
  induction terms as [|t0 terms IH] using rev_ind; intros slopes H.
  - by apply elem_of_nil in H.
  - rewrite fold_left_app. simpl.
    destruct (decide (t0 = t)) as [->|NE]; [by rewrite lookup_insert_eq|].
    rewrite lookup_insert_ne by done. apply IH.
    apply elem_of_app in H as [H|H]; [done|].
    apply list_elem_of_singleton in H. congruence.
Qed.

Lemma slopes_of_lookup_other env terms slopes t :
  t ∉ terms -> slopes_of env terms slopes !! t = slopes !! t.
Proof.
  unfold slopes_of. revert slopes.
  induction terms as [|t0 terms IH]; intros slopes H; [done|].
  apply not_elem_of_cons in H as [NE H]. simpl.
  rewrite IH by done. by rewrite lookup_insert_ne.
Qed.

(** ** Scoring one item *)

Lemma inject_nat_nonneg (n : nat) : 0 <= inject_Z (Z.of_nat n).
Proof. change 0 with (inject_Z 0). rewrite <- Zle_Qle. lia. Qed.

Lemma Qdiv_nonneg (a b : Q) : 0 <= a -> 0 <= b -> 0 <= a / b.
Proof.
  intros Ha Hb. destruct (Qeq_dec b 0) as [E|NE].
  - unfold Qdiv. rewrite E. change (/ 0) with 0. rewrite Qmult_0_r. lra.
  - apply Qle_shift_div_l; lra.
Qed.

Lemma entity_velocity_nonneg freq ents : 0 <= entity_velocity freq ents.
Proof.
  unfold entity_velocity. destruct ents; [lra|].
  apply Qdiv_nonneg; apply inject_nat_nonneg.
Qed.

Lemma cross_source_cases items ents :
  cross_source items ents = 0%Z \/ cross_source items ents = 1%Z.
Proof.
  unfold cross_source. destruct ents; [by left|].
  destruct (_ && _)%bool; [by right|by left].
Qed.

Lemma trend_signal_range slopes ents : 0 <= trend_signal slopes ents <= 1.
Proof. apply clamp01. Qed.

Lemma score_one_Ok env items mu Mu mc Mc freq slopes it w s w' :
  score_one env items mu Mu mc Mc freq slopes it w = (Ok s, w') ->
  base s = it /\
  R_up s = (if is_reddit it
            then normalize (inject_Z (ups it)) (inject_Z mu) (inject_Z Mu) else 0) /\
  R_com s = (if is_reddit it
             then normalize (inject_Z (comments it)) (inject_Z mc) (inject_Z Mc) else 0) /\
  Fresh s = Qmax 0 (1 - (inject_Z (clock env (ticks w) - ts it) / 3600000) / 24) /\
  NewsVel s = entity_velocity freq (entities it) /\
  Cross s = cross_source items (entities it) /\
  TrendSlope s = (if USE_TRENDS env then trend_signal slopes (entities it) else 0) /\
  ViralityScore s =
    round4 (composite (R_up s) (R_com s) (Fresh s) (NewsVel s) (Cross s) (TrendSlope s)) /\
  w' = {| ticks := S (ticks w); calls := calls w |}.
Proof.
  unfold score_one, bind, hours_ago, bind, now_ms, ret. intros [= <- <-]. simpl.
  repeat split.
Qed.

Lemma score_one_total env items mu Mu mc Mc freq slopes it w :
  exists s w', score_one env items mu Mu mc Mc freq slopes it w = (Ok s, w').
Proof. unfold score_one, bind, hours_ago, bind, now_ms, ret. eauto. Qed.

Lemma score_one_in_range env items mu Mu mc Mc freq slopes it w s w' :
  score_one env items mu Mu mc Mc freq slopes it w = (Ok s, w') -> in_range s.
Proof.
  intros H. apply score_one_Ok in H as (_ & Ru & Rc & F & V & C & T & S & _).
  unfold in_range. rewrite Ru, Rc, F, V, C, T. repeat split.
  1,2: destruct (is_reddit it); [apply normalize_range|lra].
  1,2: destruct (is_reddit it); [apply normalize_range|lra].
  - apply Q.le_max_l.
  - apply entity_velocity_nonneg.
  - apply cross_source_cases.
  - destruct (USE_TRENDS env); [apply trend_signal_range|lra].
  - destruct (USE_TRENDS env); [apply trend_signal_range|lra].
  - by rewrite S, Ru, Rc, F, V, C, T.
Qed.

Lemma in_range_score s :
  in_range s ->
  0 <= ViralityScore s /\ (NewsVel s <= 1 -> Fresh s <= 1 -> ViralityScore s <= 1).
Proof.
  intros (Ru & Rc & F & V & C & T & ->). unfold composite. split.
  - apply round4_nonneg.
    destruct C as [-> | ->]; [change (inject_Z 0) with 0|change (inject_Z 1) with 1]; lra.
  - intros V1 F1. apply round4_le_1.
    destruct C as [-> | ->]; [change (inject_Z 0) with 0|change (inject_Z 1) with 1]; lra.
Qed.

Lemma rank_elem out o : o ∈ rank out -> o ∈ out.
Proof.
  intros H. unfold rank in H. rewrite sorted_desc_perm in H.
  destruct (dedupe_spec out) as (_ & _ & Hb).
  destruct (Hb o H) as (l1 & l2 & -> & _). apply elem_of_app. right. left.
Qed.

(** ** The whole batch *)

Lemma score_items_Ok env items w out w' :
  score_items env items w = (Ok out, w') ->
  exists slopes w1 out0 mu Mu mc Mc,
    get_trend_slopes env SPORT_TERMS {| ticks := S (ticks w); calls := calls w |}
      = (Ok slopes, w1) /\
    mapM (score_one env items mu Mu mc Mc
            (build_freq (clock env (ticks w) - 12 * 3600 * 1000) items) slopes) items w1
      = (Ok out0, w') /\
    out = rank out0.
Proof.
  unfold score_items. intros H.
  apply bind_Ok in H as (now & w0 & Hn & H). injection Hn as <- <-.
  apply bind_Ok in H as (slopes & w1 & Hs & H).
  apply bind_Ok in H as (out0 & w2 & Hm & H). injection H as <- <-.
  by eexists slopes, w1, out0, _, _, _, _.
Qed.

Lemma score_items_total env items w :
  USE_TRENDS env = false \/ trend_client env = true ->
  exists out w', score_items env items w = (Ok out, w').
Proof.
  intros H. unfold score_items, bind at 1, now_ms.
  assert (exists slopes w1,
             get_trend_slopes env SPORT_TERMS {| ticks := S (ticks w); calls := calls w |}
             = (Ok slopes, w1)) as (slopes & w1 & E).
  { destruct (USE_TRENDS env) eqn:U.
    - destruct H as [?|C]; [done|]. eexists _, _. by apply get_trend_slopes_on.
    - eexists _, _. by apply get_trend_slopes_off. }
  unfold bind at 1. rewrite E.
  edestruct (mapM_total (score_one env items
     (min_default 0 (List.map ups (List.filter is_reddit items)))
     (max_default 1 (List.map ups (List.filter is_reddit items)))
     (min_default 0 (List.map comments (List.filter is_reddit items)))
     (max_default 1 (List.map comments (List.filter is_reddit items)))
     (build_freq (clock env (ticks w) - 12 * 3600 * 1000) items) slopes))
    as (out0 & w2 & E'); [intros; apply score_one_total|].
  unfold bind. rewrite E'. by eexists _, _.
Qed.

Lemma mapM_score_calls env items mu Mu mc Mc freq slopes l w out w' :
  mapM (score_one env items mu Mu mc Mc freq slopes) l w = (Ok out, w') ->
  calls w' = calls w.
Proof.
  revert w out. induction l as [|x l IH]; simpl; intros w out H.
  - by injection H as _ <-.
  - apply bind_Ok in H as (y & w1 & Hf & H).
    apply bind_Ok in H as (ys & w2 & Hm & H). injection H as _ <-.
    apply score_one_Ok in Hf as (_ & _ & _ & _ & _ & _ & _ & _ & ->).
    by rewrite (IH _ _ Hm).
Qed.

Lemma score_items_elem env items w out w' o :
  score_items env items w = (Ok out, w') -> o ∈ out ->
  exists it w1 w2 mu Mu mc Mc slopes,
    it ∈ items /\
    score_one env items mu Mu mc Mc
      (build_freq (clock env (ticks w) - 12 * 3600 * 1000) items) slopes it w1 = (Ok o, w2).
Proof.
  intros H Ho.
  apply score_items_Ok in H as (slopes & w1 & out0 & mu & Mu & mc & Mc & _ & Hm & ->).
  apply rank_elem in Ho.
  destruct (mapM_elem _ _ _ _ _ Hm o Ho) as (it & wa & wb & Hit & Hs).
  by exists it, wa, wb, mu, Mu, mc, Mc, slopes.
Qed.

(** C1 (amended). Every item returned by [score_items] has a composite score
    of at least 0, and of at most 1 when its entity velocity and its freshness
    are at most 1. *)
Theorem virality_score_bounds env items w out w' o :
  score_items env items w = (Ok out, w') -> o ∈ out ->
  0 <= ViralityScore o /\
  (NewsVel o <= 1 -> Fresh o <= 1 -> ViralityScore o <= 1).
Proof.
  intros H Ho.
  destruct (score_items_elem _ _ _ _ _ _ H Ho)
    as (it & w1 & w2 & mu & Mu & mc & Mc & slopes & _ & Hs).
  apply in_range_score. by eapply score_one_in_range.
Qed.

(** On records: every item returned by [score_items] wraps one of the items
    it was given. *)
Lemma score_items_keeps_base env items w out w' o :
  score_items env items w = (Ok out, w') -> o ∈ out ->
  exists it, it ∈ items /\ base o = it.
Proof.
  intros H Ho.
  destruct (score_items_elem _ _ _ _ _ _ H Ho)
    as (it & w1 & w2 & mu & Mu & mc & Mc & slopes & Hit & Hs).
  apply score_one_Ok in Hs as (-> & _). by exists it.
Qed.

Lemma day_fraction (a : Q) : a / 3600000 / 24 == a * (1 # 86400000).
Proof. field. Qed.

(** C6. The loop body always returns, and the freshness it stores is
    [max(0, 1 - hours_ago/24)] for the clock value it read: 0 for an item
    24 hours old or older, 1 for an item stamped with the clock value, and
    [1 - age/24h] in between. *)
Theorem freshness_decay env items mu Mu mc Mc freq slopes it w :
  exists s w', score_one env items mu Mu mc Mc freq slopes it w = (Ok s, w') /\
    let age := (clock env (ticks w) - ts it)%Z in
    Fresh s == Qmax 0 (1 - (inject_Z age / 3600000) / 24) /\
    ((86400000 <= age)%Z -> Fresh s == 0) /\
    (age = 0%Z -> Fresh s == 1) /\
    ((0 <= age <= 86400000)%Z -> Fresh s == 1 - inject_Z age / 86400000).
Proof.
  destruct (score_one_total env items mu Mu mc Mc freq slopes it w) as (s & w' & E).
  exists s, w'. split; [done|].
  apply score_one_Ok in E as (_ & _ & _ & -> & _).
  set (age := (clock env (ticks w) - ts it)%Z). simpl.
  split; [reflexivity|]. split; [|split].
  - intros H. rewrite Zle_Qle in H. change (inject_Z 86400000) with 86400000 in H.
    apply Q.max_l. rewrite day_fraction. lra.
  - intros ->. reflexivity.
  - intros [H0 H1]. rewrite Zle_Qle in H0, H1.
    change (inject_Z 86400000) with 86400000 in H1. change (inject_Z 0) with 0 in H0.
    rewrite day_fraction. change (inject_Z age / 86400000) with (inject_Z age * (1 # 86400000)).
    rewrite Q.max_r; lra.
Qed.

(** ** Trend slopes *)

Lemma slope_of_cases (y : list Q) :
  slope_of y = if (length y <? 3)%nat then 0 else (List.last y 0 - hd 0 y) / 100.
Proof. by destruct y. Qed.

(** C7. With the trend feature off, [get_trend_slopes] returns the empty
    table without touching the world, [score_items] returns with no call
    made, and every item has trend component 0.  With the feature on and the
    client built, [get_trend_slopes] returns after one fetch per term, in
    order; a term whose fetch raised has slope 0, a term with fewer than
    three points has slope 0, the others (last - first) / 100; and
    [score_items] returns. *)
Theorem trend_failures_are_isolated env terms items w :
  (USE_TRENDS env = false ->
     get_trend_slopes env terms w = (Ok ∅, w) /\
     exists out w', score_items env items w = (Ok out, w') /\ calls w' = calls w /\
                    forall o, o ∈ out -> TrendSlope o = 0) /\
  (USE_TRENDS env = true -> trend_client env = true ->
     (exists slopes w', get_trend_slopes env terms w = (Ok slopes, w') /\
        calls w' = calls w ++ EvClient :: (EvFetch <$> terms) /\
        forall t, t ∈ terms ->
          slopes !! t = Some match trend_series env t with
                             | FetchRaises => 0
                             | FetchSeries y =>
                                 if (length y <? 3)%nat then 0
                                 else (List.last y 0 - hd 0 y) / 100
                             end) /\
     exists out w', score_items env items w = (Ok out, w')).
Proof.
  split.
  - intros U. split; [by apply get_trend_slopes_off|].
    destruct (score_items_total env items w) as (out & w' & E); [by left|].
    exists out, w'. split; [done|].
    pose proof E as E0.
    apply score_items_Ok in E0
      as (slopes & w1 & out0 & mu & Mu & mc & Mc & Hs & Hm & ->).
    rewrite get_trend_slopes_off in Hs by done. injection Hs as _ <-.
    split; [by rewrite (mapM_score_calls _ _ _ _ _ _ _ _ _ _ _ _ Hm)|].
    intros o Ho. apply rank_elem in Ho.
    destruct (mapM_elem _ _ _ _ _ Hm o Ho) as (it & wa & wb & _ & Hone).
    apply score_one_Ok in Hone as (_ & _ & _ & _ & _ & _ & T & _).
    by rewrite T, U.
  - intros U C. split.
    + eexists _, _. split; [by apply get_trend_slopes_on|]. split; [done|].
      intros t Ht. rewrite slopes_of_lookup by done. unfold term_slope.
      destruct (trend_series env t); [done|]. by rewrite slope_of_cases.
    + apply score_items_total. by right.
Qed.

(** ** Entity frequency *)

Lemma frequency_count_entity freq e k :
  frequency (count_entity freq e) k
  = (frequency freq k + if has_key k e then 1 else 0)%nat.
Proof.
  unfold count_entity, frequency at 1, has_key.
  destruct (String.eqb_spec (lower e) k) as [->|NE].
  - rewrite lookup_insert_eq. simpl. lia.
  - rewrite lookup_insert_ne by done. fold (frequency freq k). lia.
Qed.

Lemma frequency_count_entities ents freq k :
  frequency (fold_left count_entity ents freq) k
  = (frequency freq k + occurrences k ents)%nat.
Proof.
  revert freq. induction ents as [|e ents IH]; intros freq; simpl.
  - unfold occurrences. simpl. lia.
  - rewrite IH, frequency_count_entity. unfold occurrences. simpl.
    destruct (has_key k e); simpl; lia.
Qed.

Lemma window_frequency_cons t it items k :
  window_frequency t (it :: items) k
  = ((if (ts it >=? t)%Z then occurrences k (entities it) else 0)
     + window_frequency t items k)%nat.
Proof. reflexivity. Qed.

Lemma frequency_count_items t items freq k :
  frequency (fold_left (count_item t) items freq) k
  = (frequency freq k + window_frequency t items k)%nat.
Proof.
  revert freq. induction items as [|it items IH]; intros freq; simpl.
  - unfold window_frequency. simpl. lia.
  - rewrite IH, window_frequency_cons. unfold count_item.
    destruct (ts it >=? t)%Z; [rewrite frequency_count_entities|]; lia.
Qed.

Lemma frequency_build_freq t items k :
  frequency (build_freq t items) k = window_frequency t items k.
Proof. unfold build_freq. by rewrite frequency_count_items. Qed.

Lemma counted_count_entity freq e : counted freq -> counted (count_entity freq e).
Proof.
  intros H k v. unfold count_entity.
  destruct (decide (lower e = k)) as [->|NE].
  - rewrite lookup_insert_eq. intros [= <-]. lia.
  - rewrite lookup_insert_ne by done. apply H.
Qed.

Lemma counted_build_freq t items : counted (build_freq t items).
Proof.
  unfold build_freq.
  assert (counted (∅ : gmap string nat)) as H0 by (intros k v; by rewrite lookup_empty).
  revert H0. generalize (∅ : gmap string nat) as freq.
  induction items as [|it items IH]; intros freq H; simpl; [done|].
  apply IH. unfold count_item. destruct (ts it >=? t)%Z; [|done].
  revert freq H. induction (entities it) as [|e es IHe]; intros freq H; simpl; [done|].
  by apply IHe, counted_count_entity.
Qed.

Lemma max_frequency_ge freq k : (frequency freq k <= max_frequency freq)%nat.
Proof.
  unfold frequency. destruct (freq !! k) as [v|] eqn:E; simpl; [|lia].
  assert (v ∈ (map_to_list freq).*2) as Hv.
  { apply list_elem_of_fmap. exists (k, v). split; [done|]. by apply elem_of_map_to_list. }
  unfold max_frequency. destruct ((map_to_list freq).*2) eqn:L.
  - by apply elem_of_nil in Hv.
  - rewrite <- L in *. by apply max_list_elem_of_le.
Qed.

Lemma max_frequency_empty : max_frequency ∅ = 1%nat.
Proof. unfold max_frequency. by rewrite map_to_list_empty. Qed.

Lemma max_frequency_attained freq :
  freq <> ∅ -> exists k, freq !! k = Some (max_frequency freq).
Proof.
  intros NE. unfold max_frequency. destruct ((map_to_list freq).*2) eqn:L.
  - exfalso. apply NE. apply map_to_list_empty_iff. by apply fmap_nil_inv in L.
  - rewrite <- L.
    assert (max_list (map_to_list freq).*2 ∈ (map_to_list freq).*2) as H.
    { apply max_list_elem_of. by rewrite L. }
    apply list_elem_of_fmap in H as ([k v] & E & H). simpl in E.
    exists k. rewrite E. by apply elem_of_map_to_list.
Qed.

Lemma build_freq_empty t items :
  build_freq t items = ∅ <-> forall k, window_frequency t items k = 0%nat.
Proof.
  split.
  - intros E k. rewrite <- frequency_build_freq, E. unfold frequency.
    by rewrite lookup_empty.
  - intros H. apply map_empty. intros k.
    destruct (build_freq t items !! k) as [v|] eqn:E; [|done].
    pose proof (counted_build_freq t items k v E).
    specialize (H k). rewrite <- frequency_build_freq in H. unfold frequency in H.
    rewrite E in H. simpl in H. lia.
Qed.

Lemma fold_left_plus {A} (f : A -> nat) l n :
  fold_left (fun v e => (v + f e)%nat) l n = (n + sum_list (f <$> l))%nat.
Proof.
  revert n. induction l as [|x l IH]; intros n; [simpl; lia|].
  rewrite fmap_cons. change (sum_list (f x :: (f <$> l))) with (f x + sum_list (f <$> l))%nat.
  cbn [fold_left]. rewrite IH. lia.
Qed.

(** C3. [entity_velocity] is 0 for an empty entity list; otherwise it is
    the sum, over the entities given, of the number of occurrences of their
    folded form in the items of the window, divided by [max_frequency]; this
    maximum is 1 when nothing was counted and otherwise the largest count,
    so it is never 0; the quotient is not clamped and exceeds 1 for an item
    with six entities counted once each; the velocity stored by
    [score_items] is the one for the window that starts 12 hours before
    the first clock value read. *)
Theorem entity_velocity_spec (twelve_ms : Z) (items : list Item) (ents : list string) :
  let freq := build_freq twelve_ms items in
  let count := window_frequency twelve_ms items in
  entity_velocity freq [] = 0 /\
  (ents <> [] ->
   entity_velocity freq ents
   = inject_Z (Z.of_nat (sum_list ((fun e => count (lower e)) <$> ents)))
     / inject_Z (Z.of_nat (max_frequency freq))) /\
  (forall k, frequency freq k = count k) /\
  ((forall k, count k = 0%nat) -> max_frequency freq = 1%nat) /\
  ((exists k, count k <> 0%nat) ->
   (forall k, (count k <= max_frequency freq)%nat) /\
   exists k, count k = max_frequency freq) /\
  (1 <= max_frequency freq)%nat /\
  1 < entity_velocity (build_freq 0 [wide_item]) (entities wide_item) /\
  (forall env w out w' o,
      score_items env items w = (Ok out, w') -> o ∈ out ->
      NewsVel o
      = entity_velocity (build_freq (clock env (ticks w) - 43200000) items)
          (entities (base o))).
Proof.
  intros freq count. split; [done|].
  assert (forall k, frequency freq k = count k) as Hf.
  { intros k. apply frequency_build_freq. }
  assert ((forall k, count k = 0%nat) -> max_frequency freq = 1%nat) as He.
  { intros H. apply build_freq_empty in H. unfold freq. rewrite H.
    apply max_frequency_empty. }
  assert ((exists k, count k <> 0%nat) ->
          (forall k, (count k <= max_frequency freq)%nat) /\
          exists k, count k = max_frequency freq) as Hm.
  { intros (k0 & Hk0). split.
    - intros k. rewrite <- Hf. apply max_frequency_ge.
    - destruct (max_frequency_attained freq) as (k & Hk).
      + intros E. apply Hk0. by apply build_freq_empty.
      + exists k. rewrite <- Hf. unfold frequency. by rewrite Hk. }
  split; [|split; [done|split; [done|split; [done|split; [|split]]]]].
  - intros NE. unfold entity_velocity. destruct ents as [|e ents]; [done|].
    rewrite fold_left_plus, Nat.add_0_l.
    by rewrite (list_fmap_ext _ (fun x => count (lower x)) (e :: ents))
      by (intros i x _; apply Hf).
  - destruct (decide (freq = ∅)) as [E|NE].
    + rewrite E, max_frequency_empty. lia.
    + destruct (max_frequency_attained freq NE) as (k & Hk).
      by apply (counted_build_freq twelve_ms items k).
  - vm_compute. reflexivity.
  - intros env w out w' o H Ho.
    destruct (score_items_elem _ _ _ _ _ _ H Ho)
      as (it & w1 & w2 & mu & Mu & mc & Mc & slopes & _ & Hs).
    by apply score_one_Ok in Hs as (-> & _ & _ & _ & -> & _).
Qed.

(** ** Corroboration *)

Lemma folded_meet (a b : list string) :
  folded a ∩ folded b <> ∅ <->
  exists e e', e ∈ a /\ e' ∈ b /\ lower e = lower e'.
Proof.
  unfold folded. split.
  - intros NE. apply set_choose_L in NE as (k & Hk).
    apply elem_of_intersection in Hk as [Ha Hb].
    apply elem_of_list_to_set, list_elem_of_fmap in Ha as (e & -> & Ha).
    apply elem_of_list_to_set, list_elem_of_fmap in Hb as (e' & E & Hb).
    by exists e, e'.
  - intros (e & e' & Ha & Hb & E) H.
    assert (lower e ∈ (list_to_set (lower <$> a) ∩ list_to_set (lower <$> b) : gset string)) as Hin.
    { apply elem_of_intersection. split; apply elem_of_list_to_set, list_elem_of_fmap.
      - by exists e.
      - by exists e'. }
    rewrite H in Hin. by apply not_elem_of_empty in Hin.
Qed.

Lemma has_source_sharing (tag : string) (items : list Item) (ents : list string) :
  existsb (fun i => (String.eqb (source i) tag
                     && bool_decide (folded ents ∩ folded (entities i) <> ∅))%bool) items = true
  <-> exists i, i ∈ items /\ source i = tag /\ shares ents i.
Proof.
  rewrite existsb_exists. split.
  - intros (i & Hi & H). apply andb_true_iff in H as [Hs Hm].
    apply String.eqb_eq in Hs. apply bool_decide_eq_true in Hm.
    exists i. split; [by apply list_elem_of_In|]. split; [done|]. by apply folded_meet.
  - intros (i & Hi & Hs & Hm). exists i. split; [by apply list_elem_of_In|].
    apply andb_true_iff. split; [by apply String.eqb_eq|].
    apply bool_decide_eq_true. by apply folded_meet.
Qed.

(** C4. [cross_source] is 1 exactly when some reddit item and some news item
    each share a folded entity with the entities given, and 0 otherwise, in
    particular for an empty entity list; its value is the [Cross] component
    stored by the scoring loop. *)
Theorem cross_source_spec (items : list Item) (ents : list string) :
  (cross_source items ents = 1%Z <->
   (exists i, i ∈ items /\ source i = "reddit"%string /\ shares ents i) /\
   (exists j, j ∈ items /\ source j = "news"%string /\ shares ents j)) /\
  (cross_source items ents <> 1%Z -> cross_source items ents = 0%Z) /\
  cross_source items [] = 0%Z /\
  (forall env mu Mu mc Mc freq slopes it w s w',
      score_one env items mu Mu mc Mc freq slopes it w = (Ok s, w') ->
      Cross s = cross_source items (entities it)).
Proof.
  split; [|split; [|split]].
  - destruct ents as [|e ents].
    + simpl. split; [done|]. intros [(i & _ & _ & e & e' & H & _) _].
      by apply elem_of_nil in H.
    + unfold cross_source. rewrite <- !has_source_sharing.
      unfold is_reddit, is_news.
      destruct (existsb _ items); destruct (existsb _ items); simpl; intuition congruence.
  - destruct (cross_source_cases items ents); [done|congruence].
  - done.
  - intros env mu Mu mc Mc freq slopes it w s w' H.
    by apply score_one_Ok in H as (_ & _ & _ & _ & _ & C & _).
Qed.

(** ** Entity extraction *)


Lemma filter_snoc {A} (f : A -> bool) (l : list A) (x : A) :
  List.filter f (l ++ [x]) = List.filter f l ++ (if f x then [x] else []).
Proof. rewrite List.filter_app. reflexivity. Qed.

Lemma uniq_loop_filter (k : string) (ents : list string) (seen : gset string) (uniq : list string) :
  List.filter (has_key k) (uniq_loop ents seen uniq)
  = List.filter (has_key k) uniq
    ++ (if decide (k ∈ seen) then [] else option_list (head (List.filter (has_key k) ents))).
Proof.
  revert seen uniq. induction ents as [|e ents IH]; intros seen uniq; simpl.
  - destruct (decide (k ∈ seen)); by rewrite app_nil_r.
  - unfold has_key at 3. destruct (decide (lower e ∈ seen)) as [Hin|Hout].
    + rewrite IH. destruct (decide (k ∈ seen)) as [|Hk]; [done|].
      destruct (String.eqb_spec (lower e) k) as [E|_]; [|done]. congruence.
    + rewrite IH, filter_snoc. unfold has_key at 2.
      destruct (String.eqb_spec (lower e) k) as [E|NE].
      * rewrite decide_True by (rewrite E; apply elem_of_union_l, elem_of_singleton; done).
        rewrite decide_False by congruence.
        simpl. by rewrite app_nil_r.
      * rewrite app_nil_r.
        destruct (decide (k ∈ seen)) as [Hk|Hk].
        -- by rewrite decide_True by (by apply elem_of_union_r).
        -- rewrite decide_False; [done|].
           rewrite elem_of_union, elem_of_singleton. intros [?|?]; congruence.
Qed.

Lemma uniq_loop_sublist (ents : list string) (seen : gset string) (uniq : list string) :
  exists l, uniq_loop ents seen uniq = uniq ++ l /\ sublist l ents.
Proof.
  revert seen uniq. induction ents as [|e ents IH]; intros seen uniq; simpl.
  - exists []. by rewrite app_nil_r.
  - destruct (decide (lower e ∈ seen)).
    + destruct (IH seen uniq) as (l & -> & S). exists l. split; [done|by constructor].
    + destruct (IH ({[lower e]} ∪ seen) (uniq ++ [e])) as (l & -> & S).
      exists (e :: l). split; [by rewrite <- app_assoc|by constructor].
Qed.

Lemma NoDup_folded (l : list string) :
  (forall k, (length (List.filter (has_key k) l) <= 1)%nat) -> NoDup (lower <$> l).
Proof.
  induction l as [|x l IH]; intros H; [constructor|].
  rewrite fmap_cons. constructor.
  - intros Hin. apply list_elem_of_fmap in Hin as (y & E & Hy).
    specialize (H (lower x)). simpl in H. unfold has_key at 1 in H.
    rewrite String.eqb_refl in H. simpl in H.
    assert (y ∈ List.filter (has_key (lower x)) l) as Hf.
    { apply list_elem_of_In, filter_In. split; [by apply list_elem_of_In|].
      unfold has_key. rewrite E. apply String.eqb_refl. }
    destruct (List.filter (has_key (lower x)) l); [by apply elem_of_nil in Hf|].
    simpl in H. lia.
  - apply IH. intros k. specialize (H k). simpl in H.
    destruct (has_key k x); simpl in H; lia.
Qed.

Lemma option_list_length {A} (o : option A) : (length (option_list o) <= 1)%nat.
Proof. destruct o; simpl; lia. Qed.


(** ** The promotional phrase *)

Lemma append_inj_l (s a b : string) : String.append s a = String.append s b -> a = b.
Proof. induction s as [|c s IH]; simpl; [done|]. intros [= H]. by apply IH. Qed.

Lemma suggest_hook_eq env title :
  suggest_hook env title
  = phrase (subject_of title) (nth (Z.to_nat (str_hash env title mod 10)) verbs ""%string).
Proof. unfold suggest_hook, subject_of, phrase. by destruct (findall_words title). Qed.

Lemma verbs_distinct (i j : nat) :
  (i < 10)%nat -> (j < 10)%nat ->
  String.append (nth i verbs ""%string) " everything you thought."
  = String.append (nth j verbs ""%string) " everything you thought." ->
  i = j.
Proof.
  intros Hi Hj.
  do 10 (destruct i as [|i]; [do 10 (destruct j as [|j]; [simpl; intros; (reflexivity || discriminate)|]); lia|]).
  lia.
Qed.

(** C9 (amended). The phrase is a function of the title and of the value of
    [hash(title) % 10]: two evaluations give the same phrase exactly when
    the hash values of the title agree modulo 10, as they do within one
    process. *)
Theorem suggest_hook_depends_on_hash (env1 env2 : Env) (title : string) :
  suggest_hook env1 title = suggest_hook env2 title
  <-> (str_hash env1 title mod 10 = str_hash env2 title mod 10)%Z.
Proof.
  rewrite !suggest_hook_eq. split.
  - intros H. unfold phrase in H. apply append_inj_l in H. simpl in H.
    injection H as H.
    pose proof (Z.mod_pos_bound (str_hash env1 title) 10 eq_refl) as B1.
    pose proof (Z.mod_pos_bound (str_hash env2 title) 10 eq_refl) as B2.
    apply verbs_distinct in H; lia.
  - by intros ->.
Qed.


(** ** The store during a scoring run *)

Lemma frames_refl (items : list nat) (h : heap) : frames items h h.
Proof. by repeat split. Qed.

Lemma frames_trans (items : list nat) (h1 h2 h3 : heap) :
  frames items h1 h2 -> frames items h2 h3 -> frames items h1 h3.
Proof.
  intros (D1 & O1 & F1 & S1) (D2 & O2 & F2 & S2). split; [congruence|]. split; [|split].
  - intros l Hl. rewrite O2, O1; done.
  - intros l k Hk. rewrite F2, F1; done.
  - intros l k Hs. by apply S2, S1.
Qed.

Lemma bindH_Ok {A B} (m : HM A) (k : A -> HM B) h w b h' w' :
  bindH m k h w = (Ok b, h', w') ->
  exists a h1 w1, m h w = (Ok a, h1, w1) /\ k a h1 w1 = (Ok b, h', w').
Proof.
  unfold bindH. destruct (m h w) as [[[a|] h1] w1]; [|discriminate].
  intros H. by exists a, h1, w1.
Qed.

Lemma framed_ret {A} items (a : A) : framed items (retH a).
Proof. intros h w r h' w' [= _ <- _]. apply frames_refl. Qed.

Lemma framed_raise {A} items : framed items (@raiseH A).
Proof. intros h w r h' w' [= _ <- _]. apply frames_refl. Qed.

Lemma framed_lift {A} items (m : M A) : framed items (liftH m).
Proof.
  intros h w r h' w'. unfold liftH. destruct (m w). intros [= _ <- _]. apply frames_refl.
Qed.

Lemma framed_bind {A B} items (m : HM A) (k : A -> HM B) :
  framed items m -> (forall a, framed items (k a)) -> framed items (bindH m k).
Proof.
  intros Hm Hk h w r h' w'. unfold bindH.
  destruct (m h w) as [[[a|] h1] w1] eqn:E.
  - intros H. eapply frames_trans; [by eapply Hm|by eapply Hk].
  - intros [= _ <- _]. by eapply Hm.
Qed.

Lemma framed_deref items l : framed items (deref l).
Proof. intros h w r h' w' [= _ <- _]. apply frames_refl. Qed.

Ltac framed_step :=
  match goal with
  | |- framed _ (bindH _ _) => apply framed_bind; [|intros ?]
  | |- framed _ (retH _) => apply framed_ret
  | |- framed _ raiseH => apply framed_raise
  | |- framed _ (liftH _) => apply framed_lift
  | |- framed _ (deref _) => apply framed_deref
  | |- framed _ (match ?x with _ => _ end) => destruct x
  end.

Lemma framed_item_str items l k : framed items (item_str l k).
Proof. unfold item_str. repeat framed_step. Qed.

Lemma framed_item_int items l k : framed items (item_int l k).
Proof. unfold item_int. repeat framed_step. Qed.

Lemma framed_item_num items l k : framed items (item_num l k).
Proof. unfold item_num. repeat framed_step. Qed.

Lemma framed_item_entities items l : framed items (item_entities l).
Proof. unfold item_entities. repeat framed_step. Qed.

Lemma field_insert_eq (h : heap) (l : nat) (d : dict) (k : string) (v : value) :
  field (<[l := <[k := v]> d]> h) l k = Some v.
Proof. unfold field. by rewrite !lookup_insert_eq. Qed.

Lemma field_insert_ne (h : heap) (l l' : nat) (d : dict) (k k' : string) (v : value) :
  h !! l = Some d -> (l' <> l \/ k' <> k) ->
  field (<[l := <[k := v]> d]> h) l' k' = field h l' k'.
Proof.
  intros Hd Hne. unfold field. destruct (decide (l' = l)) as [->|NE].
  - rewrite lookup_insert_eq, Hd. destruct Hne as [?|Hk]; [done|].
    by rewrite lookup_insert_ne.
  - by rewrite lookup_insert_ne.
Qed.

Lemma framed_item_set items l k v :
  l ∈ items -> k ∈ score_keys -> framed items (item_set l k v).
Proof.
  intros Hl Hk h w r h' w'. unfold item_set.
  destruct (h !! l) as [d|] eqn:E; intros [= _ <- _]; [|apply frames_refl].
  split; [|split; [|split]].
  - rewrite dom_insert_L. apply subseteq_union_1_L, singleton_subseteq_l.
    by apply elem_of_dom_2 in E.
  - intros l' Hl'. rewrite lookup_insert_ne; [done|]. by intros ->.
  - intros l' k' Hk'. apply field_insert_ne; [done|]. right. by intros ->.
  - intros l' k' Hs. destruct (decide (l' = l /\ k' = k)) as [[-> ->]|NE].
    + by rewrite field_insert_eq.
    + rewrite field_insert_ne; [done|done|].
      destruct (decide (l' = l)) as [->|?]; [right|by left]. intros ->. by apply NE.
Qed.

Lemma framed_forH {A B} items (f : A -> HM B) (l : list A) :
  (forall x, x ∈ l -> framed items (f x)) -> framed items (forH f l).
Proof.
  induction l as [|x l IH]; intros Hf; simpl; [apply framed_ret|].
  apply framed_bind; [apply Hf; left|]. intros y.
  apply framed_bind; [apply IH; intros; apply Hf; by right|]. intros ys. apply framed_ret.
Qed.

Lemma framed_filterH {A} items (f : A -> HM bool) (l : list A) :
  (forall x, framed items (f x)) -> framed items (filterH f l).
Proof.
  intros Hf. induction l as [|x l IH]; simpl; [apply framed_ret|].
  apply framed_bind; [apply Hf|]. intros b.
  apply framed_bind; [apply IH|]. intros ys. apply framed_ret.
Qed.

Lemma framed_foldH {A S} items (f : S -> A -> HM S) (l : list A) (s : S) :
  (forall s x, framed items (f s x)) -> framed items (foldH f l s).
Proof.
  intros Hf. revert s. induction l as [|x l IH]; intros s; simpl; [apply framed_ret|].
  apply framed_bind; [apply Hf|]. intros s'. apply IH.
Qed.

Lemma framed_anyH {A} items (f : A -> HM bool) (l : list A) :
  (forall x, framed items (f x)) -> framed items (anyH f l).
Proof.
  intros Hf. induction l as [|x l IH]; simpl; [apply framed_ret|].
  apply framed_bind; [apply Hf|]. intros [|]; [apply framed_ret|apply IH].
Qed.

Lemma framed_is_source items tag l : framed items (is_source tag l).
Proof. unfold is_source. apply framed_bind; [apply framed_item_str|]. intros. apply framed_ret. Qed.

Lemma framed_shares_h items tag s l : framed items (shares_h tag s l).
Proof.
  unfold shares_h. apply framed_bind; [apply framed_is_source|]. intros [|]; [|apply framed_ret].
  apply framed_bind; [apply framed_item_entities|]. intros. apply framed_ret.
Qed.

Lemma framed_cross_source_h items ls ents : framed items (cross_source_h ls ents).
Proof.
  unfold cross_source_h. destruct ents; [apply framed_ret|].
  apply framed_bind; [apply framed_anyH; intros; apply framed_shares_h|]. intros.
  apply framed_bind; [apply framed_anyH; intros; apply framed_shares_h|]. intros.
  apply framed_ret.
Qed.

Lemma framed_count_loc items t freq l : framed items (count_loc t freq l).
Proof.
  unfold count_loc. apply framed_bind; [apply framed_item_int|]. intros ts.
  destruct (ts >=? t)%Z; [|apply framed_ret].
  apply framed_bind; [apply framed_item_entities|]. intros. apply framed_ret.
Qed.

Lemma framed_key_h items l : framed items (key_h l).
Proof.
  unfold key_h. apply framed_bind; [apply framed_item_str|]. intros u.
  destruct (String.eqb u ""); [|apply framed_ret].
  apply framed_bind; [apply framed_item_str|]. intros. apply framed_ret.
Qed.

Lemma framed_dedupe_step_h items seen l : framed items (dedupe_step_h seen l).
Proof.
  unfold dedupe_step_h. apply framed_bind; [apply framed_key_h|]. intros k.
  destruct (seen_get_h k seen); [|apply framed_ret].
  apply framed_bind; [apply framed_item_num|]. intros s.
  apply framed_bind; [apply framed_item_num|]. intros sv.
  destruct (Qlt_bool sv s); apply framed_ret.
Qed.

Lemma framed_sorted_h items ls : framed items (sorted_h ls).
Proof.
  unfold sorted_h. apply framed_bind; [|intros; apply framed_ret].
  apply framed_forH. intros l _.
  apply framed_bind; [apply framed_item_num|]. intros. apply framed_ret.
Qed.

Lemma framed_score_loc env items mu Mu mc Mc freq slopes l :
  l ∈ items -> framed items (score_loc env items mu Mu mc Mc freq slopes l).
Proof.
  intros Hl. unfold score_loc.
  apply framed_bind; [apply framed_is_source|]. intros b1.
  apply framed_bind.
  { destruct b1; [|apply framed_ret].
    apply framed_bind; [apply framed_item_int|]. intros. apply framed_ret. }
  intros r_up. apply framed_bind; [apply framed_is_source|]. intros b2.
  apply framed_bind.
  { destruct b2; [|apply framed_ret].
    apply framed_bind; [apply framed_item_int|]. intros. apply framed_ret. }
  intros r_com. apply framed_bind; [apply framed_item_int|]. intros t.
  apply framed_bind; [apply framed_lift|]. intros hrs.
  apply framed_bind; [apply framed_item_entities|]. intros es1.
  apply framed_bind; [apply framed_item_entities|]. intros es2.
  apply framed_bind; [apply framed_cross_source_h|]. intros cross.
  apply framed_bind.
  { destruct (USE_TRENDS env); [|apply framed_ret].
    apply framed_bind; [apply framed_item_entities|]. intros. apply framed_ret. }
  intros trend.
  repeat (apply framed_bind;
          [apply framed_item_set; [done|apply list_elem_of_In; simpl; tauto]|intros _]).
  apply framed_ret.
Qed.

Lemma framed_score_items_h env items : framed items (score_items_h env items).
Proof.
  unfold score_items_h.
  apply framed_bind; [apply framed_filterH; intros; apply framed_is_source|]. intros r.
  do 4 (apply framed_bind; [apply framed_forH; intros; apply framed_item_int|]; intros ?).
  apply framed_bind; [apply framed_lift|]. intros now.
  apply framed_bind; [apply framed_foldH; intros; apply framed_count_loc|]. intros freq.
  apply framed_bind; [apply framed_lift|]. intros slopes.
  apply framed_bind; [apply framed_forH; intros; by apply framed_score_loc|]. intros out.
  apply framed_bind; [apply framed_foldH; intros; apply framed_dedupe_step_h|]. intros seen.
  apply framed_sorted_h.
Qed.

Lemma item_set_Ok l k v h w u h' w' :
  item_set l k v h w = (Ok u, h', w') ->
  field h' l k = Some v /\
  forall k', is_Some (field h l k') -> is_Some (field h' l k').
Proof.
  unfold item_set. destruct (h !! l) as [d|] eqn:E; [|discriminate].
  intros [= _ <- _]. split; [apply field_insert_eq|].
  intros k' Hs. destruct (decide (k' = k)) as [->|NE].
  - rewrite field_insert_eq. by eexists.
  - rewrite field_insert_ne; [done|done|by right].
Qed.

Lemma write_scores_post l (r_up r_com fresh vel : Q) (cross : Z) (trend score : Q)
    h w y h' w' :
  (_ <- item_set l "R_up" (VNum r_up) ;;
   _ <- item_set l "R_com" (VNum r_com) ;;
   _ <- item_set l "Fresh" (VNum fresh) ;;
   _ <- item_set l "NewsVel" (VNum vel) ;;
   _ <- item_set l "Cross" (VInt cross) ;;
   _ <- item_set l "TrendSlope" (VNum trend) ;;
   _ <- item_set l "ViralityScore" (VNum score) ;;
   retH l)%H h w = (Ok y, h', w') ->
  y = l /\ forall k, k ∈ score_keys -> is_Some (field h' l k).
Proof.
  intros H.
  apply bindH_Ok in H as (u1 & h1 & w1 & S1 & H). apply item_set_Ok in S1 as [F1 P1].
  apply bindH_Ok in H as (u2 & h2 & w2 & S2 & H). apply item_set_Ok in S2 as [F2 P2].
  apply bindH_Ok in H as (u3 & h3 & w3 & S3 & H). apply item_set_Ok in S3 as [F3 P3].
  apply bindH_Ok in H as (u4 & h4 & w4 & S4 & H). apply item_set_Ok in S4 as [F4 P4].
  apply bindH_Ok in H as (u5 & h5 & w5 & S5 & H). apply item_set_Ok in S5 as [F5 P5].
  apply bindH_Ok in H as (u6 & h6 & w6 & S6 & H). apply item_set_Ok in S6 as [F6 P6].
  apply bindH_Ok in H as (u7 & h7 & w7 & S7 & H). apply item_set_Ok in S7 as [F7 P7].
  injection H as <- <- <-. split; [done|]. intros k Hk.
  assert (forall v, field h1 l k = Some v -> is_Some (field h7 l k)) as A1
      by (intros v E; apply P7, P6, P5, P4, P3, P2; rewrite E; by eexists).
  assert (forall v, field h2 l k = Some v -> is_Some (field h7 l k)) as A2
      by (intros v E; apply P7, P6, P5, P4, P3; rewrite E; by eexists).
  assert (forall v, field h3 l k = Some v -> is_Some (field h7 l k)) as A3
      by (intros v E; apply P7, P6, P5, P4; rewrite E; by eexists).
  assert (forall v, field h4 l k = Some v -> is_Some (field h7 l k)) as A4
      by (intros v E; apply P7, P6, P5; rewrite E; by eexists).
  assert (forall v, field h5 l k = Some v -> is_Some (field h7 l k)) as A5
      by (intros v E; apply P7, P6; rewrite E; by eexists).
  assert (forall v, field h6 l k = Some v -> is_Some (field h7 l k)) as A6
      by (intros v E; apply P7; rewrite E; by eexists).
  unfold score_keys in Hk.
  repeat (apply elem_of_cons in Hk as [->|Hk]; [by eauto|]).
  by apply elem_of_nil in Hk.
Qed.

Lemma score_loc_post env items mu Mu mc Mc freq slopes l h w y h' w' :
  score_loc env items mu Mu mc Mc freq slopes l h w = (Ok y, h', w') ->
  y = l /\ forall k, k ∈ score_keys -> is_Some (field h' l k).
Proof.
  unfold score_loc. intros H.
  do 10 (apply bindH_Ok in H as (? & ? & ? & _ & H)).
  by eapply write_scores_post.
Qed.

Lemma forH_post {A B} (items : list nat) (P : A -> heap -> Prop) (f : A -> HM B)
    (l : list A) h w out h' w' :
  (forall x, x ∈ l -> framed items (f x)) ->
  (forall x h1 w1 y h2 w2, f x h1 w1 = (Ok y, h2, w2) -> P x h2) ->
  (forall x h1 h2, P x h1 -> frames items h1 h2 -> P x h2) ->
  forH f l h w = (Ok out, h', w') -> forall x, x ∈ l -> P x h'.
Proof.
  intros Hfr Hpost Hstable. revert h w out.
  induction l as [|x l IH]; simpl; intros h w out H x' Hx'; [by apply elem_of_nil in Hx'|].
  apply bindH_Ok in H as (y & h1 & w1 & Hx & H).
  apply bindH_Ok in H as (ys & h2 & w2 & Hl & H). injection H as _ <- <-.
  apply elem_of_cons in Hx' as [->|Hx'].
  - eapply Hstable; [by eapply Hpost|].
    eapply (framed_forH items f l); [|exact Hl]. intros; apply Hfr. by right.
  - eapply IH; [intros; apply Hfr; by right|exact Hl|done].
Qed.

Lemma forH_same {A} (f : A -> HM A) (l : list A) h w out h' w' :
  (forall x h1 w1 y h2 w2, f x h1 w1 = (Ok y, h2, w2) -> y = x) ->
  forH f l h w = (Ok out, h', w') -> out = l.
Proof.
  intros Hf. revert h w out. induction l as [|x l IH]; simpl; intros h w out H.
  - by injection H as <- _ _.
  - apply bindH_Ok in H as (y & h1 & w1 & Hx & H).
    apply bindH_Ok in H as (ys & h2 & w2 & Hl & H). injection H as <- <- <-.
    by rewrite (Hf _ _ _ _ _ _ Hx), (IH _ _ _ Hl).
Qed.

Lemma seen_get_h_elem k seen v : seen_get_h k seen = Some v -> v ∈ seen.*2.
Proof.
  unfold seen_get_h. destruct (List.find _ seen) as [[k' v']|] eqn:E; [|discriminate].
  intros [= <-]. apply find_some in E as [E _]. apply list_elem_of_fmap.
  exists (k', v'). split; [done|by apply list_elem_of_In].
Qed.

Lemma seen_set_h_elem k l seen v : v ∈ (seen_set_h k l seen).*2 -> v = l \/ v ∈ seen.*2.
Proof.
  induction seen as [|[k' v'] rest IH]; simpl.
  - intros H. apply list_elem_of_singleton in H. by left.
  - destruct (String.eqb k' k); rewrite !fmap_cons; simpl; rewrite !elem_of_cons.
    + intros [->|H]; [by left|right; by right].
    + intros [->|H]; [right; by left|]. destruct (IH H) as [?|?]; [by left|right; by right].
Qed.

Lemma dedupe_step_h_elem seen l h w seen' h' w' v :
  dedupe_step_h seen l h w = (Ok seen', h', w') -> v ∈ seen'.*2 -> v = l \/ v ∈ seen.*2.
Proof.
  unfold dedupe_step_h. intros H. apply bindH_Ok in H as (k & h1 & w1 & _ & H).
  destruct (seen_get_h k seen) as [old|].
  - apply bindH_Ok in H as (s & h2 & w2 & _ & H).
    apply bindH_Ok in H as (sv & h3 & w3 & _ & H).
    destruct (Qlt_bool sv s); injection H as <- _ _; [apply seen_set_h_elem|by right].
  - injection H as <- _ _. apply seen_set_h_elem.
Qed.

Lemma dedupe_h_elem out seen h w seen' h' w' v :
  foldH dedupe_step_h out seen h w = (Ok seen', h', w') ->
  v ∈ seen'.*2 -> v ∈ out \/ v ∈ seen.*2.
Proof.
  revert seen h w. induction out as [|l out IH]; simpl; intros seen h w H Hv.
  - injection H as <- _ _. by right.
  - apply bindH_Ok in H as (s1 & h1 & w1 & Hs & H).
    destruct (IH _ _ _ H Hv) as [Ho|Hs1]; [left; by right|].
    destruct (dedupe_step_h_elem _ _ _ _ _ _ _ _ Hs Hs1) as [->|?]; [left; left|by right].
Qed.

Lemma insert_desc_h_perm x l : insert_desc_h x l ≡ₚ x :: l.
Proof.
  induction l as [|y l IH]; simpl; [done|].
  destruct (Qlt_bool (fst x) (fst y)); [|done]. rewrite IH. apply perm_swap.
Qed.

Lemma sorted_h_elem ls h w out h' w' v :
  sorted_h ls h w = (Ok out, h', w') -> v ∈ out -> v ∈ ls.
Proof.
  unfold sorted_h. intros H Hv.
  apply bindH_Ok in H as (keyed & h1 & w1 & Hk & H). injection H as <- _ _.
  assert (keyed.*2 = ls) as <-.
  { clear Hv. revert h w keyed Hk. induction ls as [|l ls IH]; simpl; intros h w keyed Hk.
    - by injection Hk as <- _ _.
    - apply bindH_Ok in Hk as (p & h2 & w2 & Hp & Hk).
      apply bindH_Ok in Hk as (ps & h3 & w3 & Hps & Hk). injection Hk as <- <- <-.
      apply bindH_Ok in Hp as (s & h4 & w4 & _ & Hp). injection Hp as <- _ _.
      rewrite fmap_cons. simpl. f_equal. by eapply IH. }
  assert (fold_right insert_desc_h [] keyed ≡ₚ keyed) as P.
  { clear. induction keyed as [|x l IH]; simpl; [done|]. by rewrite insert_desc_h_perm, IH. }
  by rewrite P in Hv.
Qed.

(** *** Runs that return *)

Lemma yields_ret {A} (a : A) h w (Q : A -> heap -> World -> Prop) :
  Q a h w -> yields (retH a) h w Q.
Proof. intros H. by exists a, h, w. Qed.

Lemma yields_bind {A B} (m : HM A) (k : A -> HM B) h w (Q : B -> heap -> World -> Prop) :
  yields m h w (fun a h1 w1 => yields (k a) h1 w1 Q) -> yields (bindH m k) h w Q.
Proof.
  intros (a & h1 & w1 & E & b & h2 & w2 & E' & HQ). exists b, h2, w2.
  split; [|done]. unfold bindH. by rewrite E.
Qed.

Lemma yields_lift {A} (m : M A) h w (Q : A -> heap -> World -> Prop) :
  (exists a w', m w = (Ok a, w') /\ Q a h w') -> yields (liftH m) h w Q.
Proof.
  intros (a & w' & E & HQ). exists a, h, w'. split; [|done]. unfold liftH. by rewrite E.
Qed.

Lemma yields_reads {A} (m : HM A) h w (Q0 : A -> Prop) (Q : A -> heap -> World -> Prop) :
  reads m h Q0 -> (forall a w', Q0 a -> Q a h w') -> yields m h w Q.
Proof.
  intros Hr HQ. destruct (Hr w) as (a & h' & w' & E & -> & H0).
  exists a, h, w'. split; [done|]. by apply HQ.
Qed.

Lemma reads_ret {A} (a : A) h (Q : A -> Prop) : Q a -> reads (retH a) h Q.
Proof. intros H w. by apply yields_ret. Qed.

Lemma reads_bind {A B} (m : HM A) (k : A -> HM B) h (Q0 : A -> Prop) (Q : B -> Prop) :
  reads m h Q0 -> (forall a, Q0 a -> reads (k a) h Q) -> reads (bindH m k) h Q.
Proof.
  intros Hm Hk w. apply yields_bind. eapply yields_reads; [exact Hm|].
  intros a w' Ha. apply Hk, Ha.
Qed.

Lemma reads_mono {A} (m : HM A) h (Q Q' : A -> Prop) :
  reads m h Q -> (forall a, Q a -> Q' a) -> reads m h Q'.
Proof.
  intros Hm HQ w. destruct (Hm w) as (a & h' & w' & E & -> & Ha).
  exists a, h, w'. split; [done|]. split; [done|]. by apply HQ.
Qed.

Lemma reads_lift {A} (m : M A) h :
  (forall w, exists a w', m w = (Ok a, w')) -> reads (liftH m) h (fun _ => True).
Proof.
  intros Hm w. apply yields_lift. destruct (Hm w) as (a & w' & E). by exists a, w'.
Qed.

Lemma field_Some h l k v : field h l k = Some v -> exists d, h !! l = Some d /\ d !! k = Some v.
Proof. unfold field. destruct (h !! l) as [d|]; [|discriminate]. intros E. by exists d. Qed.

Lemma reads_item_str h l k s :
  field h l k = Some (VStr s) -> reads (item_str l k) h (fun a => a = s).
Proof.
  intros E w. apply field_Some in E as (d & Ed & Ek). exists s, h, w.
  split; [|done]. unfold item_str, bindH, deref. by rewrite Ed, Ek.
Qed.

Lemma reads_item_int h l k n :
  field h l k = Some (VInt n) -> reads (item_int l k) h (fun a => a = n).
Proof.
  intros E w. apply field_Some in E as (d & Ed & Ek). exists n, h, w.
  split; [|done]. unfold item_int, bindH, deref. by rewrite Ed, Ek.
Qed.

Lemma reads_item_num h l k q :
  field h l k = Some (VNum q) -> reads (item_num l k) h (fun a => a = q).
Proof.
  intros E w. apply field_Some in E as (d & Ed & Ek). exists q, h, w.
  split; [|done]. unfold item_num, bindH, deref. by rewrite Ed, Ek.
Qed.

Lemma reads_item_entities h l :
  well_formed h l -> reads (item_entities l) h (fun _ => True).
Proof.
  intros ((s & Es) & _ & _ & _ & _ & _ & He) w.
  apply field_Some in Es as (d & Ed & _). unfold field in He. rewrite Ed in He.
  unfold yields, item_entities, bindH, deref. rewrite Ed.
  destruct He as [->|[es ->]]; by eexists _, _, _.
Qed.

Lemma reads_forH {A B} (f : A -> HM B) (l : list A) h :
  (forall x, x ∈ l -> reads (f x) h (fun _ => True)) -> reads (forH f l) h (fun _ => True).
Proof.
  induction l as [|x l IH]; intros Hf; simpl; [by apply reads_ret|].
  eapply reads_bind; [apply Hf; left|]. intros y _.
  eapply reads_bind; [apply IH; intros; apply Hf; by right|]. intros ys _.
  by apply reads_ret.
Qed.

Lemma reads_filterH {A} (f : A -> HM bool) (l : list A) h :
  (forall x, x ∈ l -> reads (f x) h (fun _ => True)) ->
  reads (filterH f l) h (fun r => forall x, x ∈ r -> x ∈ l).
Proof.
  induction l as [|x l IH]; intros Hf; simpl; [by apply reads_ret|].
  eapply reads_bind; [apply Hf; left|]. intros b _.
  eapply reads_bind; [apply IH; intros; apply Hf; by right|]. intros ys Hys.
  apply reads_ret. intros y Hy. destruct b.
  - apply elem_of_cons in Hy as [->|Hy]; [left|right; by apply Hys].
  - right. by apply Hys.
Qed.

Lemma reads_foldH {A S} (J : S -> Prop) (f : S -> A -> HM S) (l : list A) (s : S) h :
  (forall s x, x ∈ l -> J s -> reads (f s x) h J) -> J s -> reads (foldH f l s) h J.
Proof.
  revert s. induction l as [|x l IH]; intros s Hf Hs; simpl; [by apply reads_ret|].
  eapply reads_bind; [apply Hf; [left|done]|]. intros s' Hs'.
  apply IH; [|done]. intros s0 y Hy. apply Hf. by right.
Qed.

Lemma reads_anyH {A} (f : A -> HM bool) (l : list A) h :
  (forall x, x ∈ l -> reads (f x) h (fun _ => True)) -> reads (anyH f l) h (fun _ => True).
Proof.
  induction l as [|x l IH]; intros Hf; simpl; [by apply reads_ret|].
  eapply reads_bind; [apply Hf; left|]. intros [|] _; [by apply reads_ret|].
  apply IH. intros; apply Hf; by right.
Qed.

Lemma reads_is_source tag h l : well_formed h l -> reads (is_source tag l) h (fun _ => True).
Proof.
  intros ((s & Es) & _). unfold is_source.
  eapply reads_bind; [by apply reads_item_str|]. intros a _. by apply reads_ret.
Qed.

Lemma reads_shares_h tag s h l :
  well_formed h l -> reads (shares_h tag s l) h (fun _ => True).
Proof.
  intros W. unfold shares_h. eapply reads_bind; [by apply reads_is_source|].
  intros [|] _; [|by apply reads_ret].
  eapply reads_bind; [by apply reads_item_entities|]. intros es _. by apply reads_ret.
Qed.

Lemma reads_cross_source_h items ents h :
  (forall l, l ∈ items -> well_formed h l) ->
  reads (cross_source_h items ents) h (fun _ => True).
Proof.
  intros W. unfold cross_source_h. destruct ents; [by apply reads_ret|].
  eapply reads_bind; [apply reads_anyH; intros; by apply reads_shares_h, W|]. intros b1 _.
  eapply reads_bind; [apply reads_anyH; intros; by apply reads_shares_h, W|]. intros b2 _.
  by apply reads_ret.
Qed.

Lemma reads_count_loc t freq h l :
  well_formed h l -> reads (count_loc t freq l) h (fun _ => True).
Proof.
  intros W. pose proof W as (_ & _ & _ & (n & En) & _). unfold count_loc.
  eapply reads_bind; [by apply reads_item_int|]. intros a _.
  destruct (a >=? t)%Z; [|by apply reads_ret].
  eapply reads_bind; [by apply reads_item_entities|]. intros es _. by apply reads_ret.
Qed.

Lemma reads_key_h h l : well_formed h l -> reads (key_h l) h (fun _ => True).
Proof.
  intros (_ & (t & Et) & (u & Eu) & _). unfold key_h.
  eapply reads_bind; [by apply reads_item_str|]. intros a _.
  destruct (String.eqb a ""); [|by apply reads_ret].
  eapply reads_bind; [by apply reads_item_str|]. intros b _. by apply reads_ret.
Qed.

Lemma reads_dedupe_step_h (items : list nat) seen h l :
  (forall x, x ∈ items -> well_formed h x /\ scored_at h x) ->
  l ∈ items -> (forall v, v ∈ seen.*2 -> v ∈ items) ->
  reads (dedupe_step_h seen l) h (fun seen' => forall v, v ∈ seen'.*2 -> v ∈ items).
Proof.
  intros W Hl Hs. unfold dedupe_step_h.
  eapply reads_bind; [apply reads_key_h, W, Hl|]. intros k _.
  assert (forall v, v ∈ (seen_set_h k l seen).*2 -> v ∈ items) as Hset.
  { intros v Hv. apply seen_set_h_elem in Hv as [->|Hv]; [done|by apply Hs]. }
  destruct (seen_get_h k seen) as [old|] eqn:G; [|by apply reads_ret].
  destruct (W l Hl) as [_ [q Eq]].
  destruct (W old (Hs _ (seen_get_h_elem _ _ _ G))) as [_ [q' Eq']].
  eapply reads_bind; [by apply reads_item_num|]. intros s _.
  eapply reads_bind; [by apply reads_item_num|]. intros sv _.
  destruct (Qlt_bool sv s); by apply reads_ret.
Qed.

Lemma reads_sorted_h ls h :
  (forall x, x ∈ ls -> scored_at h x) -> reads (sorted_h ls) h (fun _ => True).
Proof.
  intros W. unfold sorted_h. eapply reads_bind; [|intros keyed _; by apply reads_ret].
  apply reads_forH. intros l Hl. destruct (W l Hl) as [q Eq].
  eapply reads_bind; [by apply reads_item_num|]. intros s _. by apply reads_ret.
Qed.

Lemma well_formed_frames items h h' l : frames items h h' -> well_formed h l -> well_formed h' l.
Proof.
  intros (_ & _ & F & _). unfold well_formed.
  rewrite !F; [done|..]; intros Hx; apply list_elem_of_In in Hx; simpl in Hx;
    intuition discriminate.
Qed.

Lemma yields_item_set l k v h w d (Q : unit -> heap -> World -> Prop) :
  h !! l = Some d -> Q tt (<[l := <[k := v]> d]> h) w -> yields (item_set l k v) h w Q.
Proof. intros E HQ. eexists tt, _, w. split; [|exact HQ]. unfold item_set. by rewrite E. Qed.

Lemma scored_at_insert h l d k v l' :
  h !! l = Some d -> (k <> "ViralityScore"%string \/ exists q, v = VNum q) ->
  scored_at h l' -> scored_at (<[l := <[k := v]> d]> h) l'.
Proof.
  intros E Hk [q Hq]. unfold scored_at.
  destruct (decide (l' = l /\ "ViralityScore"%string = k)) as [[-> <-]|NE].
  - destruct Hk as [?|[q' ->]]; [done|]. exists q'. apply field_insert_eq.
  - exists q. rewrite field_insert_ne; [done|done|].
    destruct (decide (l' = l)) as [->|?]; [right|by left]. intros ?. by apply NE.
Qed.

Lemma yields_mono {A} (m : HM A) h w (Q Q' : A -> heap -> World -> Prop) :
  yields m h w Q -> (forall a h' w', Q a h' w' -> Q' a h' w') -> yields m h w Q'.
Proof. intros (a & h' & w' & E & HQ) H. exists a, h', w'. split; [done|]. by apply H. Qed.

Lemma frames_insert (h : heap) (l : nat) (d : dict) (k : string) (v : value) :
  h !! l = Some d -> k ∈ score_keys -> frames [l] h (<[l := <[k := v]> d]> h).
Proof.
  intros E Hk. assert (l ∈ [l]) as Hl by left.
  apply (framed_item_set [l] l k v Hl Hk h
           {| ticks := 0; calls := [] |} (Ok tt) _ {| ticks := 0; calls := [] |}).
  unfold item_set. by rewrite E.
Qed.

Lemma yields_write items h0 l k v h w (Q : unit -> heap -> World -> Prop) :
  during items h0 l h -> k ∈ score_keys ->
  (k <> "ViralityScore"%string \/ exists q, v = VNum q) ->
  (forall h', during items h0 l h' -> field h' l k = Some v -> Q tt h' w) ->
  yields (item_set l k v) h w Q.
Proof.
  intros ([d Ed] & W & S) Hk Hv HQ. eapply yields_item_set; [exact Ed|].
  apply HQ; [|apply field_insert_eq]. split; [|split].
  - rewrite lookup_insert_eq. by eexists.
  - intros x Hx. eapply well_formed_frames; [by apply frames_insert|by apply W].
  - intros x Hx. apply scored_at_insert; [done|done|by apply S].
Qed.

Lemma yields_score_loc env items mu Mu mc Mc freq slopes l h w :
  (forall x, x ∈ items -> well_formed h x) -> l ∈ items ->
  yields (score_loc env items mu Mu mc Mc freq slopes l) h w
    (fun y h' _ => y = l /\ (forall x, x ∈ items -> well_formed h' x) /\
                   scored_at h' l /\ forall x, scored_at h x -> scored_at h' x).
Proof.
  intros W Hl. pose proof (W l Hl) as Wl.
  pose proof Wl as ((s & Es) & _ & _ & (n & En) & (a & Ea) & (c & Ec) & _).
  unfold score_loc.
  apply yields_bind. eapply yields_reads; [by apply reads_is_source|]. intros b1 w1 _.
  apply yields_bind. apply (yields_reads _ _ _ (fun _ => True)).
  { destruct b1; [|by apply reads_ret].
    eapply reads_bind; [by apply reads_item_int|]. intros; by apply reads_ret. }
  intros r_up w2 _.
  apply yields_bind. eapply yields_reads; [by apply reads_is_source|]. intros b2 w3 _.
  apply yields_bind. apply (yields_reads _ _ _ (fun _ => True)).
  { destruct b2; [|by apply reads_ret].
    eapply reads_bind; [by apply reads_item_int|]. intros; by apply reads_ret. }
  intros r_com w4 _.
  apply yields_bind. eapply yields_reads; [by apply reads_item_int|]. intros t w5 _.
  apply yields_bind, yields_lift. eexists _, _. split; [reflexivity|].
  apply yields_bind. eapply yields_reads; [by apply reads_item_entities|]. intros es1 w6 _.
  apply yields_bind. eapply yields_reads; [by apply reads_item_entities|]. intros es2 w7 _.
  apply yields_bind. eapply yields_reads; [by apply reads_cross_source_h|]. intros cross w8 _.
  apply yields_bind. apply (yields_reads _ _ _ (fun _ => True)).
  { destruct (USE_TRENDS env); [|by apply reads_ret].
    eapply reads_bind; [by apply reads_item_entities|]. intros; by apply reads_ret. }
  intros trend w9 _.
  assert (during items h l h) as D0.
  { split; [|done]. apply field_Some in Es as (d & -> & _). by eexists. }
  apply yields_bind, (yields_write items h l); [done|apply list_elem_of_In; simpl; tauto|by left|].
  intros h1 D1 _.
  apply yields_bind, (yields_write items h l); [done|apply list_elem_of_In; simpl; tauto|by left|].
  intros h2 D2 _.
  apply yields_bind, (yields_write items h l); [done|apply list_elem_of_In; simpl; tauto|by left|].
  intros h3 D3 _.
  apply yields_bind, (yields_write items h l); [done|apply list_elem_of_In; simpl; tauto|by left|].
  intros h4 D4 _.
  apply yields_bind, (yields_write items h l); [done|apply list_elem_of_In; simpl; tauto|by left|].
  intros h5 D5 _.
  apply yields_bind, (yields_write items h l); [done|apply list_elem_of_In; simpl; tauto|by left|].
  intros h6 D6 _.
  apply yields_bind, (yields_write items h l);
    [done|apply list_elem_of_In; simpl; tauto|right; by eexists|].
  intros h7 (_ & W7 & S7) F7.
  apply yields_ret. split; [done|]. split; [done|]. split; [by eexists|done].
Qed.

Lemma yields_loop (I : heap -> Prop) (f : nat -> HM nat) (l : list nat) :
  (forall x h w, x ∈ l -> I h ->
     yields (f x) h w (fun y h' _ => y = x /\ I h' /\ scored_at h' x /\
                                   forall z, scored_at h z -> scored_at h' z)) ->
  forall h w, I h ->
    yields (forH f l) h w (fun out h' _ => out = l /\ I h' /\
                           (forall z, scored_at h z -> scored_at h' z) /\
                           forall x, x ∈ l -> scored_at h' x).
Proof.
  induction l as [|x l IH]; intros Hf h w Hi; simpl.
  - apply yields_ret. split; [done|]. split; [done|]. split; [done|].
    intros x Hx. by apply elem_of_nil in Hx.
  - apply yields_bind. eapply yields_mono; [apply Hf; [left|done]|].
    intros y h1 w1 (-> & I1 & Sx & S1).
    apply yields_bind. eapply yields_mono; [apply IH; [|exact I1]|].
    { intros z h0 w0 Hz. apply Hf. by right. }
    intros ys h2 w2 (-> & I2 & S2 & Sl).
    apply yields_ret. split; [done|]. split; [done|]. split.
    + intros z Hz. by apply S2, S1.
    + intros z Hz. apply elem_of_cons in Hz as [->|Hz]; [by apply S2|by apply Sl].
Qed.

Lemma score_items_h_returns env items h w :
  (forall l, l ∈ items -> well_formed h l) ->
  USE_TRENDS env = false \/ trend_client env = true ->
  yields (score_items_h env items) h w (fun _ _ _ => True).
Proof.
  intros W T. unfold score_items_h.
  apply yields_bind. eapply yields_reads;
    [apply reads_filterH; intros; by apply reads_is_source, W|]. intros r w1 Hr.
  assert (reads (forH (fun x => item_int x "ups") r) h (fun _ => True)) as Rups.
  { apply reads_forH. intros x Hx.
    destruct (W x (Hr x Hx)) as (_ & _ & _ & _ & (a & Ea) & _).
    eapply reads_mono; [by apply reads_item_int|done]. }
  assert (reads (forH (fun x => item_int x "comments") r) h (fun _ => True)) as Rcom.
  { apply reads_forH. intros x Hx.
    destruct (W x (Hr x Hx)) as (_ & _ & _ & _ & _ & (c & Ec) & _).
    eapply reads_mono; [by apply reads_item_int|done]. }
  apply yields_bind. eapply yields_reads; [exact Rups|]. intros ups_min w2 _.
  apply yields_bind. eapply yields_reads; [exact Rups|]. intros ups_max w3 _.
  apply yields_bind. eapply yields_reads; [exact Rcom|]. intros coms_min w4 _.
  apply yields_bind. eapply yields_reads; [exact Rcom|]. intros coms_max w5 _.
  apply yields_bind, yields_lift. eexists _, _. split; [reflexivity|].
  apply yields_bind. eapply yields_reads.
  { apply (reads_foldH (fun _ => True)); [|done]. intros; by apply reads_count_loc, W. }
  intros freq w6 _.
  apply yields_bind, yields_lift.
  assert (exists slopes w', get_trend_slopes env SPORT_TERMS w6 = (Ok slopes, w'))
    as (slopes & w7 & E).
  { destruct (USE_TRENDS env) eqn:U.
    - destruct T as [?|C]; [done|]. eexists _, _. by apply get_trend_slopes_on.
    - eexists _, _. by apply get_trend_slopes_off. }
  exists slopes, w7. split; [exact E|].
  apply yields_bind. eapply yields_mono.
  { apply (yields_loop (fun h => forall x, x ∈ items -> well_formed h x)); [|exact W].
    intros x h1 w8 Hx W1. by apply yields_score_loc. }
  intros out hb wb (-> & Wb & _ & Sb).
  apply yields_bind. eapply yields_reads.
  { apply (reads_foldH (fun seen : list (string * nat) => forall v, v ∈ seen.*2 -> v ∈ items)).
    - intros seen x Hx Hs. apply (reads_dedupe_step_h items); [|done|done].
      intros y Hy. split; [by apply Wb|by apply Sb].
    - intros v Hv. by apply elem_of_nil in Hv. }
  intros seen w9 Hseen.
  eapply yields_reads; [apply reads_sorted_h; intros x Hx; apply Sb, Hseen, Hx|]. done.
Qed.

(** C10. [score_items] changes the dictionaries of the batch in place and
    nothing else.  Whether it returns or raises, no dictionary appears or
    disappears, a dictionary that is not in the batch is untouched, and in
    every dictionary every key other than the seven score keys, in
    particular source, title, url, ts and entities, keeps its value or its
    absence.  When it returns, every item of the result is one of the
    references it was given, and every item of the batch, ranked or dropped,
    holds all seven score keys.  It does return when the dictionaries of the
    batch are as the fetchers build them and the trend feature is off or its
    client can be built. *)
Theorem score_items_frame env (items : list nat) (h : heap) (w : World) r h' w' :
  score_items_h env items h w = (r, h', w') ->
  dom h' = dom h /\
  (forall l, l ∉ items -> h' !! l = h !! l) /\
  (forall l k, k ∉ score_keys -> field h' l k = field h l k) /\
  (forall l k, k ∈ ["source"; "title"; "url"; "ts"; "entities"]%string ->
               field h' l k = field h l k) /\
  (forall out, r = Ok out ->
     (forall l, l ∈ out -> l ∈ items) /\
     (forall l k, l ∈ items -> k ∈ score_keys -> is_Some (field h' l k))) /\
  ((forall l, l ∈ items -> well_formed h l) ->
   USE_TRENDS env = false \/ trend_client env = true ->
   exists out, r = Ok out).
Proof.
  intros H. destruct (framed_score_items_h env items _ _ _ _ _ H) as (D & O & F & _).
  split; [done|]. split; [done|]. split; [done|]. split; [|split].
  - intros l k Hk. apply F. intros Hs.
    apply list_elem_of_In in Hk. apply list_elem_of_In in Hs. simpl in Hk, Hs.
    intuition congruence.
  - intros out ->. unfold score_items_h in H.
    do 8 (apply bindH_Ok in H as (? & ? & ? & _ & H)).
    apply bindH_Ok in H as (scored & ha & wa & Hloop & H).
    apply bindH_Ok in H as (seen & hb & wb & Hdedupe & Hsort).
    assert (scored = items) as ->.
    { eapply forH_same; [|exact Hloop]. intros l0 h1 w1 y h2 w2 Hy.
      by apply score_loc_post in Hy as [-> _]. }
    split.
    + intros l Hl. apply (sorted_h_elem _ _ _ _ _ _ _ Hsort) in Hl.
      destruct (dedupe_h_elem _ _ _ _ _ _ _ _ Hdedupe Hl) as [?|Hn]; [done|].
      by apply elem_of_nil in Hn.
    + intros l k Hl Hk.
      assert (frames items ha h') as (_ & _ & _ & S).
      { eapply frames_trans.
        - eapply (framed_foldH items dedupe_step_h); [|exact Hdedupe].
          intros; apply framed_dedupe_step_h.
        - eapply framed_sorted_h. exact Hsort. }
      apply S. revert k Hk.
      eapply (forH_post items (fun l h => forall k, k ∈ score_keys -> is_Some (field h l k)));
        [| | |exact Hloop|exact Hl].
      * intros; by apply framed_score_loc.
      * intros l0 h1 w1 y h2 w2 Hy. by apply score_loc_post in Hy as [_ ?].
      * intros l0 h1 h2 Hp (_ & _ & _ & S') k Hk. by apply S', Hp.
  - intros W T. destruct (score_items_h_returns env items h w W T) as (a & h2 & w2 & E & _).
    rewrite E in H. injection H as <- _ _. by exists a.
Qed.

(** ** Worked examples *)

(** C1 as stated fails: the single item [wide_item], six entities counted
    once each and stamped with the clock value, is scored 1.35. *)
Lemma virality_score_above_one :
  ~ (forall env items w out w' o,
        score_items env items w = (Ok out, w') -> o ∈ out ->
        0 <= ViralityScore o <= 1).
Proof.
  intros H.
  destruct (score_items env_off [wide_item] w0) as [[out|] w'] eqn:E;
    [|vm_compute in E; discriminate].
  pose proof E as E'. vm_compute in E'. injection E' as <- _.
  eapply H in E as [_ Hle]; [|left].
  vm_compute in Hle. by apply Hle.
Qed.

(** The bounds at a reddit post and a news item about the same entity. *)
Lemma virality_score_bounds_witness :
  exists out w' o,
    score_items env_off [post_ufc; news_ufc] w0 = (Ok out, w') /\ o ∈ out /\
    0 <= ViralityScore o /\ ViralityScore o <= 1.
Proof.
  destruct (score_items env_off [post_ufc; news_ufc] w0) as [[out|] w'] eqn:E;
    [|vm_compute in E; discriminate].
  pose proof E as E'. vm_compute in E'. injection E' as Eout _.
  destruct out as [|o out]; [discriminate|]. injection Eout as Eo _.
  assert (o ∈ o :: out) as Ho by left.
  exists (o :: out), w', o. split; [reflexivity|]. split; [exact Ho|].
  destruct (virality_score_bounds env_off [post_ufc; news_ufc] w0 (o :: out) w' o E Ho)
    as [H0 H1].
  split; [exact H0|]. apply H1; rewrite <- Eo; vm_compute; discriminate.
Defined.

(** Two scored copies of one post, 0.4 and 0.7: the one scored 0.7 is kept.
    So it is for two items without url whose titles differ in case only. *)
Lemma rank_dedupes_and_sorts_witness :
  (rank [scored post_ufc (4 # 10); scored post_ufc (7 # 10)] = [scored post_ufc (7 # 10)] /\
   rank [scored post_ufc (7 # 10); scored post_ufc (4 # 10)] = [scored post_ufc (7 # 10)]) /\
  (rank [scored (linkless "UFC 300") (4 # 10); scored (linkless "Ufc 300") (7 # 10)]
   = [scored (linkless "Ufc 300") (7 # 10)] /\
   rank [scored (linkless "Ufc 300") (7 # 10); scored (linkless "UFC 300") (4 # 10)]
   = [scored (linkless "Ufc 300") (7 # 10)]).
Proof.
  destruct (rank_dedupes_and_sorts []) as (_ & _ & _ & _ & _ & H & Ht & _).
  split.
  - apply (H (scored post_ufc (4 # 10)) (scored post_ufc (7 # 10)));
      [reflexivity|discriminate|reflexivity|reflexivity].
  - apply (Ht (scored (linkless "UFC 300") (4 # 10)) (scored (linkless "Ufc 300") (7 # 10)));
      reflexivity.
Defined.

(** The velocity of two entities in a batch of two items. *)
Lemma entity_velocity_spec_witness :
  entity_velocity (build_freq 0 [wide_item; post_ufc]) ["UFC"; "nba"]%string
  = inject_Z (Z.of_nat (sum_list ((fun e => window_frequency 0 [wide_item; post_ufc] (lower e))
                                    <$> ["UFC"; "nba"]%string)))
    / inject_Z (Z.of_nat (max_frequency (build_freq 0 [wide_item; post_ufc]))).
Proof.
  destruct (entity_velocity_spec 0 [wide_item; post_ufc] ["UFC"; "nba"]%string)
    as (_ & H & _).
  apply H. discriminate.
Defined.

(** A reddit post and a news item about UFC corroborate each other; the
    reddit post alone does not. *)
Lemma cross_source_spec_witness :
  cross_source [post_ufc; news_ufc] ["UFC"]%string = 1%Z /\
  cross_source [post_ufc] ["UFC"]%string = 0%Z.
Proof.
  split.
  - destruct (cross_source_spec [post_ufc; news_ufc] ["UFC"]%string) as ((_ & H) & _).
    apply H. split.
    + exists post_ufc. split; [left|]. split; [reflexivity|].
      exists "UFC"%string, "UFC"%string. split; [left|]. split; [left|reflexivity].
    + exists news_ufc. split; [right; left|]. split; [reflexivity|].
      exists "UFC"%string, "Ufc"%string. split; [left|]. split; [left|reflexivity].
  - destruct (cross_source_spec [post_ufc] ["UFC"]%string) as (_ & H & _).
    apply H. vm_compute. discriminate.
Defined.

(** Equal bounds give 0; a value above the upper bound stays in range. *)
Lemma normalize_spec_witness : normalize 5 3 3 == 0 /\ 0 <= normalize 7 3 5 <= 1.
Proof.
  destruct (normalize_spec 5 3 3) as (H & _). destruct (normalize_spec 7 3 5) as (_ & _ & R).
  split; [apply H; reflexivity|exact R].
Defined.

(** An item stamped exactly 24 hours before the clock value has freshness 0. *)
Lemma freshness_decay_witness :
  exists s w',
    score_one env_off [news_ufc] 0 1 0 1 ∅ ∅ news_ufc w0 = (Ok s, w') /\ Fresh s == 0.
Proof.
  destruct (freshness_decay env_off [news_ufc] 0 1 0 1 ∅ ∅ news_ufc w0)
    as (s & w' & E & _ & H & _).
  exists s, w'. split; [exact E|]. apply H. vm_compute. discriminate.
Defined.

(** With the feature off nothing is called; with it on, the fetch for NFL
    raises, NBA has three points and UFC two. *)
Lemma trend_failures_are_isolated_witness :
  (exists out w', score_items env_off [post_ufc] w0 = (Ok out, w') /\ calls w' = []) /\
  (exists slopes w',
      get_trend_slopes env_on SPORT_TERMS w0 = (Ok slopes, w') /\
      slopes !! "NFL"%string = Some 0 /\
      slopes !! "NBA"%string = Some ((60 - 10) / 100) /\
      slopes !! "UFC"%string = Some 0).
Proof.
  split.
  - destruct (trend_failures_are_isolated env_off SPORT_TERMS [post_ufc] w0) as (H & _).
    destruct (H eq_refl) as (_ & out & w' & E & C & _). by exists out, w'.
  - destruct (trend_failures_are_isolated env_on SPORT_TERMS [post_ufc] w0) as (_ & H).
    destruct (H eq_refl eq_refl) as ((slopes & w' & E & _ & S) & _).
    exists slopes, w'. split; [exact E|].
    split; [|split].
    + apply (S "NFL"%string). left.
    + apply (S "NBA"%string). right. left.
    + apply (S "UFC"%string). right. right. left.
Defined.



(** C9 as stated fails: two processes whose hash values of one title
    differ modulo 10 build different phrases for it. *)
Lemma suggest_hook_not_a_function_of_the_title :
  ~ (forall env1 env2 title, suggest_hook env1 title = suggest_hook env2 title).
Proof.
  intros H. specialize (H env_off env_on "UFC 300 card announced"%string).
  vm_compute in H. discriminate.
Qed.

(** Within one process the phrase of a title is always the same. *)
Lemma suggest_hook_depends_on_hash_witness :
  suggest_hook env_on "UFC 300 card announced"
  = suggest_hook env_on "UFC 300 card announced".
Proof.
  apply (suggest_hook_depends_on_hash env_on env_on). reflexivity.
Defined.

(** A batch of four references to three dictionaries, two of them with the
    same url: the run returns, the dictionary outside the batch is untouched,
    a key the program does not know keeps its value, and the dictionary that
    ranking drops is scored all the same. *)
Lemma score_items_frame_witness :
  (forall l, l ∈ [0; 1; 2; 0]%nat -> well_formed heap0 l) /\
  exists out h' w',
    score_items_h env_off [0; 1; 2; 0]%nat heap0 w0 = (Ok out, h', w') /\
    (2%nat ∉ out) /\
    h' !! 5%nat = heap0 !! 5%nat /\
    field h' 0%nat "subreddit" = Some (VStr "MMA") /\
    field h' 2%nat "title" = Some (VStr "UFC 300 card announced") /\
    is_Some (field h' 2%nat "ViralityScore") /\
    (forall l, l ∈ out -> l ∈ [0; 1; 2; 0]%nat).
Proof.
  assert (forall l, l ∈ [0; 1; 2; 0]%nat -> well_formed heap0 l) as W.
  { intros l Hl. apply list_elem_of_In in Hl. simpl in Hl.
    destruct Hl as [<-|[<-|[<-|[<-|[]]]]];
      (unfold well_formed; repeat split; try (eexists; reflexivity);
       right; eexists; reflexivity). }
  split; [exact W|].
  assert (5%nat ∉ [0; 1; 2; 0]%nat) as N5.
  { intros Hx. apply list_elem_of_In in Hx. simpl in Hx. intuition discriminate. }
  assert (2%nat ∈ [0; 1; 2; 0]%nat) as I2.
  { apply list_elem_of_In. simpl. tauto. }
  assert ("subreddit"%string ∉ score_keys) as Ns.
  { intros Hx. apply list_elem_of_In in Hx. simpl in Hx. intuition discriminate. }
  assert ("title"%string ∈ ["source"; "title"; "url"; "ts"; "entities"]%string) as It.
  { apply list_elem_of_In. simpl. tauto. }
  assert ("ViralityScore"%string ∈ score_keys) as Iv.
  { apply list_elem_of_In. simpl. tauto. }
  assert (2%nat ∉ [0; 1]%nat) as N2.
  { intros Hx. apply list_elem_of_In in Hx. simpl in Hx. intuition discriminate. }
  destruct (score_items_h env_off [0; 1; 2; 0]%nat heap0 w0) as [[r h'] w'] eqn:E.
  destruct (score_items_frame env_off _ _ _ _ _ _ E) as (_ & O & F & I & R & T).
  destruct (T W (or_introl eq_refl)) as [out Eout].
  assert (r = Ok [0; 1]%nat) as Er.
  { clear -E. apply (f_equal (fun x => fst (fst x))) in E. simpl in E. rewrite <- E.
    vm_compute. reflexivity. }
  destruct (R _ Er) as [Hin Hk].
  exists [0; 1]%nat, h', w'.
  split; [rewrite Er; reflexivity|]. split; [exact N2|].
  split; [exact (O _ N5)|].
  split; [exact (F _ _ Ns)|].
  split; [exact (I 2%nat _ It)|].
  split; [exact (Hk _ _ I2 Iv)|exact Hin].
Defined.

(** * Further properties *)

(** ** Whitespace *)

Lemma rstrip_idem (s : string) : rstrip (rstrip s) = rstrip s.
Proof.
  induction s as [|c s IH]; [done|]. simpl.
  destruct (rstrip s) as [|a r] eqn:E.
  - destruct (is_space c) eqn:Sp; [done|]. simpl. by rewrite Sp.
  - simpl. simpl in IH. by rewrite IH.
Qed.

Lemma lstrip_head (s : string) :
  lstrip s = EmptyString \/ exists c t, lstrip s = String c t /\ is_space c = false.
Proof.
  induction s as [|c s IH]; [by left|]. simpl.
  destruct (is_space c) eqn:Sp; [done|]. right. by exists c, s.
Qed.

Lemma rstrip_head (c : ascii) (t : string) :
  is_space c = false -> exists t', rstrip (String c t) = String c t'.
Proof.
  intros Sp. simpl. destruct (rstrip t); [rewrite Sp|]; eauto.
Qed.

Lemma strip_idem (s : string) : strip (strip s) = strip s.
Proof.
  unfold strip. destruct (lstrip_head s) as [E|(c & t & E & Sp)]; rewrite E; [done|].
  destruct (rstrip_head c t Sp) as (t' & E'). rewrite E'.
  simpl lstrip. rewrite Sp. rewrite <- E'. apply rstrip_idem.
Qed.

(** ** Fetching *)

Lemma attr_Ok {A} (o : option A) w a w' :
  attr o w = (Ok a, w') -> o = Some a /\ w' = w.
Proof. destruct o; [intros [= <- <-]; done|discriminate]. Qed.

Lemma mapM_Forall2 {A B} (f : A -> M B) l w out w' :
  mapM f l w = (Ok out, w') ->
  Forall2 (fun x y => exists wa wb, f x wa = (Ok y, wb)) l out.
Proof.
  revert w out. induction l as [|x l IH]; simpl; intros w out H.
  - injection H as <- _. constructor.
  - apply bind_Ok in H as (y & w1 & Hf & H).
    apply bind_Ok in H as (ys & w2 & Hm & H). injection H as <- <-.
    constructor; [by exists w, w1|by eapply IH].
Qed.

(** Clock reads of a loop whose body reads the clock once. *)
Lemma mapM_ticks {A B} (f : A -> M B) l w out w' :
  (forall x wa y wb, f x wa = (Ok y, wb) -> ticks wb = S (ticks wa) /\ calls wb = calls wa) ->
  mapM f l w = (Ok out, w') ->
  ticks w' = (ticks w + length l)%nat /\ calls w' = calls w.
Proof.
  intros Hf. revert w out. induction l as [|x l IH]; simpl; intros w out H.
  - injection H as _ <-. split; [lia|done].
  - apply bind_Ok in H as (y & w1 & Hx & H).
    apply bind_Ok in H as (ys & w2 & Hm & H). injection H as _ <-.
    destruct (Hf _ _ _ _ Hx) as [T C]. destruct (IH _ _ Hm) as [T' C'].
    split; [lia|congruence].
Qed.

Lemma reddit_post_Ok env sub c w r w' :
  reddit_post env sub c w = (Ok r, w') ->
  exists d, c = Some d /\
    r = {| subreddit := sub;
           post := {| source := "reddit";
                      title := strip (default ""%string (c_title d));
                      url := String.append "https://reddit.com"
                               (default ""%string (c_permalink d));
                      ts := (match c_created_utc d with
                             | Some t => int_of t
                             | None => Z.quot (clock env (ticks w)) 1000
                             end * 1000)%Z;
                      ups := default 0%Z (c_ups d);
                      comments := default 0%Z (c_num_comments d);
                      entities := [] |} |} /\
    w' = {| ticks := S (ticks w); calls := calls w |}.
Proof.
  unfold reddit_post. intros H.
  apply bind_Ok in H as (d & w1 & Hd & H). apply attr_Ok in Hd as [-> ->].
  unfold bind, time_s, ret in H. injection H as <- <-. by exists d.
Qed.

Lemma reddit_post_total env sub d w :
  exists r w', reddit_post env sub (Some d) w = (Ok r, w').
Proof. unfold reddit_post, bind, attr, ret, time_s. eauto. Qed.

Lemma mapM_total_on {A B} (f : A -> M B) (P : A -> Prop) :
  (forall x w, P x -> exists y w', f x w = (Ok y, w')) ->
  forall l w, Forall P l -> exists out w', mapM f l w = (Ok out, w').
Proof.
  intros Hf l. induction l as [|x l IH]; simpl; intros w HP.
  - by exists [], w.
  - apply Forall_cons in HP as [Hx HP].
    destruct (Hf x w Hx) as (y & w1 & E). destruct (IH w1 HP) as (ys & w2 & E').
    exists (y :: ys), w2. unfold bind. by rewrite E, E'.
Qed.

Lemma fetch_reddit_inv env feeds sub w out w' :
  fetch_reddit_top_day env feeds sub w = (Ok out, w') ->
  exists children,
    reddit_top feeds sub = Some children /\ (None ∉ children) /\
    mapM (reddit_post env sub) children w = (Ok out, w').
Proof.
  unfold fetch_reddit_top_day. intros H.
  apply bind_Ok in H as (children & w1 & Ha & H).
  apply attr_Ok in Ha as [Ha ->]. exists children. split; [done|]. split; [|done].
  intros Hn. apply mapM_Forall2 in H.
  apply list_elem_of_lookup in Hn as (i & Hi).
  destruct (Forall2_lookup_l _ _ _ _ _ H Hi) as (r & _ & wa & wb & Hr).
  discriminate.
Qed.

Lemma fetch_reddit_total env feeds sub w children :
  reddit_top feeds sub = Some children -> None ∉ children ->
  exists out w', fetch_reddit_top_day env feeds sub w = (Ok out, w').
Proof.
  intros E Hn. unfold fetch_reddit_top_day, bind. rewrite E. simpl.
  apply (mapM_total_on _ (fun c => c <> None)).
  - intros [d|] w0 Hc; [apply reddit_post_total|done].
  - apply Forall_forall. intros c Hc ->. by apply Hn.
Qed.

(** X1. [fetch_reddit_top_day] returns exactly when the request succeeded
    and every child has its data: a failed request or one child without
    data aborts the fetch. *)
Theorem fetch_reddit_returns env feeds sub w :
  (exists out w', fetch_reddit_top_day env feeds sub w = (Ok out, w'))
  <-> (exists children, reddit_top feeds sub = Some children /\ None ∉ children).
Proof.
  split.
  - intros (out & w' & H). apply fetch_reddit_inv in H as (children & E & Hn & _).
    by exists children.
  - intros (children & E & Hn). by eapply fetch_reddit_total.
Qed.

Lemma fetch_reddit_elem env feeds sub w out w' r :
  fetch_reddit_top_day env feeds sub w = (Ok out, w') -> r ∈ out ->
  subreddit r = sub /\ source (post r) = "reddit"%string /\
  starts_with "https://reddit.com" (url (post r)) = true /\
  strip (title (post r)) = title (post r) /\
  (ts (post r) mod 1000 = 0)%Z /\ entities (post r) = [].
Proof.
  intros H Hr. apply fetch_reddit_inv in H as (children & _ & _ & H).
  apply mapM_Forall2 in H. apply list_elem_of_lookup in Hr as (i & Hi).
  destruct (Forall2_lookup_r _ _ _ _ _ H Hi) as (c & _ & wa & wb & Hc).
  apply reddit_post_Ok in Hc as (d & _ & -> & _). simpl.
  split; [done|]. split; [done|]. split; [done|].
  split; [apply strip_idem|]. split; [apply Z.mod_mul; lia|done].
Qed.

(** X2. Every item returned by [fetch_reddit_top_day] carries the subreddit
    asked for, the source tag reddit, a url that starts with
    https://reddit.com, a title without surrounding white space, a
    timestamp in whole seconds and no entities yet; once scored, its
    identity key is its url, never its title.  There is one item per child,
    and one clock read per child. *)
Theorem reddit_items_shape env feeds sub w out w' :
  fetch_reddit_top_day env feeds sub w = (Ok out, w') ->
  (forall r, r ∈ out ->
     subreddit r = sub /\ source (post r) = "reddit"%string /\
     starts_with "https://reddit.com" (url (post r)) = true /\
     strip (title (post r)) = title (post r) /\
     (ts (post r) mod 1000 = 0)%Z /\ entities (post r) = [] /\
     forall s, base s = post r -> key s = url (post r)) /\
  (exists children, reddit_top feeds sub = Some children /\ length out = length children) /\
  ticks w' = (ticks w + length out)%nat /\ calls w' = calls w.
Proof.
  intros H. split; [|split].
  - intros r Hr.
    destruct (fetch_reddit_elem _ _ _ _ _ _ _ H Hr) as (Hs & Hsrc & Hu & Ht & Hts & He).
    repeat (split; [done|]). intros s Hs'. unfold key. rewrite Hs'.
    destruct (url (post r)) as [|c u]; [discriminate|done].
  - apply fetch_reddit_inv in H as (children & E & _ & H).
    exists children. split; [done|]. symmetry. eapply Forall2_length. by eapply mapM_Forall2.
  - apply fetch_reddit_inv in H as (children & E & _ & H).
    rewrite <- (Forall2_length _ _ _ (mapM_Forall2 _ _ _ _ _ H)).
    eapply (mapM_ticks (reddit_post env sub)); [|exact H].
    intros c wa r wb Hc. by apply reddit_post_Ok in Hc as (d & _ & _ & ->).
Qed.

Lemma news_item_Ok env e w i w' :
  news_item env e w = (Ok i, w') ->
  exists ttl link t,
    e_title e = Some ttl /\ e_link e = Some link /\
    i = {| source := "news"; title := strip ttl; url := link; ts := (t * 1000)%Z;
           ups := 0; comments := 0; entities := [] |} /\
    (ticks w <= ticks w')%nat /\ calls w' = calls w /\
    match entry_ts e with
    | Some t0 => if (t0 =? 0)%Z then t = Z.quot (clock env (ticks w)) 1000 else t = t0
    | None => t = Z.quot (clock env (ticks w)) 1000
    end.
Proof.
  unfold news_item. intros H.
  apply bind_Ok in H as (t & w1 & Ht & H).
  apply bind_Ok in H as (ttl & w2 & Ha & H). apply attr_Ok in Ha as [Ha ->].
  apply bind_Ok in H as (link & w3 & Hl & H). apply attr_Ok in Hl as [Hl ->].
  injection H as <- <-. exists ttl, link, t. split; [done|]. split; [done|]. split; [done|].
  destruct (entry_ts e) as [t0|]; [destruct (t0 =? 0)%Z|];
    injection Ht as <- <-; simpl; repeat split; lia.
Qed.

Lemma news_item_total env e w :
  e_title e <> None -> e_link e <> None -> exists i w', news_item env e w = (Ok i, w').
Proof.
  intros Ht Hl. unfold news_item.
  destruct (e_title e); [|done]. destruct (e_link e); [|done].
  unfold bind, attr, ret, time_s.
  destruct (entry_ts e) as [t0|]; [destruct (t0 =? 0)%Z|]; eauto.
Qed.

Lemma recent_run env i w :
  recent env i w
  = (Ok (Qle_bool (inject_Z (clock env (ticks w) - ts i) / 3600000) 24),
     {| ticks := S (ticks w); calls := calls w |}).
Proof. reflexivity. Qed.

Lemma within_a_day (a : Z) :
  Qle_bool (inject_Z a / 3600000) 24 = true <-> (a <= 86400000)%Z.
Proof.
  rewrite Qle_bool_iff, Zle_Qle. change (inject_Z 86400000) with 86400000.
  change (inject_Z a / 3600000) with (inject_Z a * (1 # 3600000)).
  split; intros H; lra.
Qed.

Lemma filterM_recent env l w out w' :
  filterM (recent env) l w = (Ok out, w') ->
  ticks w' = (ticks w + length l)%nat /\ calls w' = calls w /\ sublist out l /\
  forall i, i ∈ out ->
    exists n, (ticks w <= n < ticks w')%nat /\ (clock env n - ts i <= 86400000)%Z.
Proof.
  revert w out. induction l as [|x l IH]; simpl; intros w out H.
  - injection H as <- <-. split; [lia|]. split; [done|]. split; [constructor|].
    intros i Hi. by apply elem_of_nil in Hi.
  - apply bind_Ok in H as (b & w1 & Hb & H). rewrite recent_run in Hb.
    injection Hb as <- <-.
    apply bind_Ok in H as (ys & w2 & Hm & H). injection H as <- <-.
    destruct (IH _ _ Hm) as (T & C & S & R). simpl in T, C.
    split; [lia|]. split; [done|]. split.
    + destruct (Qle_bool _ _); by constructor.
    + intros i Hi.
      assert (i ∈ ys -> exists n, (ticks w <= n < ticks w2)%nat
                                  /\ (clock env n - ts i <= 86400000)%Z) as Hys.
      { intros Hy. destruct (R i Hy) as (n & Hn & Hc). simpl in Hn.
        exists n. split; [lia|done]. }
      destruct (Qle_bool _ _) eqn:B; [|by apply Hys].
      apply elem_of_cons in Hi as [->|Hi]; [|by apply Hys].
      exists (ticks w). split; [lia|]. by apply within_a_day.
Qed.

Lemma filterM_recent_total env l w : exists out w', filterM (recent env) l w = (Ok out, w').
Proof.
  revert w. induction l as [|x l IH]; intros w; simpl; [by eexists _, _|].
  unfold bind at 1. rewrite recent_run.
  destruct (IH {| ticks := S (ticks w); calls := calls w |}) as (ys & w2 & E).
  unfold bind. rewrite E. by eexists _, _.
Qed.

Lemma mapM_ticks_le {A B} (f : A -> M B) l w out w' :
  (forall x wa y wb, f x wa = (Ok y, wb) -> (ticks wa <= ticks wb)%nat /\ calls wb = calls wa) ->
  mapM f l w = (Ok out, w') -> (ticks w <= ticks w')%nat /\ calls w' = calls w.
Proof.
  intros Hf. revert w out. induction l as [|x l IH]; simpl; intros w out H.
  - by injection H as _ <-.
  - apply bind_Ok in H as (y & w1 & Hx & H).
    apply bind_Ok in H as (ys & w2 & Hm & H). injection H as _ <-.
    destruct (Hf _ _ _ _ Hx) as [T C]. destruct (IH _ _ Hm) as [T' C'].
    split; [lia|congruence].
Qed.

Lemma news_item_world env e wa i wb :
  news_item env e wa = (Ok i, wb) -> (ticks wa <= ticks wb)%nat /\ calls wb = calls wa.
Proof.
  intros H. by apply news_item_Ok in H as (ttl & link & t & _ & _ & _ & T & C & _).
Qed.

Lemma fetch_news_inv env feeds feed_url w out w' :
  fetch_news env feeds feed_url w = (Ok out, w') ->
  exists items w1,
    mapM (news_item env) (feed_entries feeds feed_url) w = (Ok items, w1) /\
    filterM (recent env) items w1 = (Ok out, w').
Proof.
  unfold fetch_news. intros H. apply bind_Ok in H as (items & w1 & Hm & Hf).
  by exists items, w1.
Qed.

Lemma fetch_news_total env feeds feed_url w :
  (forall e, e ∈ feed_entries feeds feed_url -> e_title e <> None /\ e_link e <> None) ->
  exists out w', fetch_news env feeds feed_url w = (Ok out, w').
Proof.
  intros He. unfold fetch_news.
  destruct (mapM_total_on (news_item env)
              (fun e => e_title e <> None /\ e_link e <> None)
              (fun e w0 '(conj Ht Hl) => news_item_total env e w0 Ht Hl)
              (feed_entries feeds feed_url) w) as (items & w1 & E).
  { by apply Forall_forall. }
  destruct (filterM_recent_total env items w1) as (out & w2 & E').
  exists out, w2. unfold bind. by rewrite E, E'.
Qed.

Lemma fetch_news_entries env feeds feed_url w out w' e :
  fetch_news env feeds feed_url w = (Ok out, w') -> e ∈ feed_entries feeds feed_url ->
  e_title e <> None /\ e_link e <> None.
Proof.
  intros H He. apply fetch_news_inv in H as (items & w1 & Hm & _).
  apply mapM_Forall2 in Hm. apply list_elem_of_lookup in He as (i & Hi).
  destruct (Forall2_lookup_l _ _ _ _ _ Hm Hi) as (it & _ & wa & wb & Hn).
  apply news_item_Ok in Hn as (ttl & link & t & -> & -> & _). done.
Qed.

Lemma fetch_news_elem env feeds feed_url w out w' i :
  fetch_news env feeds feed_url w = (Ok out, w') -> i ∈ out ->
  source i = "news"%string /\ ups i = 0%Z /\ comments i = 0%Z /\ entities i = [] /\
  strip (title i) = title i /\ (ts i mod 1000 = 0)%Z.
Proof.
  intros H Hi. apply fetch_news_inv in H as (items & w1 & Hm & Hf).
  destruct (filterM_recent _ _ _ _ _ Hf) as (_ & _ & S & _).
  assert (i ∈ items) as Hit by (by eapply elem_of_sublist).
  apply mapM_Forall2 in Hm. apply list_elem_of_lookup in Hit as (j & Hj).
  destruct (Forall2_lookup_r _ _ _ _ _ Hm Hj) as (e & _ & wa & wb & Hn).
  apply news_item_Ok in Hn as (ttl & link & t & _ & _ & -> & _). simpl.
  repeat (split; [done|]). split; [apply strip_idem|apply Z.mod_mul; lia].
Qed.

(** X3. [fetch_news] returns exactly when every entry of the feed has a
    title and a link; one entry without either aborts the whole fetch. *)
Theorem fetch_news_returns env feeds feed_url w :
  (exists out w', fetch_news env feeds feed_url w = (Ok out, w'))
  <-> (forall e, e ∈ feed_entries feeds feed_url -> e_title e <> None /\ e_link e <> None).
Proof.
  split.
  - intros (out & w' & H) e He. by eapply fetch_news_entries.
  - apply fetch_news_total.
Qed.

(** X4. Every item returned by [fetch_news] carries the source tag news,
    no engagement, no entities yet, a title without surrounding white space
    and a timestamp in whole seconds, and was at most 24 hours old at one of
    the clock values read during the fetch.  Nothing is added: there are at
    most as many items as entries. *)
Theorem news_items_shape env feeds feed_url w out w' :
  fetch_news env feeds feed_url w = (Ok out, w') ->
  (forall i, i ∈ out ->
     source i = "news"%string /\ ups i = 0%Z /\ comments i = 0%Z /\ entities i = [] /\
     strip (title i) = title i /\ (ts i mod 1000 = 0)%Z /\
     exists n, (ticks w <= n < ticks w')%nat /\ (clock env n - ts i <= 86400000)%Z) /\
  (length out <= length (feed_entries feeds feed_url))%nat /\
  calls w' = calls w.
Proof.
  intros H. pose proof H as H0.
  apply fetch_news_inv in H0 as (items & w1 & Hm & Hf).
  destruct (mapM_ticks_le (news_item env) _ _ _ _ (news_item_world env) Hm) as [T1 C1].
  destruct (filterM_recent _ _ _ _ _ Hf) as (T2 & C2 & S & R).
  split; [|split].
  - intros i Hi.
    destruct (fetch_news_elem _ _ _ _ _ _ _ H Hi) as (A & B & C & D & E & F).
    repeat (split; [done|]).
    destruct (R _ Hi) as (n & Hn & Hc). exists n. split; [lia|done].
  - rewrite (Forall2_length _ _ _ (mapM_Forall2 _ _ _ _ _ Hm)). by apply sublist_length.
  - congruence.
Qed.

(** ** More on ranking *)

Lemma rank_keys_NoDup (out : list Scored) : NoDup (key <$> rank out).
Proof.
  unfold rank. rewrite sorted_desc_perm. by destruct (dedupe_spec out) as (ND & _).
Qed.

Lemma dedupe_NoDup (l : list Scored) : NoDup (key <$> l) -> dedupe l = l.
Proof.
  intros ND. unfold dedupe.
  assert (fold_left dedupe_step l [] = (fun x => (key x, x)) <$> l) as ->.
  { induction l as [|x l IH] using rev_ind; [done|].
    rewrite fmap_app in ND. apply NoDup_app in ND as (ND & Hx & _).
    rewrite fold_left_app, IH by done. simpl. unfold dedupe_step.
    assert (key x ∉ ((fun x => (key x, x)) <$> l).*1) as Hk.
    { rewrite <- list_fmap_compose. intros Hin. apply (Hx (key x)); [done|]. simpl. left. }
    assert (seen_get (key x) ((fun x => (key x, x)) <$> l) = None) as ->
        by (by apply seen_get_None).
    rewrite seen_set_fresh by done. by rewrite fmap_app. }
  rewrite <- list_fmap_compose. apply list_fmap_id.
Qed.

Lemma sorted_desc_sorted_id (l : list Scored) : StronglySorted score_ge l -> sorted_desc l = l.
Proof.
  induction 1 as [|x l S IH F]; [done|]. simpl. rewrite IH.
  destruct l as [|y l]; [done|]. simpl.
  apply Forall_cons in F as [Hy _].
  by assert (Qlt_bool (ViralityScore x) (ViralityScore y) = false) as ->
      by (by apply Qlt_bool_false).
Qed.

Lemma rank_length_le (out : list Scored) : (length (rank out) <= length out)%nat.
Proof.
  rewrite <- (length_fmap key (rank out)), <- (length_fmap key out).
  apply submseteq_length, NoDup_submseteq; [apply rank_keys_NoDup|].
  intros k Hk. apply list_elem_of_fmap in Hk as (o & -> & Ho).
  apply list_elem_of_fmap. exists o. split; [done|by apply rank_elem].
Qed.

(** X5. Ranking a ranked list changes nothing: its keys are already
    unique and it is already in descending order. *)
Theorem rank_idempotent (out : list Scored) : rank (rank out) = rank out.
Proof.
  unfold rank at 1. rewrite dedupe_NoDup by apply rank_keys_NoDup.
  apply sorted_desc_sorted_id. apply sorted_desc_sorted.
Qed.

(** X6. The ranked list has exactly one item per identity key of the
    scored items: its length is the number of distinct keys, and it is a
    selection of the scored items. *)
Theorem rank_one_per_key (out : list Scored) :
  length (rank out) = size (list_to_set (key <$> out) : gset string) /\
  (forall o, o ∈ rank out -> o ∈ out) /\
  (length (rank out) <= length out)%nat /\
  (rank out = [] <-> out = []).
Proof.
  assert (list_to_set (key <$> rank out) = (list_to_set (key <$> out) : gset string)) as E.
  { apply set_eq. intros k. rewrite !elem_of_list_to_set, !list_elem_of_fmap.
    destruct (dedupe_spec out) as (_ & Hall & _). split.
    - intros (o & -> & Ho). exists o. split; [done|by apply rank_elem].
    - intros (x & -> & Hx). destruct (Hall x Hx) as (o & Ho & K).
      exists o. split; [done|]. unfold rank. by rewrite sorted_desc_perm. }
  assert (length (rank out) = size (list_to_set (key <$> out) : gset string)) as L.
  { rewrite <- E, size_list_to_set by apply rank_keys_NoDup. by rewrite length_fmap. }
  split; [done|]. split; [apply rank_elem|]. split.
  - apply rank_length_le.
  - split.
    + intros Hr. destruct out as [|x out]; [done|].
      destruct (dedupe_spec (x :: out)) as (_ & Hall & _).
      destruct (Hall x) as (o & Ho & _); [left|].
      unfold rank in Hr. rewrite <- (sorted_desc_perm (dedupe (x :: out))), Hr in Ho.
      by apply elem_of_nil in Ho.
    + by intros ->.
Qed.

(** X7. The first item of the ranking has the highest score of the whole
    batch: no scored item, kept or dropped, scores more. *)
Theorem rank_head_is_best (out : list Scored) (top : Scored) (rest : list Scored) :
  rank out = top :: rest ->
  forall x, x ∈ out -> ViralityScore x <= ViralityScore top.
Proof.
  intros Hr x Hx.
  destruct (dedupe_spec out) as (_ & Hall & Hbest).
  destruct (Hall x Hx) as (o & Ho & K).
  assert (ViralityScore x <= ViralityScore o) as Hxo.
  { apply (first_best_below out); [by apply Hbest|done|done]. }
  assert (o ∈ rank out) as Hor by (unfold rank; by rewrite sorted_desc_perm).
  pose proof (sorted_desc_sorted (dedupe out)) as S. fold (rank out) in S.
  rewrite Hr in S, Hor. apply StronglySorted_inv in S as [_ F].
  apply elem_of_cons in Hor as [->|Hor]; [done|].
  rewrite Forall_forall in F. specialize (F o Hor). unfold score_ge in F. lra.
Qed.

(** ** Effects of a scoring run *)

Lemma score_one_world env items mu Mu mc Mc freq slopes it wa o wb :
  score_one env items mu Mu mc Mc freq slopes it wa = (Ok o, wb) ->
  ticks wb = S (ticks wa) /\ calls wb = calls wa.
Proof.
  intros H. by apply score_one_Ok in H as (_ & _ & _ & _ & _ & _ & _ & _ & ->).
Qed.

(** The values the loop of [score_items] closes over, for the batch [items]
    and the first clock value [now]. *)
Lemma score_items_ctx env items w out w' o :
  score_items env items w = (Ok out, w') -> o ∈ out ->
  exists it wa wb slopes,
    it ∈ items /\
    get_trend_slopes env SPORT_TERMS {| ticks := S (ticks w); calls := calls w |}
      = (Ok slopes, {| ticks := S (ticks w);
                       calls := calls w ++ if USE_TRENDS env
                                           then EvClient :: (EvFetch <$> SPORT_TERMS)
                                           else [] |}) /\
    score_one env items
      (min_default 0 (List.map ups (List.filter is_reddit items)))
      (max_default 1 (List.map ups (List.filter is_reddit items)))
      (min_default 0 (List.map comments (List.filter is_reddit items)))
      (max_default 1 (List.map comments (List.filter is_reddit items)))
      (build_freq (clock env (ticks w) - 12 * 3600 * 1000) items) slopes it wa
    = (Ok o, wb).
Proof.
  unfold score_items. intros H Ho.
  apply bind_Ok in H as (now & w0 & Hn & H). injection Hn as <- <-.
  apply bind_Ok in H as (slopes & w1 & Hs & H).
  apply bind_Ok in H as (out0 & w2 & Hm & H). injection H as <- <-.
  apply rank_elem in Ho.
  destruct (mapM_elem _ _ _ _ _ Hm o Ho) as (it & wa & wb & Hit & Hone).
  exists it, wa, wb, slopes. split; [done|]. split; [|done].
  rewrite Hs. destruct (USE_TRENDS env) eqn:U.
  - destruct (trend_client env) eqn:C.
    + rewrite get_trend_slopes_on in Hs by done. by injection Hs as <- <-.
    + by rewrite get_trend_slopes_abort in Hs.
  - rewrite get_trend_slopes_off in Hs by done. injection Hs as <- <-.
    by rewrite app_nil_r.
Qed.

(** X8. A run of [score_items] that returns has read the clock once for
    the window and once per item, and has called the trend service not at
    all when the feature is off, and otherwise once for the client and once
    per tracked term, in the order of [SPORT_TERMS]. *)
Theorem score_items_effects env items w out w' :
  score_items env items w = (Ok out, w') ->
  ticks w' = (ticks w + 1 + length items)%nat /\
  calls w' = calls w ++ (if USE_TRENDS env
                         then EvClient :: (EvFetch <$> SPORT_TERMS) else []) /\
  (length out <= length items)%nat.
Proof.
  unfold score_items. intros H.
  apply bind_Ok in H as (now & w0 & Hn & H). injection Hn as <- <-.
  apply bind_Ok in H as (slopes & w1 & Hs & H).
  apply bind_Ok in H as (out0 & w2 & Hm & H). injection H as <- <-.
  destruct (mapM_ticks _ _ _ _ _
              (fun it wa o wb => score_one_world env items _ _ _ _ _ slopes it wa o wb) Hm)
    as [T C].
  assert (ticks w1 = S (ticks w) /\
          calls w1 = calls w ++ (if USE_TRENDS env
                                 then EvClient :: (EvFetch <$> SPORT_TERMS) else [])) as [T1 C1].
  { destruct (USE_TRENDS env) eqn:U.
    - destruct (trend_client env) eqn:Cl.
      + rewrite get_trend_slopes_on in Hs by done. by injection Hs as <- <-.
      + by rewrite get_trend_slopes_abort in Hs.
    - rewrite get_trend_slopes_off in Hs by done. injection Hs as <- <-.
      by rewrite app_nil_r. }
  split; [lia|]. split; [congruence|].
  apply mapM_Forall2, Forall2_length in Hm. rewrite Hm. apply rank_length_le.
Qed.

(** X9. [score_items] returns unless the trend feature is on and the client
    cannot be built; in that case it raises after the first clock read and
    the attempt to build the client, before any item is scored. *)
Theorem score_items_returns env items w :
  ((exists out w', score_items env items w = (Ok out, w'))
   <-> (USE_TRENDS env = false \/ trend_client env = true)) /\
  (USE_TRENDS env = true -> trend_client env = false ->
   score_items env items w
   = (Raised, {| ticks := S (ticks w); calls := calls w ++ [EvClient] |})).
Proof.
  assert (USE_TRENDS env = true -> trend_client env = false ->
          score_items env items w
          = (Raised, {| ticks := S (ticks w); calls := calls w ++ [EvClient] |})) as Hab.
  { intros U C. unfold score_items, bind at 1, now_ms. unfold bind at 1.
    by rewrite get_trend_slopes_abort. }
  split; [|done]. split.
  - intros (out & w' & H). destruct (USE_TRENDS env) eqn:U; [|by left].
    destruct (trend_client env) eqn:C; [by right|]. rewrite Hab in H by done. discriminate.
  - apply score_items_total.
Qed.

(** ** Engagement within the batch *)

Lemma fold_min_le (l : list Z) (a : Z) :
  (fold_left Z.min l a <= a)%Z /\ forall x, x ∈ l -> (fold_left Z.min l a <= x)%Z.
Proof.
  revert a. induction l as [|y l IH]; intros a; simpl.
  - split; [lia|]. intros x Hx. by apply elem_of_nil in Hx.
  - destruct (IH (Z.min a y)) as [Ha Hl]. split; [lia|].
    intros x Hx. apply elem_of_cons in Hx as [->|Hx]; [lia|by apply Hl].
Qed.

Lemma fold_max_ge (l : list Z) (a : Z) :
  (a <= fold_left Z.max l a)%Z /\ forall x, x ∈ l -> (x <= fold_left Z.max l a)%Z.
Proof.
  revert a. induction l as [|y l IH]; intros a; simpl.
  - split; [lia|]. intros x Hx. by apply elem_of_nil in Hx.
  - destruct (IH (Z.max a y)) as [Ha Hl]. split; [lia|].
    intros x Hx. apply elem_of_cons in Hx as [->|Hx]; [lia|by apply Hl].
Qed.

Lemma fold_min_elem (l : list Z) (a : Z) : fold_left Z.min l a ∈ a :: l.
Proof.
  revert a. induction l as [|y l IH]; intros a; simpl; [left|].
  specialize (IH (Z.min a y)). apply elem_of_cons in IH as [E|IH].
  - rewrite E. destruct (Z.min_spec a y) as [[_ ->]|[_ ->]]; [left|right; left].
  - right. by right.
Qed.

Lemma fold_max_elem (l : list Z) (a : Z) : fold_left Z.max l a ∈ a :: l.
Proof.
  revert a. induction l as [|y l IH]; intros a; simpl; [left|].
  specialize (IH (Z.max a y)). apply elem_of_cons in IH as [E|IH].
  - rewrite E. destruct (Z.max_spec a y) as [[_ ->]|[_ ->]]; [right; left|left].
  - right. by right.
Qed.

Lemma min_default_spec (d : Z) (l : list Z) (x : Z) :
  x ∈ l -> (min_default d l <= x)%Z /\ min_default d l ∈ l.
Proof.
  destruct l as [|a l]; [intros H; by apply elem_of_nil in H|]. simpl. intros Hx. split.
  - destruct (fold_min_le l a) as [Ha Hl].
    apply elem_of_cons in Hx as [->|Hx]; [done|by apply Hl].
  - apply fold_min_elem.
Qed.

Lemma max_default_spec (d : Z) (l : list Z) (x : Z) :
  x ∈ l -> (x <= max_default d l)%Z /\ max_default d l ∈ l.
Proof.
  destruct l as [|a l]; [intros H; by apply elem_of_nil in H|]. simpl. intros Hx. split.
  - destruct (fold_max_ge l a) as [Ha Hl].
    apply elem_of_cons in Hx as [->|Hx]; [done|by apply Hl].
  - apply fold_max_elem.
Qed.

Lemma normalize_Z (x lo hi : Z) :
  (lo <= x <= hi)%Z ->
  (lo = hi -> normalize (inject_Z x) (inject_Z lo) (inject_Z hi) == 0) /\
  (lo <> hi ->
   normalize (inject_Z x) (inject_Z lo) (inject_Z hi)
   == (inject_Z x - inject_Z lo) / (inject_Z hi - inject_Z lo)) /\
  (lo <> hi -> x = hi -> normalize (inject_Z x) (inject_Z lo) (inject_Z hi) == 1) /\
  (x = lo -> normalize (inject_Z x) (inject_Z lo) (inject_Z hi) == 0).
Proof.
  intros [Zlo Zhi]. pose proof Zlo as Hlo. pose proof Zhi as Hhi.
  rewrite Zle_Qle in Hlo, Hhi.
  assert (lo = hi -> normalize (inject_Z x) (inject_Z lo) (inject_Z hi) == 0) as H0.
  { intros ->. unfold normalize.
    by assert (Qeq_bool (inject_Z hi) (inject_Z hi) = true) as ->
        by (by apply Qeq_bool_iff). }
  assert (lo <> hi ->
          normalize (inject_Z x) (inject_Z lo) (inject_Z hi)
          == (inject_Z x - inject_Z lo) / (inject_Z hi - inject_Z lo)) as H1.
  { intros NE. unfold normalize.
    destruct (Qeq_bool (inject_Z hi) (inject_Z lo)) eqn:B.
    - apply Qeq_bool_iff in B. rewrite inject_Z_injective in B. by subst.
    - assert (inject_Z lo < inject_Z hi) as Hlt.
      { rewrite <- Zlt_Qlt. lia. }
      assert (0 <= (inject_Z x - inject_Z lo) / (inject_Z hi - inject_Z lo)) as P0.
      { apply Qle_shift_div_l; lra. }
      assert ((inject_Z x - inject_Z lo) / (inject_Z hi - inject_Z lo) <= 1) as P1.
      { apply Qle_shift_div_r; lra. }
      rewrite Q.min_r by done. by rewrite Q.max_r. }
  split; [done|]. split; [done|]. split.
  - intros NE ->. rewrite H1 by done. field.
    intros E. apply NE. apply inject_Z_injective. lra.
  - intros ->. destruct (Z.eq_dec lo hi) as [E|NE]; [by apply H0|].
    rewrite H1 by done. field.
    intros E. apply NE. apply inject_Z_injective. lra.
Qed.

Lemma batch_extremes (f : Item -> Z) (items : list Item) (it : Item) :
  it ∈ items -> is_reddit it = true ->
  let posts := List.filter is_reddit items in
  let r := normalize (inject_Z (f it)) (inject_Z (min_default 0 (List.map f posts)))
                     (inject_Z (max_default 1 (List.map f posts))) in
  ((forall i, i ∈ items -> is_reddit i = true -> (f i <= f it)%Z) ->
   (exists i, i ∈ items /\ is_reddit i = true /\ (f i < f it)%Z) -> r == 1) /\
  ((forall i, i ∈ items -> is_reddit i = true -> (f it <= f i)%Z) -> r == 0).
Proof.
  intros Hit Hr posts r.
  assert (forall y, y ∈ List.map f posts <->
                    exists i, i ∈ items /\ is_reddit i = true /\ f i = y) as Hmem.
  { intros y. rewrite list_elem_of_In, in_map_iff. split.
    - intros (i & <- & Hi). apply filter_In in Hi as [Hi Hri].
      exists i. by rewrite list_elem_of_In.
    - intros (i & Hi & Hri & <-). exists i. split; [done|].
      apply filter_In. by rewrite <- list_elem_of_In. }
  assert (f it ∈ List.map f posts) as Hx by (apply Hmem; by exists it).
  destruct (min_default_spec 0 _ _ Hx) as [Hlo Hlo'].
  destruct (max_default_spec 1 _ _ Hx) as [Hhi Hhi'].
  apply Hmem in Hlo' as (jl & Hjl & Rjl & Ejl). apply Hmem in Hhi' as (jh & Hjh & Rjh & Ejh).
  destruct (normalize_Z (f it) _ _ (conj Hlo Hhi)) as (_ & _ & N1 & N0).
  split.
  - intros Htop (i & Hi & Ri & Lt). apply N1.
    + assert (f i ∈ List.map f posts) as Hfi by (apply Hmem; by exists i).
      apply (min_default_spec 0) in Hfi as [Hle _]. fold posts in Hle.
      specialize (Htop jh Hjh Rjh). fold posts. lia.
    + specialize (Htop jh Hjh Rjh). fold posts. lia.
  - intros Hbot. apply N0. specialize (Hbot jl Hjl Rjl). fold posts. lia.
Qed.

(** X10. Engagement is normalised among the reddit items only.  An item of
    any other source has both engagement components 0.  Among the reddit
    items, one with the fewest upvotes (in particular the only one, or any
    one when all have the same count) has [R_up] 0, and one with the most
    has [R_up] 1 as soon as another reddit item has fewer; the same holds
    for comments and [R_com]. *)
Theorem engagement_in_batch env items w out w' o :
  score_items env items w = (Ok out, w') -> o ∈ out ->
  (source (base o) <> "reddit"%string -> R_up o = 0 /\ R_com o = 0) /\
  (source (base o) = "reddit"%string ->
   ((forall i, i ∈ items -> source i = "reddit"%string -> (ups (base o) <= ups i)%Z) ->
    R_up o == 0) /\
   ((forall i, i ∈ items -> source i = "reddit"%string -> (ups i <= ups (base o))%Z) ->
    (exists i, i ∈ items /\ source i = "reddit"%string /\ (ups i < ups (base o))%Z) ->
    R_up o == 1) /\
   ((forall i, i ∈ items -> source i = "reddit"%string ->
               (comments (base o) <= comments i)%Z) ->
    R_com o == 0) /\
   ((forall i, i ∈ items -> source i = "reddit"%string ->
               (comments i <= comments (base o))%Z) ->
    (exists i, i ∈ items /\ source i = "reddit"%string /\
               (comments i < comments (base o))%Z) ->
    R_com o == 1)).
Proof.
  intros H Ho.
  destruct (score_items_ctx _ _ _ _ _ _ H Ho) as (it & wa & wb & slopes & Hit & _ & Hone).
  apply score_one_Ok in Hone as (-> & Ru & Rc & _).
  assert (forall i, is_reddit i = true <-> source i = "reddit"%string) as Hsrc.
  { intros i. apply String.eqb_eq. }
  split.
  - intros NE. rewrite Ru, Rc. destruct (is_reddit it) eqn:R; [|done].
    by apply Hsrc in R.
  - intros E. apply Hsrc in E. rewrite E in Ru, Rc. rewrite Ru, Rc.
    destruct (batch_extremes ups items it Hit E) as [Utop Ubot].
    destruct (batch_extremes comments items it Hit E) as [Ctop Cbot].
    split; [|split; [|split]].
    + intros Hb. apply Ubot. intros i Hi Ri. apply Hb; [done|by apply Hsrc].
    + intros Ht (i & Hi & Ri & Lt). apply Utop.
      * intros j Hj Rj. apply Ht; [done|by apply Hsrc].
      * exists i. split; [done|]. split; [by apply Hsrc|done].
    + intros Hb. apply Cbot. intros i Hi Ri. apply Hb; [done|by apply Hsrc].
    + intros Ht (i & Hi & Ri & Lt). apply Ctop.
      * intros j Hj Rj. apply Ht; [done|by apply Hsrc].
      * exists i. split; [done|]. split; [by apply Hsrc|done].
Qed.

(** ** The trend component *)

Lemma trend_fold_nonneg (slopes : gmap string Q) (joined : string) (terms : list string) (v : Q) :
  0 <= v ->
  0 <= fold_left (fun val core =>
                    if contains (lower core) joined
                    then Qmax val (default 0 (slopes !! core)) else val) terms v.
Proof.
  revert v. induction terms as [|t terms IH]; intros v Hv; simpl; [done|].
  apply IH. destruct (contains _ _); [|done].
  eapply Qle_trans; [exact Hv|apply Q.le_max_l].
Qed.

Lemma trend_fold_flat (slopes : gmap string Q) (joined : string) (terms : list string) (v : Q) :
  v == 0 ->
  (forall t, t ∈ terms -> contains (lower t) joined = true ->
             default 0 (slopes !! t) <= 0) ->
  fold_left (fun val core =>
               if contains (lower core) joined
               then Qmax val (default 0 (slopes !! core)) else val) terms v == 0.
Proof.
  revert v. induction terms as [|t terms IH]; intros v Hv Hs; simpl; [done|].
  apply IH.
  - destruct (contains (lower t) joined) eqn:C; [|done].
    rewrite Q.max_l; [done|]. rewrite Hv. apply Hs; [left|done].
  - intros t' Ht'. apply Hs. by right.
Qed.

(** X11. The trend signal of an item is never below 1/2: the slope starts
    at 0 and only a larger one replaces it, so a falling trend counts like
    no trend.  With the feature on, every scored item therefore has a trend
    component between 1/2 and 1, also when it mentions no tracked term. *)
Theorem trend_signal_floor env items w out w' o (slopes : gmap string Q) (ents : list string) :
  (1 # 2 <= trend_signal slopes ents <= 1) /\
  (score_items env items w = (Ok out, w') -> o ∈ out -> USE_TRENDS env = true ->
   1 # 2 <= TrendSlope o <= 1).
Proof.
  assert (forall sl es, 1 # 2 <= trend_signal sl es <= 1) as R.
  { intros sl es. split; [|apply trend_signal_range].
    unfold trend_signal.
    pose proof (trend_fold_nonneg sl (lower (join " " es)) SPORT_TERMS 0 (Qle_refl 0)) as P.
    set (val := fold_left _ SPORT_TERMS 0) in *.
    eapply Qle_trans; [|apply Q.le_max_r].
    apply Q.min_glb; [lra|]. apply Qle_shift_div_l; lra. }
  split; [apply R|]. intros H Ho U.
  destruct (score_items_ctx _ _ _ _ _ _ H Ho) as (it & wa & wb & sl & _ & _ & Hone).
  apply score_one_Ok in Hone as (_ & _ & _ & _ & _ & _ & -> & _). rewrite U. apply R.
Qed.

(** X12. When no tracked term that occurs in the joined, folded entities has
    a positive slope (none occurs, or all are flat or falling), the trend
    signal is exactly 1/2. *)
Theorem trend_signal_flat (slopes : gmap string Q) (ents : list string) :
  (forall t, t ∈ SPORT_TERMS -> contains (lower t) (lower (join " " ents)) = true ->
             default 0 (slopes !! t) <= 0) ->
  trend_signal slopes ents == 1 # 2.
Proof.
  intros Hs. unfold trend_signal.
  pose proof (trend_fold_flat slopes (lower (join " " ents)) SPORT_TERMS 0 (Qeq_refl 0) Hs) as E.
  set (val := fold_left _ SPORT_TERMS 0) in *. rewrite E.
  reflexivity.
Qed.

(** ** More on slopes and velocity *)

Lemma last_Forall {A} (P : A -> Prop) (l : list A) (d : A) :
  l <> [] -> Forall P l -> P (List.last l d).
Proof.
  induction l as [|x l IH]; [done|]. intros _ F. apply Forall_cons in F as [Hx F].
  destruct l as [|y l]; [done|]. by apply IH.
Qed.

(** X13. For a series on the scale 0 to 100 the slope stored for a term
    lies between -1 and 1, as the clamp of [trend_signal] assumes. *)
Theorem slope_of_range (y : list Q) :
  Forall (fun v => 0 <= v <= 100) y -> - (1) <= slope_of y <= 1.
Proof.
  intros F. unfold slope_of. destruct y as [|y0 y']; [lra|].
  pose proof (last_Forall _ (y0 :: y') 0 ltac:(done) F) as Hl. cbv beta in Hl.
  apply Forall_cons in F as [H0 _].
  destruct (length (y0 :: y') <? 3)%nat; [split; discriminate|].
  set (l := List.last (y0 :: y') 0) in *.
  change ((l - y0) / 100) with ((l - y0) * (1 # 100)). lra.
Qed.

Lemma window_frequency_own (t : Z) (items : list Item) (it : Item) (e : string) :
  it ∈ items -> (t <= ts it)%Z -> e ∈ entities it ->
  (1 <= window_frequency t items (lower e))%nat.
Proof.
  intros Hit Hts He. induction items as [|x items IH]; [by apply elem_of_nil in Hit|].
  rewrite window_frequency_cons. apply elem_of_cons in Hit as [<-|Hit].
  - assert ((ts it >=? t)%Z = true) as -> by lia.
    assert (1 <= occurrences (lower e) (entities it))%nat; [|lia].
    unfold occurrences.
    assert (e ∈ List.filter (has_key (lower e)) (entities it)) as Hf.
    { apply list_elem_of_In, filter_In. split; [by apply list_elem_of_In|].
      apply String.eqb_refl. }
    destruct (List.filter _ _); [by apply elem_of_nil in Hf|]. simpl. lia.
  - specialize (IH Hit). lia.
Qed.

(** X14. An item stamped inside the window (not earlier than 12 hours
    before the first clock value) and with at least one entity has a
    positive entity velocity: its own entities are counted. *)
Theorem entity_velocity_positive env items w out w' o :
  score_items env items w = (Ok out, w') -> o ∈ out ->
  (clock env (ticks w) - 43200000 <= ts (base o))%Z -> entities (base o) <> [] ->
  0 < NewsVel o.
Proof.
  intros H Ho Hts Hne.
  destruct (score_items_elem _ _ _ _ _ _ H Ho)
    as (it & w1 & w2 & mu & Mu & mc & Mc & slopes & Hit & Hs).
  apply score_one_Ok in Hs as (Hb & _ & _ & _ & -> & _). subst it.
  set (t := (clock env (ticks w) - 12 * 3600 * 1000)%Z).
  set (freq := build_freq t items).
  unfold entity_velocity. destruct (entities (base o)) as [|e es] eqn:E; [done|].
  rewrite fold_left_plus, Nat.add_0_l.
  assert (1 <= frequency freq (lower e))%nat as H1.
  { unfold freq. rewrite frequency_build_freq.
    apply (window_frequency_own t items (base o)); [done|unfold t; lia|].
    rewrite E. left. }
  pose proof (max_frequency_ge freq (lower e)) as Hm.
  rewrite fmap_cons.
  change (sum_list (?a :: ?l)) with (a + sum_list l)%nat.
  apply Qlt_shift_div_l.
  - change 0 with (inject_Z 0). rewrite <- Zlt_Qlt. lia.
  - rewrite Qmult_0_l. change 0 with (inject_Z 0). rewrite <- Zlt_Qlt. lia.
Qed.

(** ** More on the components *)

Lemma freshness_le_1 (now ts_ms : Z) :
  Qmax 0 (1 - (inject_Z (now - ts_ms) / 3600000) / 24) <= 1 <-> (ts_ms <= now)%Z.
Proof.
  rewrite day_fraction. split.
  - intros H. apply Q.max_lub_r in H.
    assert (0 <= inject_Z (now - ts_ms)) as P by lra.
    change 0 with (inject_Z 0) in P. rewrite <- Zle_Qle in P. lia.
  - intros H. assert (0 <= inject_Z (now - ts_ms)) as P.
    { change 0 with (inject_Z 0). rewrite <- Zle_Qle. lia. }
    apply Q.max_lub; lra.
Qed.

(** X16. The freshness of a scored item is at most 1 exactly when its
    timestamp is not later than the clock value read for it; so an item
    stamped no later than any clock value has freshness in [[0,1]], and an
    item stamped in the future of every clock value has freshness above 1. *)
Theorem freshness_above_one env items w out w' o :
  score_items env items w = (Ok out, w') -> o ∈ out ->
  ((forall n, (ts (base o) <= clock env n)%Z) -> 0 <= Fresh o <= 1) /\
  ((forall n, (clock env n < ts (base o))%Z) -> 1 < Fresh o).
Proof.
  intros H Ho.
  destruct (score_items_elem _ _ _ _ _ _ H Ho)
    as (it & w1 & w2 & mu & Mu & mc & Mc & slopes & _ & Hs).
  apply score_one_Ok in Hs as (-> & _ & _ & -> & _).
  pose proof (freshness_le_1 (clock env (ticks w1)) (ts it)) as F. split.
  - intros Hn. split; [apply Q.le_max_l|]. by apply F.
  - intros Hn. apply Qnot_le_lt. intros Hle. apply F in Hle. specialize (Hn (ticks w1)). lia.
Qed.

Lemma sum_list_bound {A} (f : A -> nat) (l : list A) (m : nat) :
  (forall x, f x <= m)%nat -> (sum_list (f <$> l) <= length l * m)%nat.
Proof.
  intros Hf. induction l as [|x l IH]; [simpl; lia|].
  rewrite fmap_cons.
  change (sum_list (f x :: (f <$> l))) with (f x + sum_list (f <$> l))%nat.
  specialize (Hf x). simpl length. lia.
Qed.

(** X17. The entity velocity of a list of entities is at most the number of
    entities in it, whatever the batch: each entity contributes at most the
    largest count.  This is the bound that takes the place of 1. *)
Theorem entity_velocity_upper (freq : gmap string nat) (ents : list string) :
  0 <= entity_velocity freq ents <= inject_Z (Z.of_nat (length ents)).
Proof.
  split; [apply entity_velocity_nonneg|].
  unfold entity_velocity. destruct ents as [|e ents]; [apply inject_nat_nonneg|].
  rewrite fold_left_plus, Nat.add_0_l.
  set (l := e :: ents). set (m := max_frequency freq).
  pose proof (sum_list_bound (fun e => frequency freq (lower e)) l m
                (fun e => max_frequency_ge freq (lower e))) as B.
  set (v := sum_list _) in *.
  destruct (Nat.eq_dec m 0%nat) as [E|NE].
  - rewrite E. unfold Qdiv. change (/ inject_Z (Z.of_nat 0)) with 0. rewrite Qmult_0_r.
    apply inject_nat_nonneg.
  - apply Qle_shift_div_r.
    + change 0 with (inject_Z 0). rewrite <- Zlt_Qlt. lia.
    + rewrite <- inject_Z_mult, <- Zle_Qle. lia.
Qed.

(** ** More on corroboration *)

Lemma shares_self (it : Item) : entities it <> [] -> shares (entities it) it.
Proof.
  destruct (entities it) as [|e es] eqn:E; [done|]. intros _.
  exists e, e. rewrite E. split; [left|]. split; [left|done].
Qed.

(** X18. Corroboration needs both sources in the batch: without a news
    item, or without a reddit item, every entity list gets 0.  For a reddit
    item with entities the reddit side is met by the item itself, so its
    value is 1 exactly when some news item shares a folded entity with it;
    likewise for a news item and the reddit items. *)
Theorem cross_source_needs_both (items : list Item) (ents : list string) (it : Item) :
  ((forall i, i ∈ items -> source i <> "news"%string) -> cross_source items ents = 0%Z) /\
  ((forall i, i ∈ items -> source i <> "reddit"%string) -> cross_source items ents = 0%Z) /\
  (it ∈ items -> entities it <> [] -> source it = "reddit"%string ->
   (cross_source items (entities it) = 1%Z
    <-> exists j, j ∈ items /\ source j = "news"%string /\ shares (entities it) j)) /\
  (it ∈ items -> entities it <> [] -> source it = "news"%string ->
   (cross_source items (entities it) = 1%Z
    <-> exists j, j ∈ items /\ source j = "reddit"%string /\ shares (entities it) j)).
Proof.
  assert (forall es, cross_source items es = 1%Z <->
            (exists i, i ∈ items /\ source i = "reddit"%string /\ shares es i) /\
            (exists j, j ∈ items /\ source j = "news"%string /\ shares es j)) as Hiff.
  { intros [|e es].
    - simpl. split; [done|]. intros [(i & _ & _ & e & e' & H & _) _].
      by apply elem_of_nil in H.
    - unfold cross_source. rewrite <- !has_source_sharing. unfold is_reddit, is_news.
      destruct (existsb _ items); destruct (existsb _ items); simpl; intuition congruence. }
  split; [|split; [|split]].
  - intros Hn. destruct (cross_source_cases items ents) as [E|E]; [done|].
    apply Hiff in E as [_ (j & Hj & Sj & _)]. by apply Hn in Hj.
  - intros Hn. destruct (cross_source_cases items ents) as [E|E]; [done|].
    apply Hiff in E as [(j & Hj & Sj & _) _]. by apply Hn in Hj.
  - intros Hit NE Sr. rewrite Hiff. split; [by intros [_ ?]|]. intros Hj. split; [|done].
    exists it. split; [done|]. split; [done|by apply shares_self].
  - intros Hit NE Sn. rewrite Hiff. split; [by intros [? _]|]. intros Hj. split; [done|].
    exists it. split; [done|]. split; [done|by apply shares_self].
Qed.

(** ** More on the promotional phrase *)

(** X19. Whatever the hash value of the title, negative ones included, the
    verb of the phrase is one of the ten verbs: the index is never out of
    range.  The phrase is the subject, a space, that verb and the fixed
    ending. *)
Theorem suggest_hook_verb env (ttl : string) :
  exists verb, verb ∈ verbs /\ suggest_hook env ttl = phrase (subject_of ttl) verb.
Proof.
  exists (nth (Z.to_nat (str_hash env ttl mod 10)) verbs ""%string).
  split; [|apply suggest_hook_eq].
  apply list_elem_of_In, nth_In.
  pose proof (Z.mod_pos_bound (str_hash env ttl) 10 eq_refl) as B.
  change (length verbs) with 10%nat. lia.
Qed.

Lemma runs_from_none (p : ascii -> bool) (s : string) :
  all_chars (fun c => negb (p c)) s = true -> runs_from p "" s = [].
Proof.
  induction s as [|c s IH]; [done|]. simpl. intros H.
  apply andb_true_iff in H as [Hc Hs]. apply negb_true_iff in Hc. rewrite Hc. simpl.
  by apply IH.
Qed.

(** X20. For a title without any letter, digit or apostrophe, the empty
    title included, the subject of the phrase is the word This. *)
Theorem suggest_hook_default_subject env (ttl : string) :
  all_chars (fun c => negb (word_char c)) ttl = true ->
  exists verb, verb ∈ verbs /\
    suggest_hook env ttl
    = String.append "This " (String.append verb " everything you thought.").
Proof.
  intros H. exists (nth (Z.to_nat (str_hash env ttl mod 10)) verbs ""%string). split.
  - apply list_elem_of_In, nth_In.
    pose proof (Z.mod_pos_bound (str_hash env ttl) 10 eq_refl) as B.
    change (length verbs) with 10%nat. lia.
  - rewrite suggest_hook_eq. unfold subject_of, findall_words, runs.
    change (runs_from _ "" ttl) with (runs_from word_char "" ttl).
    by rewrite (runs_from_none word_char ttl H).
Qed.

(** ** More on normalisation *)

(** X21. Between proper bounds [normalize] is monotone in the value, is 0
    at and below the lower bound and 1 at and above the upper bound. *)
Theorem normalize_monotone (v1 v2 lo hi : Q) :
  lo < hi ->
  (v1 <= v2 -> normalize v1 lo hi <= normalize v2 lo hi) /\
  (v1 <= lo -> normalize v1 lo hi == 0) /\
  (hi <= v1 -> normalize v1 lo hi == 1).
Proof.
  intros Hlt. unfold normalize.
  assert (Qeq_bool hi lo = false) as ->.
  { destruct (Qeq_bool hi lo) eqn:B; [|done]. apply Qeq_bool_iff in B. lra. }
  assert (forall a b, a <= b -> (a - lo) / (hi - lo) <= (b - lo) / (hi - lo)) as Hm.
  { intros a b Hab. apply Qle_shift_div_l; [lra|].
    unfold Qdiv. rewrite <- Qmult_assoc, (Qmult_comm (/ (hi - lo))), Qmult_inv_r by lra. lra. }
  split; [|split].
  - intros Hv. apply Q.max_le_compat_l, Q.min_le_compat_l. by apply Hm.
  - intros Hv. apply Q.max_l. eapply Qle_trans; [apply Q.le_min_r|].
    apply Qle_shift_div_r; lra.
  - intros Hv. assert (1 <= (v1 - lo) / (hi - lo)) as H1 by (apply Qle_shift_div_l; lra).
    rewrite Q.min_l by done. by apply Q.max_r.
Qed.

(** ** More on entity extraction *)

Lemma extract_entities_filter env txt k :
  List.filter (has_key k) (extract_entities env txt)
  = option_list (head (List.filter (has_key k) (candidates env txt))).
Proof.
  unfold extract_entities. rewrite uniq_loop_filter.
  by rewrite decide_False by apply not_elem_of_empty.
Qed.

Lemma extract_entities_NoDup env txt : NoDup (lower <$> extract_entities env txt).
Proof.
  apply NoDup_folded. intros k. rewrite extract_entities_filter. apply option_list_length.
Qed.

(** X22. Nothing is invented and nothing is lost up to case: every entity
    returned is a candidate (a stripped span of an allowed label or an
    acronym of the text), and every candidate, in particular every acronym
    of two or more capitals standing as a word of its own, is represented
    in the result by an entity with the same folded form. *)
Theorem extract_entities_complete env (txt : string) :
  (forall e, e ∈ extract_entities env txt -> e ∈ candidates env txt) /\
  (forall e, e ∈ candidates env txt -> lower e ∈ lower <$> extract_entities env txt) /\
  (forall a, a ∈ findall_caps txt -> lower a ∈ lower <$> extract_entities env txt).
Proof.
  assert (forall e, e ∈ candidates env txt ->
                    lower e ∈ lower <$> extract_entities env txt) as Hc.
  { intros e He.
    assert (e ∈ List.filter (has_key (lower e)) (candidates env txt)) as Hf.
    { apply list_elem_of_In, filter_In. split; [by apply list_elem_of_In|].
      apply String.eqb_refl. }
    pose proof (extract_entities_filter env txt (lower e)) as E.
    destruct (List.filter (has_key (lower e)) (candidates env txt)) as [|e0 l];
      [by apply elem_of_nil in Hf|].
    simpl in E.
    assert (e0 ∈ List.filter (has_key (lower e)) (extract_entities env txt)) as H0
        by (rewrite E; left).
    apply list_elem_of_In, filter_In in H0 as [H0 K]. apply String.eqb_eq in K.
    apply list_elem_of_fmap. exists e0. split; [done|by apply list_elem_of_In]. }
  split; [|split; [done|]].
  - intros e He. unfold extract_entities in He.
    destruct (uniq_loop_sublist (candidates env txt) ∅ []) as (l & E & S).
    rewrite E in He. by eapply elem_of_sublist.
  - intros a Ha. apply Hc. unfold candidates. apply elem_of_app. by right.
Qed.

(** ** The pipeline of [main] *)

Lemma concatM_elem {A B} (f : A -> M (list B)) l w out w' :
  concatM f l w = (Ok out, w') ->
  forall y, y ∈ out -> exists x wa ys wb, x ∈ l /\ f x wa = (Ok ys, wb) /\ y ∈ ys.
Proof.
  revert w out. induction l as [|x l IH]; simpl; intros w out H y Hy.
  - injection H as <- _. by apply elem_of_nil in Hy.
  - apply bind_Ok in H as (ys & w1 & Hf & H).
    apply bind_Ok in H as (zs & w2 & Hm & H). injection H as <- <-.
    apply elem_of_app in Hy as [Hy|Hy].
    + exists x, w, ys, w1. split; [left|done].
    + destruct (IH _ _ Hm y Hy) as (x' & wa & ys' & wb & Hx' & Hf' & Hy').
      exists x', wa, ys', wb. split; [by right|done].
Qed.

Lemma concatM_each {A B} (f : A -> M (list B)) l w out w' :
  concatM f l w = (Ok out, w') ->
  forall x, x ∈ l -> exists wa ys wb, f x wa = (Ok ys, wb).
Proof.
  revert w out. induction l as [|x l IH]; simpl; intros w out H x' Hx'.
  - by apply elem_of_nil in Hx'.
  - apply bind_Ok in H as (ys & w1 & Hf & H).
    apply bind_Ok in H as (zs & w2 & Hm & H). injection H as _ <-.
    apply elem_of_cons in Hx' as [->|Hx']; [by exists w, ys, w1|by eapply IH].
Qed.

Lemma concatM_total {A B} (f : A -> M (list B)) l w :
  (forall x w0, x ∈ l -> exists ys w1, f x w0 = (Ok ys, w1)) ->
  exists out w', concatM f l w = (Ok out, w').
Proof.
  revert w. induction l as [|x l IH]; simpl; intros w Hf; [by eexists _, _|].
  destruct (Hf x w) as (ys & w1 & E); [left|].
  destruct (IH w1) as (zs & w2 & E'); [intros; apply Hf; by right|].
  exists (ys ++ zs), w2. unfold bind. by rewrite E, E'.
Qed.

Lemma gather_inv env feeds w all w' :
  gather env feeds w = (Ok all, w') ->
  exists posts w1 news,
    concatM (reddit_items env feeds) SUBS w = (Ok posts, w1) /\
    concatM (fetch_news env feeds) NEWS_FEEDS w1 = (Ok news, w') /\
    all = posts ++ news.
Proof.
  unfold gather. intros H.
  apply bind_Ok in H as (posts & w1 & Hp & H).
  apply bind_Ok in H as (news & w2 & Hn & H). injection H as <- <-.
  by exists posts, w1, news.
Qed.

Lemma reddit_items_inv env feeds sub w ys w' :
  reddit_items env feeds sub w = (Ok ys, w') ->
  exists xs, fetch_reddit_top_day env feeds sub w = (Ok xs, w') /\ ys = List.map post xs.
Proof.
  unfold reddit_items. intros H. apply bind_Ok in H as (xs & w1 & Hx & H).
  injection H as <- <-. by exists xs.
Qed.

Lemma gather_elem env feeds w all w' i :
  gather env feeds w = (Ok all, w') -> i ∈ all ->
  (source i = "reddit"%string \/ source i = "news"%string) /\
  strip (title i) = title i /\ (ts i mod 1000 = 0)%Z /\ entities i = [] /\
  (source i = "reddit"%string -> url i <> ""%string).
Proof.
  intros H Hi. apply gather_inv in H as (posts & w1 & news & Hp & Hn & ->).
  apply elem_of_app in Hi as [Hi|Hi].
  - destruct (concatM_elem _ _ _ _ _ Hp i Hi) as (sub & wa & ys & wb & _ & Hf & Hy).
    apply reddit_items_inv in Hf as (xs & Hf & ->).
    apply list_elem_of_In, in_map_iff in Hy as (r & <- & Hr). apply list_elem_of_In in Hr.
    destruct (fetch_reddit_elem _ _ _ _ _ _ _ Hf Hr) as (_ & Hs & Hu & Ht & Hts & He).
    split; [by left|]. repeat (split; [done|]).
    intros _ E. by rewrite E in Hu.
  - destruct (concatM_elem _ _ _ _ _ Hn i Hi) as (u & wa & ys & wb & _ & Hf & Hy).
    destruct (fetch_news_elem _ _ _ _ _ _ _ Hf Hy) as (Hs & _ & _ & He & Ht & Hts).
    split; [by right|]. repeat (split; [done|]). intros E. congruence.
Qed.

(** X23. Every item ranked by [main] comes from reddit or from a news
    feed, its entities are those extracted from its own title, with
    pairwise different folded forms, its title has no surrounding white
    space and its timestamp is in whole seconds; a reddit item is keyed by
    its url. *)
Theorem main_ranked_items env feeds w out w' o :
  main_ranked env feeds w = (Ok out, w') -> o ∈ out ->
  (source (base o) = "reddit"%string \/ source (base o) = "news"%string) /\
  entities (base o) = extract_entities env (title (base o)) /\
  NoDup (lower <$> entities (base o)) /\
  strip (title (base o)) = title (base o) /\
  (ts (base o) mod 1000 = 0)%Z /\
  (source (base o) = "reddit"%string -> key o = url (base o)).
Proof.
  unfold main_ranked. intros H Ho.
  apply bind_Ok in H as (all & w1 & Hg & Hs).
  destruct (score_items_elem _ _ _ _ _ _ Hs Ho)
    as (it & wa & wb & mu & Mu & mc & Mc & slopes & Hit & Hone).
  apply score_one_Ok in Hone as (Hb & _).
  apply list_elem_of_In, in_map_iff in Hit as (raw & <- & Hraw).
  apply list_elem_of_In in Hraw.
  destruct (gather_elem _ _ _ _ _ _ Hg Hraw) as (Hsrc & Ht & Hts & _ & Hu).
  unfold key. rewrite Hb. simpl.
  split; [done|]. split; [done|]. split; [apply extract_entities_NoDup|].
  split; [done|]. split; [done|].
  intros Sr. apply Hu in Sr. by destruct (String.eqb_spec (url raw) "").
Qed.

(** X24. [main] gets as far as a ranking exactly when every subreddit
    request succeeded with complete children, every feed entry has a title
    and a link, and the trend client could be built if the feature is on:
    one failing fetch leaves no ranking at all. *)
Theorem main_ranked_returns env feeds w :
  (exists out w', main_ranked env feeds w = (Ok out, w'))
  <-> ((forall sub, sub ∈ SUBS ->
          exists children, reddit_top feeds sub = Some children /\ None ∉ children) /\
       (forall u e, u ∈ NEWS_FEEDS -> e ∈ feed_entries feeds u ->
          e_title e <> None /\ e_link e <> None) /\
       (USE_TRENDS env = false \/ trend_client env = true)).
Proof.
  unfold main_ranked. split.
  - intros (out & w' & H). apply bind_Ok in H as (all & w1 & Hg & Hs).
    apply gather_inv in Hg as (posts & w2 & news & Hp & Hn & ->).
    split; [|split].
    + intros sub Hsub. destruct (concatM_each _ _ _ _ _ Hp sub Hsub) as (wa & ys & wb & Hf).
      apply reddit_items_inv in Hf as (xs & Hf & _).
      apply fetch_reddit_inv in Hf as (children & E & Hnone & _). by exists children.
    + intros u e Hu He. destruct (concatM_each _ _ _ _ _ Hn u Hu) as (wa & ys & wb & Hf).
      by eapply fetch_news_entries.
    + destruct (USE_TRENDS env) eqn:U; [|by left]. destruct (trend_client env) eqn:C; [by right|].
      exfalso. unfold score_items, bind at 1, now_ms in Hs. unfold bind at 1 in Hs.
      by rewrite get_trend_slopes_abort in Hs.
  - intros (Hr & Hn & Ht).
    destruct (concatM_total (reddit_items env feeds) SUBS w) as (posts & w1 & Ep).
    { intros sub w0 Hsub. destruct (Hr sub Hsub) as (children & E & Hnone).
      destruct (fetch_reddit_total env feeds sub w0 children E Hnone) as (xs & w1 & Ex).
      exists (List.map post xs), w1. unfold reddit_items, bind. by rewrite Ex. }
    destruct (concatM_total (fetch_news env feeds) NEWS_FEEDS w1) as (news & w2 & En).
    { intros u w0 Hu. apply fetch_news_total. intros e He. by apply (Hn u). }
    destruct (score_items_total env (List.map (attach_entities env) (posts ++ news)) w2 Ht)
      as (out & w3 & Es).
    exists out, w3. unfold bind at 1, gather.
    unfold bind at 1. rewrite Ep. unfold bind at 1. rewrite En. exact Es.
Qed.

(** ** Worked examples for the further properties *)

Lemma fetch_reddit_returns_witness :
  exists out w', fetch_reddit_top_day env_off feeds_ok "MMA" w0 = (Ok out, w').
Proof.
  apply (fetch_reddit_returns env_off feeds_ok "MMA" w0).
  exists [Some child_ufc]. split; [reflexivity|].
  intros H. apply list_elem_of_singleton in H. discriminate.
Defined.

Lemma reddit_items_shape_witness :
  exists out w',
    fetch_reddit_top_day env_off feeds_ok "MMA" w0 = (Ok out, w') /\
    length out = 1%nat /\ ticks w' = 1%nat /\
    forall r, r ∈ out -> strip (title (post r)) = title (post r).
Proof.
  destruct (fetch_reddit_top_day env_off feeds_ok "MMA" w0) as [[out|] w'] eqn:E;
    [|vm_compute in E; discriminate].
  destruct (reddit_items_shape env_off feeds_ok "MMA" w0 out w' E) as (Hs & _ & Ht & _).
  pose proof E as E'. vm_compute in E'. injection E' as Eout Ew.
  exists out, w'. split; [reflexivity|]. split; [by rewrite <- Eout|].
  split; [by rewrite <- Ew|]. intros r Hr. by destruct (Hs r Hr) as (_ & _ & _ & H & _).
Defined.

Lemma fetch_news_returns_witness :
  exists out w',
    fetch_news env_off feeds_ok
      "https://news.google.com/rss/search?q=site:bleacherreport.com&hl=en-US&gl=US&ceid=US:en"
      w0 = (Ok out, w').
Proof.
  apply (fetch_news_returns env_off feeds_ok
           "https://news.google.com/rss/search?q=site:bleacherreport.com&hl=en-US&gl=US&ceid=US:en"
           w0).
  intros e He.
  repeat (apply elem_of_cons in He as [->|He]; [split; discriminate|]).
  by apply elem_of_nil in He.
Defined.

Lemma news_items_shape_witness :
  exists out w',
    fetch_news env_off feeds_ok
      "https://news.google.com/rss/search?q=site:bleacherreport.com&hl=en-US&gl=US&ceid=US:en"
      w0 = (Ok out, w') /\
    length out = 1%nat /\
    forall i, i ∈ out -> source i = "news"%string /\ ups i = 0%Z.
Proof.
  destruct (fetch_news env_off feeds_ok
      "https://news.google.com/rss/search?q=site:bleacherreport.com&hl=en-US&gl=US&ceid=US:en"
      w0) as [[out|] w'] eqn:E; [|vm_compute in E; discriminate].
  destruct (news_items_shape env_off feeds_ok _ w0 out w' E) as (Hs & _ & _).
  pose proof E as E'. vm_compute in E'. injection E' as Eout _.
  exists out, w'. split; [reflexivity|]. split; [by rewrite <- Eout|].
  intros i Hi. destruct (Hs i Hi) as (H1 & H2 & _). by split.
Defined.

Lemma rank_one_per_key_witness :
  length (rank [scored post_ufc (4 # 10); scored post_ufc (7 # 10); scored news_ufc (1 # 10)])
  = 2%nat.
Proof.
  destruct (rank_one_per_key
              [scored post_ufc (4 # 10); scored post_ufc (7 # 10); scored news_ufc (1 # 10)])
    as (H & _).
  rewrite H. vm_compute. reflexivity.
Defined.

Lemma rank_head_is_best_witness :
  ViralityScore (scored post_ufc (4 # 10)) <= ViralityScore (scored news_ufc (7 # 10)).
Proof.
  apply (rank_head_is_best [scored post_ufc (4 # 10); scored news_ufc (7 # 10)]
           (scored news_ufc (7 # 10)) [scored post_ufc (4 # 10)]);
    [reflexivity|left].
Defined.

Lemma score_items_effects_witness :
  exists out w',
    score_items env_on [post_ufc; news_ufc] w0 = (Ok out, w') /\
    ticks w' = 3%nat /\
    calls w' = [EvClient; EvFetch "NFL"; EvFetch "NBA"; EvFetch "UFC"; EvFetch "Boxing";
                EvFetch "Soccer"]%string.
Proof.
  destruct (score_items env_on [post_ufc; news_ufc] w0) as [[out|] w'] eqn:E;
    [|vm_compute in E; discriminate].
  destruct (score_items_effects env_on [post_ufc; news_ufc] w0 out w' E) as (T & C & _).
  exists out, w'. split; [reflexivity|]. split; [exact T|exact C].
Defined.

Lemma score_items_returns_witness :
  score_items env_broken [post_ufc] w0 = (Raised, {| ticks := 1; calls := [EvClient] |}).
Proof.
  destruct (score_items_returns env_broken [post_ufc] w0) as (_ & H).
  apply H; reflexivity.
Defined.

Lemma engagement_in_batch_witness :
  exists out w' o,
    score_items env_off [post_ufc; post_nba; news_ufc] w0 = (Ok out, w') /\ o ∈ out /\
    title (base o) = "UFC 300 card announced"%string /\ R_up o == 1.
Proof.
  destruct (score_items env_off [post_ufc; post_nba; news_ufc] w0) as [[out|] w'] eqn:E;
    [|vm_compute in E; discriminate].
  pose proof E as E'. vm_compute in E'. injection E' as Eout _.
  destruct out as [|o out]; [discriminate|]. injection Eout as Eo _.
  assert (o ∈ o :: out) as Ho by left.
  destruct (engagement_in_batch env_off _ w0 (o :: out) w' o E Ho) as (_ & H).
  exists (o :: out), w', o. split; [reflexivity|]. split; [exact Ho|].
  split; [by rewrite <- Eo|].
  destruct H as (_ & Htop & _); [by rewrite <- Eo|]. apply Htop.
  - intros i Hi _. rewrite <- Eo. simpl.
    apply elem_of_cons in Hi as [->|Hi]; [simpl; lia|].
    apply elem_of_cons in Hi as [->|Hi]; [simpl; lia|].
    apply list_elem_of_singleton in Hi as ->. simpl. lia.
  - exists post_nba. split; [right; left|]. split; [reflexivity|].
    rewrite <- Eo. simpl. lia.
Defined.

Lemma trend_signal_floor_witness :
  exists out w' o,
    score_items env_on [post_ufc; news_ufc] w0 = (Ok out, w') /\ o ∈ out /\
    1 # 2 <= TrendSlope o <= 1.
Proof.
  destruct (score_items env_on [post_ufc; news_ufc] w0) as [[out|] w'] eqn:E;
    [|vm_compute in E; discriminate].
  pose proof E as E'. vm_compute in E'. injection E' as Eout _.
  destruct out as [|o out]; [discriminate|].
  assert (o ∈ o :: out) as Ho by left.
  destruct (trend_signal_floor env_on [post_ufc; news_ufc] w0 (o :: out) w' o ∅ []) as (_ & H).
  exists (o :: out), w', o. split; [reflexivity|]. split; [exact Ho|].
  apply H; [exact E|exact Ho|reflexivity].
Defined.

Lemma trend_signal_flat_witness :
  trend_signal ({[ "NBA"%string := - (3 # 10) ]} : gmap string Q) ["NBA"; "Lakers"]%string
  == 1 # 2.
Proof.
  apply trend_signal_flat. intros t Ht _.
  repeat (apply elem_of_cons in Ht as [->|Ht]; [vm_compute; discriminate|]).
  by apply elem_of_nil in Ht.
Defined.

Lemma slope_of_range_witness : - (1) <= slope_of [10; 20; 60] <= 1.
Proof.
  apply slope_of_range. repeat constructor; discriminate.
Defined.

Lemma entity_velocity_positive_witness :
  exists out w' o,
    score_items env_off [post_ufc; news_ufc] w0 = (Ok out, w') /\ o ∈ out /\ 0 < NewsVel o.
Proof.
  destruct (score_items env_off [post_ufc; news_ufc] w0) as [[out|] w'] eqn:E;
    [|vm_compute in E; discriminate].
  pose proof E as E'. vm_compute in E'. injection E' as Eout _.
  destruct out as [|o out]; [discriminate|]. injection Eout as Eo _.
  assert (o ∈ o :: out) as Ho by left.
  exists (o :: out), w', o. split; [reflexivity|]. split; [exact Ho|].
  apply (entity_velocity_positive env_off [post_ufc; news_ufc] w0 (o :: out) w' o E Ho);
    rewrite <- Eo; vm_compute; discriminate.
Defined.

Lemma freshness_above_one_witness :
  exists out w' o,
    score_items env_off [post_ufc; news_ufc] w0 = (Ok out, w') /\ o ∈ out /\
    0 <= Fresh o <= 1.
Proof.
  destruct (score_items env_off [post_ufc; news_ufc] w0) as [[out|] w'] eqn:E;
    [|vm_compute in E; discriminate].
  pose proof E as E'. vm_compute in E'. injection E' as Eout _.
  destruct out as [|o out]; [discriminate|]. injection Eout as Eo _.
  assert (o ∈ o :: out) as Ho by left.
  exists (o :: out), w', o. split; [reflexivity|]. split; [exact Ho|].
  destruct (freshness_above_one env_off [post_ufc; news_ufc] w0 (o :: out) w' o E Ho)
    as (H & _).
  apply H. intros n. rewrite <- Eo. vm_compute. discriminate.
Defined.

Lemma cross_source_needs_both_witness :
  cross_source [post_ufc; post_nba] ["UFC"]%string = 0%Z /\
  (cross_source [post_ufc; news_ufc] (entities post_ufc) = 1%Z).
Proof.
  split.
  - destruct (cross_source_needs_both [post_ufc; post_nba] ["UFC"]%string post_ufc)
      as (H & _).
    apply H. intros i Hi.
    repeat (apply elem_of_cons in Hi as [->|Hi]; [discriminate|]).
    by apply elem_of_nil in Hi.
  - destruct (cross_source_needs_both [post_ufc; news_ufc] [] post_ufc)
      as (_ & _ & H & _).
    apply H; [left|discriminate|reflexivity|].
    exists news_ufc. split; [right; left|]. split; [reflexivity|].
    exists "UFC"%string, "Ufc"%string. split; [left|]. split; [left|reflexivity].
Defined.

Lemma suggest_hook_default_subject_witness :
  exists verb, verb ∈ verbs /\
    suggest_hook env_broken "?! ..."
    = String.append "This " (String.append verb " everything you thought.").
Proof.
  apply (suggest_hook_default_subject env_broken "?! ..."). reflexivity.
Defined.

Lemma normalize_monotone_witness : normalize 1 0 2 <= normalize 3 0 2.
Proof.
  destruct (normalize_monotone 1 3 0 2) as (H & _); [reflexivity|].
  apply H. discriminate.
Defined.

Lemma extract_entities_complete_witness :
  lower "NFL" ∈ lower <$> extract_entities env_on "NFL NFL nfl Patriots".
Proof.
  destruct (extract_entities_complete env_on "NFL NFL nfl Patriots") as (_ & _ & H).
  apply H. left.
Defined.

Lemma main_ranked_items_witness :
  exists out w' o,
    main_ranked env_on feeds_ok w0 = (Ok out, w') /\ o ∈ out /\
    entities (base o) = extract_entities env_on (title (base o)) /\
    NoDup (lower <$> entities (base o)).
Proof.
  destruct (main_ranked env_on feeds_ok w0) as [[out|] w'] eqn:E;
    [|vm_compute in E; discriminate].
  pose proof E as E'. vm_compute in E'. injection E' as Eout _.
  destruct out as [|o out]; [discriminate|].
  assert (o ∈ o :: out) as Ho by left.
  destruct (main_ranked_items env_on feeds_ok w0 (o :: out) w' o E Ho) as (_ & H1 & H2 & _).
  exists (o :: out), w', o. split; [reflexivity|]. split; [exact Ho|].
  split; [exact H1|exact H2].
Defined.

Lemma main_ranked_returns_witness :
  exists out w', main_ranked env_on feeds_ok w0 = (Ok out, w').
Proof.
  apply (main_ranked_returns env_on feeds_ok w0). split; [|split].
  - intros sub Hsub.
    repeat (apply elem_of_cons in Hsub as [->|Hsub];
            [eexists; split; [reflexivity|];
             intros Hn; repeat (apply elem_of_cons in Hn as [Hn|Hn]; [discriminate|]);
             by apply elem_of_nil in Hn|]).
    by apply elem_of_nil in Hsub.
  - intros u e Hu He.
    repeat (apply elem_of_cons in Hu as [->|Hu];
            [repeat (apply elem_of_cons in He as [->|He]; [split; discriminate|]);
             by apply elem_of_nil in He|]).
    by apply elem_of_nil in Hu.
  - right. reflexivity.
Defined.
